(** * pyaldata.data_cleaning: post-load normalisation of trial_data tables

    A shallow embedding of [src/pyaldata/data_cleaning.py].  The four
    transforms are written as programs of a small state-and-exception monad
    over a store of DataFrame objects, so that the mutation [df[c] = ...]
    and the defensive copy of the [copy_td] decorator are both visible.
    Cells tell Python numbers from numpy numbers (which have a dtype, wrap
    around at its width, and have [ndim]), and a list assigned to a column
    goes through the dtype inference of pandas.  numpy's cast ([np.int32])
    and comparison ([np.allclose]) are an interface the development is
    parametric in. *)

From Stdlib Require Import ZArith String Ascii List Bool Lia.
From Stdlib Require Import Floats.
From stdpp Require Import base option list gmap strings.

Set Warnings "-inexact-float".

Local Open Scope Z_scope.
Local Open Scope string_scope.
Local Open Scope list_scope.

(** ** Python [str] methods used for column dispatch *)

Module PyStr.

(** [s.startswith(p)] *)
Fixpoint startswith (s p : string) : bool :=
  match p with
  | EmptyString => true
  | String a p' =>
      match s with
      | EmptyString => false
      | String b s' => if Ascii.eqb a b then startswith s' p' else false
      end
  end.

(** [s.endswith(p)]: the last [len(p)] characters of [s] spell [p]. *)
Definition endswith (s p : string) : bool :=
  let n := String.length s in
  let m := String.length p in
  if (m <=? n)%nat then String.eqb (String.substring (n - m) m s) p else false.

(** [sub in s] *)
Fixpoint contains (sub s : string) : bool :=
  startswith s sub ||
  match s with
  | EmptyString => false
  | String _ s' => contains sub s'
  end.

(** [c.lower()] on one ASCII character; bytes outside [A-Z] are kept. *)
Definition lower_ascii (c : ascii) : ascii :=
  let n := nat_of_ascii c in
  if ((65 <=? n) && (n <=? 90))%nat then ascii_of_nat (n + 32) else c.

(** [s.lower()] *)
Fixpoint lower (s : string) : string :=
  match s with
  | EmptyString => EmptyString
  | String c s' => String (lower_ascii c) (lower s')
  end.

End PyStr.

(** ** Values held by a table *)

(** The integer dtypes of numpy. *)
Inductive int_dtype :=
| Int8 | Int16 | Int32 | Int64
| UInt8 | UInt16 | UInt32 | UInt64.

Definition bits (t : int_dtype) : Z :=
  match t with
  | Int8 | UInt8 => 8
  | Int16 | UInt16 => 16
  | Int32 | UInt32 => 32
  | Int64 | UInt64 => 64
  end.

Definition is_signed (t : int_dtype) : bool :=
  match t with
  | Int8 | Int16 | Int32 | Int64 => true
  | UInt8 | UInt16 | UInt32 | UInt64 => false
  end.

Definition dtype_min (t : int_dtype) : Z :=
  if is_signed t then - 2 ^ (bits t - 1) else 0.

Definition dtype_max (t : int_dtype) : Z :=
  if is_signed t then 2 ^ (bits t - 1) - 1 else 2 ^ bits t - 1.

(** Arithmetic at dtype [t] keeps the low [bits t] bits: a result below the
    least value of the dtype comes back in from the greatest. *)
Definition wrap (t : int_dtype) (z : Z) : Z :=
  (z - dtype_min t) mod 2 ^ bits t + dtype_min t.

(** A number or a string.  [SInt], [SFloat] and [SStr] are the Python
    objects [int] (unbounded), [float] (binary64) and [str]: what a numeric
    column yields when iterated, and what an array of dtype [object] holds.
    [SNpInt] and [SNpFloat] are numpy numbers, an integer of one of the
    fixed-width dtypes and a [float64]: the elements of a typed array, and
    the numpy scalars ([np.int32(7)], [np.float64(2.5)]) that a column of
    dtype [object] can hold. *)
Inductive scalar :=
| SInt (z : Z)
| SFloat (f : float)
| SStr (s : string)
| SNpInt (t : int_dtype) (z : Z)
| SNpFloat (f : float).

(** A numpy [ndarray]: its shape and its elements in row-major order.  The
    dtype is that of the elements. *)
Record ndarray := NdArray { shape : list nat; data : list scalar }.

(** One per-trial value: a number or string, a numpy array, or a Python
    list. *)
Inductive cell :=
| Scalar (x : scalar)
| Array (a : ndarray)
| PyList (xs : list scalar).

Definition column := list cell.

(** A pandas [DataFrame]: the row labels and the named columns, in order.  A
    column is given by the values it yields when iterated, as every loop of
    the module reads it.  A column of a numeric dtype yields Python numbers;
    a column of dtype [object] yields the objects it holds. *)
Record DataFrame := Frame { index : list Z; columns : list (string * column) }.

(** [arr.ndim] *)
Definition ndim (a : ndarray) : nat := length (shape a).

(** The number of elements a shape announces: the product of its axes. *)
Definition shape_size (sh : list nat) : nat := fold_right Nat.mul 1%nat sh.

(** Numpy numbers, as opposed to Python objects. *)
Definition is_np_scalar (x : scalar) : bool :=
  match x with
  | SNpInt _ _ | SNpFloat _ => true
  | SInt _ | SFloat _ | SStr _ => false
  end.

(** The Python object a numpy number converts to. *)
Definition to_python (x : scalar) : scalar :=
  match x with
  | SNpInt _ z => SInt z
  | SNpFloat f => SFloat f
  | SInt _ | SFloat _ | SStr _ => x
  end.

Definition is_number (x : scalar) : bool :=
  match x with SStr _ => false | _ => true end.

Definition is_integer (x : scalar) : bool :=
  match x with SInt _ | SNpInt _ _ => true | _ => false end.

(** ** Exceptions and results *)

Inductive exn :=
| IndexError
| KeyError
| TypeError
| ValueError
| AttributeError
| OverflowError
| ReferenceError.

Inductive result (A : Type) :=
| Ok (a : A)
| Raise (e : exn).
Arguments Ok {A} a.
Arguments Raise {A} e.

Definition is_ok {A} (r : result A) : bool :=
  match r with Ok _ => true | Raise _ => false end.

(** A list comprehension [[f x for x in xs]] whose element expression may
    raise: the first exception, in iteration order, aborts the comprehension. *)
Fixpoint comprehension {A B} (f : A -> result B) (xs : list A) : result (list B) :=
  match xs with
  | [] => Ok []
  | x :: xs' =>
      match f x with
      | Raise e => Raise e
      | Ok y =>
          match comprehension f xs' with
          | Raise e => Raise e
          | Ok ys => Ok (y :: ys)
          end
      end
  end.

(** [zip(xs, ys)] *)
Fixpoint zip {A B} (xs : list A) (ys : list B) : list (A * B) :=
  match xs, ys with
  | x :: xs', y :: ys' => (x, y) :: zip xs' ys'
  | _, _ => []
  end.

(** ** The store and the monad of programs *)

Definition ref := positive.

(** What [print] writes: the one diagnostic of this module, carrying the list
    of field names that the f-string interpolates. *)
Inductive line :=
| CouldNotConvert (bad_fields : list string).

Record world := World { heap : gmap ref DataFrame; stdout : list line }.

(** A program takes the world to a new world and either a value or a raised
    exception; writes made before a [raise] persist, as in Python. *)
Definition M (A : Type) : Type := world -> world * result A.

Definition ret {A} (a : A) : M A := fun w => (w, Ok a).

Definition raise {A} (e : exn) : M A := fun w => (w, Raise e).

Definition bind {A B} (m : M A) (k : A -> M B) : M B :=
  fun w =>
    match m w with
    | (w', Ok a) => k a w'
    | (w', Raise e) => (w', Raise e)
    end.

Declare Scope py_scope.
Delimit Scope py_scope with py.
Notation "x <- m ;; k" := (bind m (fun x => k))
  (at level 100, m at next level, right associativity) : py_scope.
Notation "m ;; k" := (bind m (fun _ => k))
  (at level 100, right associativity) : py_scope.
Local Open Scope py_scope.

(** An expression without effect on the store that may raise. *)
Definition lift {A} (r : result A) : M A := fun w => (w, r).

(** [try: body  except: handler] with a bare [except]. *)
Definition try_except {A} (body : M A) (handler : exn -> M A) : M A :=
  fun w =>
    match body w with
    | (w', Ok a) => (w', Ok a)
    | (w', Raise e) => handler e w'
    end.

(** [for x in xs: body x] *)
Fixpoint for_each {A} (xs : list A) (body : A -> M unit) : M unit :=
  match xs with
  | [] => ret tt
  | x :: xs' => body x ;; for_each xs' body
  end.

(** [print(...)] *)
Definition print (l : line) : M unit :=
  fun w => (World (heap w) (stdout w ++ [l]), Ok tt).

(** Reading the object a reference points to. *)
Definition deref (r : ref) : M DataFrame :=
  fun w =>
    match heap w !! r with
    | Some d => (w, Ok d)
    | None => (w, Raise ReferenceError)
    end.

(** Overwriting the object a reference points to. *)
Definition store (r : ref) (d : DataFrame) : M unit :=
  fun w => (World (<[r := d]> (heap w)) (stdout w), Ok tt).

(** Allocating a new object. *)
Definition alloc (d : DataFrame) : M ref :=
  fun w =>
    let r := fresh (dom (heap w)) in
    (World (<[r := d]> (heap w)) (stdout w), Ok r).

(** ** pandas operations on a DataFrame object *)

(** Lookup of a column by name. *)
Fixpoint assoc (c : string) (cols : list (string * column)) : option column :=
  match cols with
  | [] => None
  | (n, v) :: cols' => if String.eqb n c then Some v else assoc c cols'
  end.

(** Replacement of the column named [c]; a new name is appended. *)
Fixpoint assign (c : string) (v : column) (cols : list (string * column))
  : list (string * column) :=
  match cols with
  | [] => [(c, v)]
  | (n, old) :: cols' =>
      if String.eqb n c then (n, v) :: cols' else (n, old) :: assign c v cols'
  end.

(** [df.columns] (and [df.columns.values]): the column names in order. *)
Definition df_columns (df : ref) : M (list string) :=
  d <- deref df ;; ret (map fst (columns d)).

(** [df[c]]: the values of column [c], one per row.  The tables of this
    module name every column once; of two columns of one name (for which
    pandas hands back a table instead) the first is read. *)
Definition getitem (df : ref) (c : string) : M column :=
  d <- deref df ;;
  match assoc c (columns d) with
  | Some v => ret v
  | None => raise KeyError
  end.

Definition INT64_MIN : Z := - 2 ^ 63.
Definition INT64_MAX : Z := 2 ^ 63 - 1.
Definition UINT64_MAX : Z := 2 ^ 64 - 1.

(** The binary64 float nearest to an integer. *)
Definition float_of_Z (z : Z) : float :=
  SF2Prim (binary_normalize prec emax z 0 false).

(** The integer a cell is, when it is a Python [int] or a numpy integer. *)
Definition as_integer (c : cell) : option Z :=
  match c with
  | Scalar (SInt z) | Scalar (SNpInt _ z) => Some z
  | _ => None
  end.

Definition is_integer_cell (c : cell) : bool :=
  match c with Scalar x => is_integer x | _ => false end.

Definition is_number_cell (c : cell) : bool :=
  match c with Scalar x => is_number x | _ => false end.

(** Every integer among [values] lies between [lo] and [hi]. *)
Definition ints_within (lo hi : Z) (values : column) : bool :=
  forallb (fun c => match as_integer c with
                    | Some z => (lo <=? z)%Z && (z <=? hi)%Z
                    | None => true
                    end) values.

(** The integers of [values] have a common 64-bit dtype: all of them are
    [int64] values, or all of them are [uint64] values. *)
Definition ints_fit (values : column) : bool :=
  ints_within INT64_MIN INT64_MAX values || ints_within 0 UINT64_MAX values.

(** What iterating an integer column yields for a number stored in it. *)
Definition python_int (c : cell) : cell :=
  match as_integer c with
  | Some z => Scalar (SInt z)
  | None => c
  end.

(** What iterating a [float64] column yields for a number stored in it. *)
Definition python_float (c : cell) : cell :=
  match c with
  | Scalar (SInt z) | Scalar (SNpInt _ z) => Scalar (SFloat (float_of_Z z))
  | Scalar (SNpFloat f) => Scalar (SFloat f)
  | _ => c
  end.

(** The dtype inference pandas runs on a list assigned to a column
    ([lib.maybe_convert_objects]).  A list of numbers only, Python or numpy,
    becomes a numeric column: an integer column when all are integers, a
    [float64] column when a float is among them (the integers are then
    converted).  Such a column yields Python numbers.  A list holding
    anything else (a string, an array, a list), or integers without a
    common 64-bit dtype, becomes a column of dtype [object] that holds the
    very objects assigned. *)
Definition maybe_convert_objects (values : column) : column :=
  if forallb is_number_cell values && ints_fit values then
    if forallb is_integer_cell values then map python_int values
    else map python_float values
  else values.

(** [df[c] = values] for a Python list: pandas refuses a list whose length
    is not the number of rows; otherwise the column is replaced, with the
    inferred dtype, in the object [df] points to. *)
Definition setitem (df : ref) (c : string) (values : column) : M unit :=
  d <- deref df ;;
  if (length values =? length (index d))%nat
  then store df (Frame (index d)
                   (assign c (maybe_convert_objects values) (columns d)))
  else raise ValueError.

(** [df[c] = arr] for a one-dimensional numpy array of numbers, given by the
    numbers it holds: the column takes the dtype of the array and yields
    those numbers. *)
Definition setitem_array (df : ref) (c : string) (arr : list scalar) : M unit :=
  d <- deref df ;;
  if (length arr =? length (index d))%nat
  then store df (Frame (index d) (assign c (map Scalar arr) (columns d)))
  else raise ValueError.

(** [series.values[0]].  Of a numeric column [.values] holds numpy numbers
    where iteration yields Python numbers; the two [isinstance] tests
    applied to this value do not tell them apart. *)
Definition values_0 (series : column) : result cell :=
  match series with
  | [] => Raise IndexError
  | x :: _ => Ok x
  end.

(** [isinstance(x, np.ndarray)] *)
Definition isinstance_ndarray (x : cell) : bool :=
  match x with Array _ => true | Scalar _ | PyList _ => false end.

(** [isinstance(x, str)] *)
Definition isinstance_str (x : cell) : bool :=
  match x with Scalar (SStr _) => true | _ => false end.

(** ** Modelled helper: the [copy_td] decorator *)

(** Modelled from the spec: [utils.copy_td], which is not among the sources.
    "Before any column is modified, the transform operates on a full
    independent copy of the input table ... The return value is this copy,
    with the stated modifications applied."  The wrapped function receives a
    reference to a newly allocated table holding the caller's values. *)
Definition copy_td (func : ref -> M ref) (trial_data : ref) : M ref :=
  d <- deref trial_data ;;
  copy <- alloc (Frame (index d) (columns d)) ;;
  func copy.

(** ** Index rebasing: [backshift_idx_fields] *)

(** [x - 1] on a number.  A Python [int] is unbounded; next to a numpy
    integer the Python [1] takes the dtype of that operand, so the result
    stays in the dtype and wraps around; a string operand raises. *)
Definition scalar_sub1 (x : scalar) : result scalar :=
  match x with
  | SInt z => Ok (SInt (z - 1))
  | SFloat f => Ok (SFloat (f - 1)%float)
  | SStr _ => Raise TypeError
  | SNpInt t z => Ok (SNpInt t (wrap t (z - 1)))
  | SNpFloat f => Ok (SNpFloat (f - 1)%float)
  end.

(** [idx - 1] on a cell.  numpy subtracts elementwise and keeps the shape,
    except that the result for an array without axes is a scalar, not an
    array; a Python list has no subtraction. *)
Definition cell_sub1 (idx : cell) : result cell :=
  match idx with
  | Scalar x =>
      match scalar_sub1 x with
      | Ok y => Ok (Scalar y)
      | Raise e => Raise e
      end
  | Array a =>
      match comprehension scalar_sub1 (data a) with
      | Ok ys =>
          match shape a, ys with
          | [], [y] => Ok (Scalar y)
          | _, _ => Ok (Array (NdArray (shape a) ys))
          end
      | Raise e => Raise e
      end
  | PyList _ => Raise TypeError
  end.

Definition is_idx_field (col : string) : bool := PyStr.startswith col "idx".

Definition backshift_idx_fields_body (trial_data : ref) : M ref :=
  names <- df_columns trial_data ;;
  let idx_fields := List.filter is_idx_field names in
  for_each idx_fields (fun col =>
    series <- getitem trial_data col ;;
    values <- lift (comprehension cell_sub1 series) ;;
    setitem trial_data col values) ;;
  ret trial_data.

Definition backshift_idx_fields : ref -> M ref :=
  copy_td backshift_idx_fields_body.

(** ** Ensure 2-D: [clean_0d_array_fields] *)

(** [arr.reshape(1, -1)]: one row holding every element, in order. *)
Definition reshape_row (a : ndarray) : ndarray :=
  NdArray [1%nat; length (data a)] (data a).

(** [arr if arr.ndim == 2 else arr.reshape(1,-1)].  A numpy scalar has
    [ndim] 0 and reshapes to an array with its one element; a Python number,
    string or list has no attribute [ndim]. *)
Definition ensure_2d (arr : cell) : result cell :=
  match arr with
  | Scalar x =>
      if is_np_scalar x then Ok (Array (NdArray [1%nat; 1%nat] [x]))
      else Raise AttributeError
  | Array a => if (ndim a =? 2)%nat then Ok arr else Ok (Array (reshape_row a))
  | PyList _ => Raise AttributeError
  end.

Definition is_spike_field (name : string) : bool := PyStr.endswith name "_spikes".

Definition clean_0d_array_fields_body (df : ref) : M ref :=
  names <- df_columns df ;;
  let spike_fields := List.filter is_spike_field names in
  for_each spike_fields (fun c =>
    series <- getitem df c ;;
    values <- lift (comprehension ensure_2d series) ;;
    setitem df c values) ;;
  ret df.

Definition clean_0d_array_fields : ref -> M ref :=
  copy_td clean_0d_array_fields_body.

(** ** Collapse 0-D: [clean_0d_spike_fields] *)

(** [arr.ndim == 0] *)
Definition ndim_is_0 (arr : cell) : result bool :=
  match arr with
  | Scalar x => if is_np_scalar x then Ok true else Raise AttributeError
  | Array a => Ok (ndim a =? 0)%nat
  | PyList _ => Raise AttributeError
  end.

(** [arr.item()]: the sole element of an array of size one, as a Python
    object. *)
Definition item (arr : cell) : result cell :=
  match arr with
  | Scalar x =>
      if is_np_scalar x then Ok (Scalar (to_python x)) else Raise AttributeError
  | Array a =>
      match data a with
      | [x] => Ok (Scalar (to_python x))
      | _ => Raise ValueError
      end
  | PyList _ => Raise AttributeError
  end.

Definition clean_0d_spike_fields_body (df : ref) : M ref :=
  names <- df_columns df ;;
  for_each names (fun c =>
    series <- getitem df c ;;
    if forallb isinstance_ndarray series then
      series <- getitem df c ;;
      zero_d <- lift (comprehension ndim_is_0 series) ;;
      if forallb id zero_d then
        series <- getitem df c ;;
        values <- lift (comprehension item series) ;;
        setitem df c values
      else ret tt
    else ret tt) ;;
  ret df.

Definition clean_0d_spike_fields : ref -> M ref :=
  copy_td clean_0d_spike_fields_body.

(** ** Integer down-casting: [clean_integer_fields] *)

(** The two numpy functions the transform calls, at the two kinds of argument
    it passes: one cell of an array column, and a whole column (a pandas
    [Series]).  [np.int32] of a Series is a one-dimensional array, given by
    the numbers it holds. *)
Record numpy := Numpy {
  np_int32 : cell -> result cell;
  np_allclose : cell -> cell -> result bool;
  np_int32_series : column -> result (list scalar);
  np_allclose_series : list scalar -> column -> result bool
}.

(** [for x in xs: acc = body acc x], for a local variable updated in a loop. *)
Fixpoint for_fold {A S} (xs : list A) (acc : S) (body : S -> A -> M S) : M S :=
  match xs with
  | [] => ret acc
  | x :: xs' => acc' <- body acc x ;; for_fold xs' acc' body
  end.

Definition is_label_field (field : string) : bool :=
  PyStr.contains "label" (PyStr.lower field).

Section CleanIntegerFields.

Variable np : numpy.

(** The body of the [try] block for one field. *)
Definition try_block (df : ref) (field : string) : M unit :=
  series <- getitem df field ;;
  first <- lift (values_0 series) ;;
  if isinstance_ndarray first then
    series <- getitem df field ;;
    int_arrays <- lift (comprehension (np_int32 np) series) ;;
    series <- getitem df field ;;
    close <- lift (comprehension (fun p => np_allclose np (fst p) (snd p))
                                 (zip int_arrays series)) ;;
    if forallb id close then setitem df field int_arrays else ret tt
  else
    series <- getitem df field ;;
    first <- lift (values_0 series) ;;
    if negb (isinstance_str first) then
      series <- getitem df field ;;
      int_version <- lift (np_int32_series np series) ;;
      series <- getitem df field ;;
      close <- lift (np_allclose_series np int_version series) ;;
      if close then setitem_array df field int_version else ret tt
    else ret tt.

Definition clean_integer_fields_body (df : ref) : M ref :=
  fields <- df_columns df ;;
  bad_fields <- for_fold fields [] (fun bad_fields field =>
    try_except (try_block df field ;; ret bad_fields)
               (fun _ => ret (bad_fields ++ [field]))) ;;
  let bad_fields := List.filter (fun field => negb (is_label_field field)) bad_fields in
  match bad_fields with
  | [] => ret tt
  | _ :: _ => print (CouldNotConvert bad_fields)
  end ;;
  ret df.

Definition clean_integer_fields : ref -> M ref :=
  copy_td clean_integer_fields_body.

End CleanIntegerFields.

(** ** Well-formed tables *)

(** [x in xs] on names *)
Fixpoint mem (x : string) (xs : list string) : bool :=
  match xs with
  | [] => false
  | y :: xs' => String.eqb y x || mem x xs'
  end.

Fixpoint distinct (xs : list string) : bool :=
  match xs with
  | [] => true
  | x :: xs' => negb (mem x xs') && distinct xs'
  end.

(** A table: column names are unique, and every column has one value per row. *)
Definition well_formed (d : DataFrame) : bool :=
  distinct (map fst (columns d)) &&
  forallb (fun p => (length (snd p) =? length (index d))%nat) (columns d).

Definition cell_wf (c : cell) : bool :=
  match c with
  | Array a => (length (data a) =? shape_size (shape a))%nat
  | Scalar _ | PyList _ => true
  end.

(** Every array of the table holds as many elements as its shape announces,
    as numpy ensures; an array without axes then holds exactly one. *)
Definition arrays_wf (d : DataFrame) : bool :=
  forallb (fun p => forallb cell_wf (snd p)) (columns d).

(** ** One column at a time: what each loop body computes *)

(** The new values of a column under a per-cell expression: the column
    pandas makes of the list the comprehension builds. *)
Definition per_cell (g : cell -> result cell) (series : column) : result column :=
  match comprehension g series with
  | Ok values => Ok (maybe_convert_objects values)
  | Raise e => Raise e
  end.

(** The column [clean_0d_spike_fields] leaves for [series]. *)
Definition collapse_0d (series : column) : result column :=
  if forallb isinstance_ndarray series then
    match comprehension ndim_is_0 series with
    | Raise e => Raise e
    | Ok zero_d =>
        if forallb id zero_d then per_cell item series else Ok series
    end
  else Ok series.

(** What the [try] block of [clean_integer_fields] does with [series]: the
    values the column holds afterwards, or the exception that escapes it. *)
Definition attempt (np : numpy) (series : column) : result column :=
  match values_0 series with
  | Raise e => Raise e
  | Ok first =>
      if isinstance_ndarray first then
        match comprehension (np_int32 np) series with
        | Raise e => Raise e
        | Ok int_arrays =>
            match comprehension (fun p => np_allclose np (fst p) (snd p))
                                (zip int_arrays series) with
            | Raise e => Raise e
            | Ok close =>
                if forallb id close then Ok (maybe_convert_objects int_arrays)
                else Ok series
            end
        end
      else if negb (isinstance_str first) then
        match np_int32_series np series with
        | Raise e => Raise e
        | Ok int_version =>
            match np_allclose_series np int_version series with
            | Raise e => Raise e
            | Ok true =>
                if (length int_version =? length series)%nat
                then Ok (map Scalar int_version)
                else Raise ValueError
            | Ok false => Ok series
            end
        end
      else Ok series
  end.

(** The column after the [try ... except] statement. *)
Definition settle (np : numpy) (series : column) : column :=
  match attempt np series with
  | Ok values => values
  | Raise _ => series
  end.

(** Whether the [except] clause ran for the column. *)
Definition failed (np : numpy) (series : column) : bool :=
  negb (is_ok (attempt np series)).

(** The fields the diagnostic names: those that failed, label fields left out. *)
Definition reported (np : numpy) (d : DataFrame) : list string :=
  List.filter (fun field => negb (is_label_field field))
    (map fst (List.filter (fun p => failed np (snd p)) (columns d))).

(** Sequential update of the columns named [names] by [G], in that order. *)
Fixpoint update_fields (G : column -> result column) (names : list string)
    (cols : list (string * column)) : result (list (string * column)) :=
  match names with
  | [] => Ok cols
  | c :: names' =>
      match assoc c cols with
      | None => Raise KeyError
      | Some v =>
          match G v with
          | Raise e => Raise e
          | Ok v' => update_fields G names' (assign c v' cols)
          end
      end
  end.

(** The same update, column by column. *)
Definition map_fields (P : string -> bool) (G : column -> result column)
    (cols : list (string * column)) : result (list (string * column)) :=
  comprehension
    (fun p => if P (fst p)
              then match G (snd p) with
                   | Ok v' => Ok (fst p, v')
                   | Raise e => Raise e
                   end
              else Ok p)
    cols.

Definition set_frame (r : ref) (d : DataFrame) (w : world) : world :=
  World (<[r := d]> (heap w)) (stdout w).

(** Every column has one value per row. *)
Definition lengths_ok (d : DataFrame) : Prop :=
  Forall (fun p => length (snd p) = length (index d)) (columns d).

(** A loop body that rewrites column [c] of the object [r] by [G], and
    nothing else. *)
Definition column_step (step : M unit) (r : ref) (c : string)
    (G : column -> result column) : Prop :=
  forall w d v,
    heap w !! r = Some d ->
    assoc c (columns d) = Some v ->
    length v = length (index d) ->
    step w =
    match G v with
    | Ok v' => (set_frame r (Frame (index d) (assign c v' (columns d))) w, Ok tt)
    | Raise e => (w, Raise e)
    end.

Definition keeps_length (G : column -> result column) : Prop :=
  forall v v', G v = Ok v' -> length v' = length v.

(** The columns after the loop of [clean_integer_fields]. *)
Definition settle_all (np : numpy) (cols : list (string * column))
  : list (string * column) :=
  map (fun p => (fst p, settle np (snd p))) cols.

(** The value of [bad_fields] after that loop. *)
Definition failed_fields (np : numpy) (cols : list (string * column)) : list string :=
  map fst (List.filter (fun p => failed np (snd p)) cols).

(** What the final [if bad_fields: print(...)] writes. *)
Definition diagnostic (bad_fields : list string) : list line :=
  match bad_fields with
  | [] => []
  | _ :: _ => [CouldNotConvert bad_fields]
  end.

(** ** The contracts, in the words of the specification *)

(** [y] is [x] minus one: exactly for a Python number, within the dtype for
    a numpy integer, whose least value wraps around to the greatest. *)
Inductive decremented : scalar -> scalar -> Prop :=
| decremented_int z : decremented (SInt z) (SInt (z - 1))
| decremented_float f : decremented (SFloat f) (SFloat (f - 1)%float)
| decremented_np_int t z : decremented (SNpInt t z) (SNpInt t (wrap t (z - 1)))
| decremented_np_float f : decremented (SNpFloat f) (SNpFloat (f - 1)%float).

(** A rebased cell: a plain number minus one; for an array without axes the
    scalar that is its element minus one; for an array with axes the array
    of the same shape with every element minus one. *)
Inductive rebased : cell -> cell -> Prop :=
| rebased_scalar x y :
    decremented x y -> rebased (Scalar x) (Scalar y)
| rebased_0d x y :
    decremented x y -> rebased (Array (NdArray [] [x])) (Scalar y)
| rebased_array a b :
    ndim a <> 0%nat ->
    shape b = shape a ->
    Forall2 decremented (data a) (data b) ->
    rebased (Array a) (Array b).

(** A cell holding numbers only: a number, or a numpy array of numbers. *)
Definition numeric (c : cell) : bool :=
  match c with
  | Scalar x => is_number x
  | Array a => forallb is_number (data a)
  | PyList _ => false
  end.

(** The values a cell holds, in order. *)
Definition elements (c : cell) : list scalar :=
  match c with
  | Scalar x => [x]
  | Array a => data a
  | PyList xs => xs
  end.

(** The integer a value is, if it is one. *)
Definition held_integer (x : scalar) : list Z :=
  match x with
  | SInt z | SNpInt _ z => [z]
  | SFloat _ | SStr _ | SNpFloat _ => []
  end.

(** The integers a cell holds, in order. *)
Definition integers (c : cell) : list Z := flat_map held_integer (elements c).

(** A cell holding integers only. *)
Definition integral (c : cell) : bool := forallb is_integer (elements c).

(** A numpy integer that is a value of its dtype, at least [k] above the
    least one; a Python number always has room. *)
Definition headroom (k : Z) (x : scalar) : bool :=
  match x with
  | SNpInt t z => (dtype_min t + k <=? z)%Z && (z <=? dtype_max t)%Z
  | _ => true
  end.

Definition cell_headroom (k : Z) (c : cell) : bool :=
  forallb (headroom k) (elements c).

(** Every integer of [c'] is the integer of [c] at the same place, minus
    [k]. *)
Definition shifted (k : Z) (c c' : cell) : Prop :=
  integers c' = map (fun z => z - k) (integers c).

(** A cell that has [ndim]: a numpy array or a numpy scalar. *)
Definition has_ndim (c : cell) : bool :=
  match c with
  | Scalar x => is_np_scalar x
  | Array _ => true
  | PyList _ => false
  end.

(** A repaired spike cell: a 2-D array as it was, any other array as one row
    of all its elements, a numpy scalar as the array holding it. *)
Inductive repaired : cell -> cell -> Prop :=
| repaired_kept a :
    ndim a = 2%nat -> repaired (Array a) (Array a)
| repaired_row a b :
    ndim a <> 2%nat ->
    shape b = [1%nat; length (data a)] ->
    data b = data a ->
    repaired (Array a) (Array b)
| repaired_scalar x b :
    is_np_scalar x = true ->
    shape b = [1%nat; 1%nat] ->
    data b = [x] ->
    repaired (Scalar x) (Array b).

Definition is_2d_array (c : cell) : bool :=
  match c with
  | Array a => (ndim a =? 2)%nat
  | Scalar _ | PyList _ => false
  end.

Definition is_0d_array (c : cell) : bool :=
  match c with
  | Array a => (ndim a =? 0)%nat
  | Scalar _ | PyList _ => false
  end.

(** The scalar a 0-D array wraps, as the Python object [item()] returns. *)
Inductive unwrapped : cell -> cell -> Prop :=
| unwrapped_0d x : unwrapped (Array (NdArray [] [x])) (Scalar (to_python x)).

(** A Python number or string: a cell without [ndim] that is not a list. *)
Definition is_python_scalar (c : cell) : bool :=
  match c with
  | Scalar x => negb (is_np_scalar x)
  | Array _ | PyList _ => false
  end.

(** For an array column: [int_arrays] is the column pandas makes of the
    casts of the cells, and every cast is close to the cell it came from. *)
Definition arrays_cast_close (np : numpy) (series int_arrays : column) : Prop :=
  exists casts,
    Forall2 (fun arr int_arr => np_int32 np arr = Ok int_arr) series casts /\
    Forall2 (fun int_arr arr => np_allclose np int_arr arr = Ok true) casts series /\
    int_arrays = maybe_convert_objects casts.

(** For a column of numbers: [int_version] is the cast of the column, with one
    value per row, and is close to the column. *)
Definition column_cast_close (np : numpy) (series : column) (int_version : list scalar) : Prop :=
  np_int32_series np series = Ok int_version /\
  length int_version = length series /\
  np_allclose_series np int_version series = Ok true.

(** The cast attempt or the closeness check of a column raises. *)
Inductive cast_or_check_raises (np : numpy) (series : column) : Prop :=
| array_cast_raises first arr e :
    values_0 series = Ok first -> isinstance_ndarray first = true ->
    In arr series -> np_int32 np arr = Raise e ->
    cast_or_check_raises np series
| array_check_raises first int_arrays int_arr arr e :
    values_0 series = Ok first -> isinstance_ndarray first = true ->
    Forall2 (fun a ia => np_int32 np a = Ok ia) series int_arrays ->
    In (int_arr, arr) (zip int_arrays series) ->
    np_allclose np int_arr arr = Raise e ->
    cast_or_check_raises np series
| column_cast_raises first e :
    values_0 series = Ok first ->
    isinstance_ndarray first = false -> isinstance_str first = false ->
    np_int32_series np series = Raise e ->
    cast_or_check_raises np series
| column_check_raises first int_version e :
    values_0 series = Ok first ->
    isinstance_ndarray first = false -> isinstance_str first = false ->
    np_int32_series np series = Ok int_version ->
    np_allclose_series np int_version series = Raise e ->
    cast_or_check_raises np series.

(** The four transforms of the module. *)
Definition transforms (np : numpy) : list (ref -> M ref) :=
  [ backshift_idx_fields; clean_0d_array_fields; clean_0d_spike_fields;
    clean_integer_fields np ].

(** A program that writes to no object of the store but [r]. *)
Definition writes_only {A} (r : ref) (m : M A) : Prop :=
  forall w,
    (forall l, l <> r -> heap (fst (m w)) !! l = heap w !! l) /\
    (is_Some (heap w !! r) -> is_Some (heap (fst (m w)) !! r)).

(** A program whose value, when it returns one, is [r]. *)
Definition returns_ref (r : ref) (m : M ref) : Prop :=
  forall w w' x, m w = (w', Ok x) -> x = r.

(** ** The numpy laws idempotence rests on *)





(** ** A reference numpy *)

(** An executable instance of the interface, on binary64 floats: conversion
    to [int32] the way numpy does it for each kind of operand, and the
    documented [allclose] formula [|a - b| <= atol + rtol * |b|] with
    [rtol = 1e-5], [atol = 1e-8]. *)
Module NumpyRef.

Definition INT32_MIN : Z := - 2 ^ 31.
Definition INT32_MAX : Z := 2 ^ 31 - 1.

Definition in_int32 (z : Z) : bool := (INT32_MIN <=? z)%Z && (z <=? INT32_MAX)%Z.

(** Conversion of an integer to [int32] keeps the low 32 bits. *)
Definition wrap32 (z : Z) : Z := (z + 2 ^ 31) mod 2 ^ 32 - 2 ^ 31.

(** The integer part of a finite float. *)
Definition truncate (f : float) : option Z :=
  match Prim2SF f with
  | S754_zero _ => Some 0
  | S754_finite s m e =>
      let magnitude := if (0 <=? e)%Z then Z.shiftl (Zpos m) e
                       else Z.shiftr (Zpos m) (- e) in
      Some (if s then - magnitude else magnitude)
  | S754_infinity _ => None
  | S754_nan => None
  end.

(** Conversion of a float to [int32] truncates toward zero; a value that has
    no [int32] (out of range, infinite, NaN) converts to [INT32_MIN]. *)
Definition float_to_int32 (f : float) : Z :=
  match truncate f with
  | Some z => if in_int32 z then z else INT32_MIN
  | None => INT32_MIN
  end.

(** Conversion of the number of a typed array or numeric column, as
    [astype(np.int32)] does it: it never raises. *)
Definition cast_number (x : scalar) : result Z :=
  match x with
  | SInt z | SNpInt _ z => Ok (wrap32 z)
  | SFloat f | SNpFloat f => Ok (float_to_int32 f)
  | SStr _ => Raise ValueError
  end.

(** Conversion of a Python [int]: one out of range raises. *)
Definition int_to_int32 (z : Z) : result Z :=
  if in_int32 z then Ok z else Raise OverflowError.

(** Conversion of an object.  A Python [float] goes through [int(x)], which
    raises on NaN and on the infinities, and a Python [int] must be in
    range; a numpy number is converted as in an array.  (A string is taken
    not to spell a number.) *)
Definition cast_object (x : scalar) : result Z :=
  match x with
  | SInt z => int_to_int32 z
  | SFloat f =>
      match Prim2SF f with
      | S754_nan => Raise ValueError
      | S754_infinity _ => Raise OverflowError
      | _ =>
          match truncate f with
          | Some z => int_to_int32 z
          | None => Raise OverflowError
          end
      end
  | SStr _ => Raise ValueError
  | SNpInt _ _ | SNpFloat _ => cast_number x
  end.

(** The [int32] number a conversion gives. *)
Definition as_int32 (r : result Z) : result scalar :=
  match r with
  | Ok z => Ok (SNpInt Int32 z)
  | Raise e => Raise e
  end.

(** [np.int32(x)] on one value: a Python object, a numpy scalar, or the
    element of an array (of a numeric dtype or of dtype [object]). *)
Definition cast (x : scalar) : result scalar := as_int32 (cast_object x).

Definition to_float (x : scalar) : result float :=
  match x with
  | SInt z | SNpInt _ z => Ok (float_of_Z z)
  | SFloat f | SNpFloat f => Ok f
  | SStr _ => Raise TypeError
  end.

Definition rtol : float := 1e-5%float.
Definition atol : float := 1e-8%float.

(** [np.isclose] on two floats. *)
Definition isclose (a b : float) : bool :=
  if is_finite a && is_finite b
  then (abs (a - b) <=? atol + rtol * abs b)%float
  else (a =? b)%float.

Definition isclose_scalar (p : scalar * scalar) : result bool :=
  match to_float (fst p), to_float (snd p) with
  | Ok a, Ok b => Ok (isclose a b)
  | Raise e, _ => Raise e
  | _, Raise e => Raise e
  end.

Definition allclose_elements (xs ys : list scalar) : result bool :=
  if (length xs =? length ys)%nat then
    match comprehension isclose_scalar (zip xs ys) with
    | Ok close => Ok (forallb id close)
    | Raise e => Raise e
    end
  else Raise ValueError.

(** [np.int32(x)]: a number gives a number, an array an array of the same
    shape, a list a one-dimensional array; an array without axes gives a
    number. *)
Definition int32 (c : cell) : result cell :=
  match c with
  | Scalar x =>
      match cast x with
      | Ok y => Ok (Scalar y)
      | Raise e => Raise e
      end
  | Array a =>
      match comprehension cast (data a) with
      | Raise e => Raise e
      | Ok ys =>
          match shape a, ys with
          | [], [y] => Ok (Scalar y)
          | [], _ => Raise ValueError
          | _ :: _, _ => Ok (Array (NdArray (shape a) ys))
          end
      end
  | PyList xs =>
      match comprehension (fun x => as_int32 (cast_number x)) xs with
      | Raise e => Raise e
      | Ok ys => Ok (Array (NdArray [length xs] ys))
      end
  end.

(** The numbers [np.allclose] compares for an operand; it has no comparison
    for strings, nor for the Python objects of an array of dtype [object]. *)
Definition operand (c : cell) : result (list scalar) :=
  match c with
  | Scalar x => if is_number x then Ok [x] else Raise TypeError
  | Array a => if forallb is_np_scalar (data a) then Ok (data a) else Raise TypeError
  | PyList xs => if forallb is_number xs then Ok xs else Raise TypeError
  end.

(** [np.allclose(a, b)] for operands of one common size. *)
Definition allclose (a b : cell) : result bool :=
  match operand a, operand b with
  | Ok xs, Ok ys => allclose_elements xs ys
  | Raise e, _ => Raise e
  | _, Raise e => Raise e
  end.

Definition is_python_number (c : cell) : bool :=
  match c with
  | Scalar (SInt _) | Scalar (SFloat _) => true
  | _ => false
  end.

Definition is_float_cell (c : cell) : bool :=
  match c with
  | Scalar (SFloat _) => true
  | _ => false
  end.

(** A column of a numeric dtype: Python numbers, all of them integers with
    a common 64-bit dtype or all of them floats. *)
Definition numeric_column (series : column) : bool :=
  forallb is_python_number series && ints_fit series &&
  (forallb is_integer_cell series || forallb is_float_cell series).

Definition number_of (c : cell) : result scalar :=
  match c with
  | Scalar x => Ok x
  | Array _ | PyList _ => Raise ValueError
  end.

(** The numbers of an [int32] array, as a column yields them. *)
Definition as_python (r : result Z) : result scalar :=
  match r with
  | Ok z => Ok (SInt z)
  | Raise e => Raise e
  end.

(** [np.int32(series)]: the numbers of a numeric column are converted as
    those of an array; in a column of dtype [object] every value must be a
    number and is converted as an object. *)
Definition int32_series (series : column) : result (list scalar) :=
  if numeric_column series then
    comprehension
      (fun c => match number_of c with
                | Ok x => as_python (cast_number x)
                | Raise e => Raise e
                end)
      series
  else
    comprehension
      (fun c => match number_of c with
                | Ok x => as_python (cast_object x)
                | Raise e => Raise e
                end)
      series.

(** [np.allclose(int_version, series)]: a column of dtype [object] has no
    comparison. *)
Definition allclose_series (int_version : list scalar) (series : column) : result bool :=
  if numeric_column series then
    match comprehension number_of series with
    | Ok xs => allclose_elements int_version xs
    | Raise _ => Raise TypeError
    end
  else Raise TypeError.

Definition np : numpy := Numpy int32 allclose int32_series allclose_series.





End NumpyRef.

(** ** A sample table *)

Module Sample.

Definition floats (xs : list float) : column := map (fun f => Scalar (SFloat f)) xs.
Definition ints (xs : list Z) : column := map (fun z => Scalar (SInt z)) xs.
Definition strs (xs : list string) : column := map (fun s => Scalar (SStr s)) xs.
Definition arr (sh : list nat) (xs : list scalar) : cell := Array (NdArray sh xs).

(** The elements of arrays of dtype [int64] and [float64]. *)
Definition i64 (z : Z) : scalar := SNpInt Int64 z.
Definition f64 (f : float) : scalar := SNpFloat f.

Definition trial_data : DataFrame :=
  Frame [0; 1; 2]
    [ ("idx_start", ints [5; 10; 1]);
      ("idx_events", [arr [2%nat] [i64 3; i64 7]; arr [1%nat] [i64 4]; arr [0%nat] []]);
      ("m1_spikes", [arr [] [f64 7]; arr [2%nat; 2%nat] [i64 1; i64 2; i64 3; i64 4];
                     arr [3%nat] [f64 0; f64 1; f64 0]]);
      ("bin_size", [arr [] [f64 0.01]; arr [] [f64 0.01]; arr [] [f64 0.01]]);
      ("trial_id", floats [1; 2; 3]%float);
      ("speed", floats [1; 2.5; 3]%float);
      ("monkey", strs ["Chewie"; "Chewie"; "Mihili"]);
      ("target_label", [Scalar (SFloat 1); Scalar (SStr "left"); Scalar (SFloat 2)]);
      ("pos", [arr [2%nat] [f64 1; f64 2]; arr [2%nat] [f64 3; f64 4];
               arr [2%nat] [f64 0.5; f64 4]]);
      ("counts", [arr [2%nat] [f64 1; f64 2]; arr [2%nat] [f64 3; f64 4];
                  arr [1%nat] [f64 5]]);
      ("ragged", [Scalar (SFloat 1); arr [2%nat] [f64 3; f64 4]; Scalar (SFloat 2)]) ].

Definition caller : ref := 1%positive.

Definition world0 : world := World {[ caller := trial_data ]} [].

(** A table without rows whose only column is a label field. *)
Definition no_trials : DataFrame := Frame [] [("target_label", [])].

Definition world1 : world := World {[ caller := no_trials ]} [].

(** A table without rows and two columns. *)
Definition no_trials2 : DataFrame := Frame [] [("target_label", []); ("vel", [])].

Definition world2 : world := World {[ caller := no_trials2 ]} [].

End Sample.

(** ** Running transforms one after another *)

(** [tn(...t2(t1(df)))]: each transform receives the table the one before it
    returned; the first exception ends the run. *)
Fixpoint pipeline (ts : list (ref -> M ref)) (df : ref) : M ref :=
  match ts with
  | [] => ret df
  | t :: ts' => df' <- t df ;; pipeline ts' df'
  end.

(** A program that prints nothing. *)
Definition silent {A} (m : M A) : Prop :=
  forall w, stdout (fst (m w)) = stdout w.

(** A numpy number of a signed dtype or a [float64]: one that fits a column
    of dtype [int64] or [float64] whatever its value. *)
Definition is_signed_number (x : scalar) : bool :=
  match x with
  | SNpInt t _ => is_signed t
  | SNpFloat _ => true
  | SInt _ | SFloat _ | SStr _ => false
  end.

(** A 0-D array of such a number. *)
Definition is_0d_signed (c : cell) : bool :=
  match c with
  | Array a => (ndim a =? 0)%nat && forallb is_signed_number (data a)
  | Scalar _ | PyList _ => false
  end.

(** The array of one row and one column holding the element of a 0-D array
    minus one. *)
Inductive rebased_row : cell -> cell -> Prop :=
| rebased_row_0d x y :
    decremented x y ->
    rebased_row (Array (NdArray [] [x])) (Array (NdArray [1%nat; 1%nat] [y])).

(** More sample tables. *)
Module Cases.

(** Spike counts of trials with a single time bin, stored as 0-D arrays. *)
Definition one_bin : DataFrame :=
  Frame [0; 1]
    [ ("m1_spikes", [Sample.arr [] [Sample.f64 3]; Sample.arr [] [Sample.f64 0]]);
      ("monkey", Sample.strs ["Chewie"; "Chewie"]) ].

Definition world_one_bin : world := World {[ Sample.caller := one_bin ]} [].

(** A label field holding whole numbers stored as floats. *)
Definition labelled : DataFrame :=
  Frame [0; 1; 2] [ ("target_label", Sample.floats [1; 2; 3]%float) ].

Definition world_labelled : world := World {[ Sample.caller := labelled ]} [].

(** An index field holding an array of dtype [uint8] with a zero in it. *)
Definition unsigned : DataFrame :=
  Frame [0] [ ("idx_on", [Sample.arr [2%nat] [SNpInt UInt8 0; SNpInt UInt8 5]]) ].

Definition world_unsigned : world := World {[ Sample.caller := unsigned ]} [].

(** A spike field of dtype [object] holding numpy scalars. *)
Definition np_scalars : DataFrame :=
  Frame [0; 1]
    [ ("m1_spikes", [Scalar (SNpInt Int32 7); Scalar (SNpFloat 2.5)]) ].

Definition world_np_scalars : world := World {[ Sample.caller := np_scalars ]} [].

(** A column of 0-D arrays of different dtypes. *)
Definition mixed_0d : DataFrame :=
  Frame [0; 1; 2]
    [ ("gain", [Sample.arr [] [Sample.f64 1.5]; Sample.arr [] [Sample.i64 2];
                Sample.arr [] [Sample.i64 (-3)]]) ].

Definition world_mixed_0d : world := World {[ Sample.caller := mixed_0d ]} [].

(** A column that is an index field and a spike field at once, holding 0-D
    arrays. *)
Definition idx_spikes : DataFrame :=
  Frame [0; 1]
    [ ("idx_spikes", [Sample.arr [] [Sample.i64 3]; Sample.arr [] [Sample.i64 5]]) ].

Definition world_idx_spikes : world := World {[ Sample.caller := idx_spikes ]} [].

(** An index field holding a Python list and one holding a string. *)
Definition sequences : DataFrame :=
  Frame [0]
    [ ("idx_list", [PyList [SInt 3; SInt 7]]);
      ("idx_name", [Scalar (SStr "go")]) ].

Definition world_sequences : world := World {[ Sample.caller := sequences ]} [].

End Cases.

(** * Properties *)

(** ** Comprehensions *)

Lemma comprehension_Forall2 {A B} (f : A -> result B) xs ys :
  comprehension f xs = Ok ys <-> Forall2 (fun x y => f x = Ok y) xs ys.
Proof.
  revert ys. induction xs as [|x xs IH]; intros ys; simpl.
  - split.
    + intros [= <-]. constructor.
    + intros H. inversion H. reflexivity.
  - destruct (f x) as [y|e] eqn:Hx.
    + destruct (comprehension f xs) as [ys'|e] eqn:Hxs.
      * split.
        -- intros [= <-]. constructor; [assumption | now apply IH].
        -- intros H. inversion H as [|? y0 ? ys0 Hy Hys]; subst.
           apply IH in Hys. congruence.
      * split; [discriminate |].
        intros H. inversion H as [|? y0 ? ys0 Hy Hys]; subst.
        apply IH in Hys. discriminate.
    + split; [discriminate |].
      intros H. inversion H; subst. congruence.
Qed.

Lemma comprehension_length {A B} (f : A -> result B) xs ys :
  comprehension f xs = Ok ys -> length ys = length xs.
Proof.
  intros H. apply comprehension_Forall2 in H.
  symmetry. eapply Forall2_length. exact H.
Qed.

Lemma comprehension_raises {A B} (f : A -> result B) xs x e :
  In x xs -> f x = Raise e -> exists e', comprehension f xs = Raise e'.
Proof.
  induction xs as [|y xs IH]; simpl; [tauto |].
  intros [->|Hin] Hx.
  - rewrite Hx. eauto.
  - destruct (f y); [| eauto].
    destruct (IH Hin Hx) as [e' ->]. eauto.
Qed.

Lemma comprehension_ok_all {A B} (f : A -> result B) xs :
  (forall x, In x xs -> exists y, f x = Ok y) ->
  exists ys, comprehension f xs = Ok ys.
Proof.
  induction xs as [|x xs IH]; simpl; intros H; [eauto |].
  destruct (H x) as [y ->]; [now left |].
  destruct IH as [ys ->]; eauto.
Qed.

(** ** Fixed-width integers *)

Lemma dtype_width t :
  dtype_min t <= dtype_max t /\ 2 ^ bits t = dtype_max t - dtype_min t + 1.
Proof. destruct t; split; now vm_compute. Qed.

Lemma wrap_fits t z : dtype_min t <= z <= dtype_max t -> wrap t z = z.
Proof.
  intros H. unfold wrap. destruct (dtype_width t) as [_ Hw].
  rewrite Z.mod_small; lia.
Qed.

Lemma wrap_range t z : dtype_min t <= wrap t z <= dtype_max t.
Proof.
  unfold wrap. destruct (dtype_width t) as [Hle Hw].
  pose proof (Z.mod_pos_bound (z - dtype_min t) (2 ^ bits t)) as H.
  lia.
Qed.

Lemma signed_within_int64 t :
  is_signed t = true -> INT64_MIN <= dtype_min t /\ dtype_max t <= INT64_MAX.
Proof. destruct t; try discriminate; intros _; split; now vm_compute. Qed.

(** ** The dtype inference of pandas *)

Lemma maybe_convert_objects_cases values :
  maybe_convert_objects values = values \/
  (forallb is_number_cell values = true /\
   forallb is_integer_cell values = true /\
   ints_fit values = true /\
   maybe_convert_objects values = map python_int values) \/
  (forallb is_number_cell values = true /\
   forallb is_integer_cell values = false /\
   ints_fit values = true /\
   maybe_convert_objects values = map python_float values).
Proof.
  unfold maybe_convert_objects.
  destruct (forallb is_number_cell values); simpl; [| now left].
  destruct (ints_fit values); [| now left].
  destruct (forallb is_integer_cell values); right; [left | right]; auto.
Qed.

Lemma maybe_convert_objects_length values :
  length (maybe_convert_objects values) = length values.
Proof.
  destruct (maybe_convert_objects_cases values) as [->|[[_ [_ [_ ->]]]|[_ [_ [_ ->]]]]];
    [reflexivity | apply length_map ..].
Qed.

(** A list holding something that is no number is stored as it is. *)
Lemma maybe_convert_objects_objects values :
  forallb is_number_cell values = false -> maybe_convert_objects values = values.
Proof. intros H. unfold maybe_convert_objects. now rewrite H. Qed.

Lemma maybe_convert_objects_no_numbers values :
  Forall (fun c => is_number_cell c = false) values ->
  maybe_convert_objects values = values.
Proof.
  intros [|c cs Hc _]; [reflexivity |].
  apply maybe_convert_objects_objects. simpl. now rewrite Hc.
Qed.

(** What holds of every value assigned, and is kept by the conversion to a
    Python number, holds of every value stored. *)
Lemma maybe_convert_objects_Forall (P : cell -> Prop) values :
  (forall c, is_integer_cell c = true -> P c -> P (python_int c)) ->
  (forall c, is_number_cell c = true -> P c -> P (python_float c)) ->
  Forall P values -> Forall P (maybe_convert_objects values).
Proof.
  intros Hint Hfloat Hall.
  assert (Hmap : forall (f : cell -> cell) (p : cell -> bool),
             (forall c, p c = true -> P c -> P (f c)) ->
             forallb p values = true ->
             Forall P (map f values)).
  { intros f p Hf Hp. rewrite forallb_forall in Hp.
    apply List.Forall_forall. intros c' Hin.
    apply in_map_iff in Hin. destruct Hin as [c [<- Hc]].
    rewrite List.Forall_forall in Hall. apply Hf; auto. }
  destruct (maybe_convert_objects_cases values)
    as [->|[[_ [Hnum [_ ->]]]|[Hnum [_ [_ ->]]]]]; [assumption | |].
  - now apply (Hmap python_int is_integer_cell).
  - now apply (Hmap python_float is_number_cell).
Qed.

Lemma python_int_scalar c :
  is_integer_cell c = true -> is_python_scalar (python_int c) = true.
Proof. destruct c as [[]| |]; simpl; try discriminate; reflexivity. Qed.

Lemma python_float_scalar c :
  is_number_cell c = true -> is_python_scalar (python_float c) = true.
Proof. destruct c as [[]| |]; simpl; try discriminate; reflexivity. Qed.

Lemma python_scalar_no_ndarray c :
  is_python_scalar c = true -> isinstance_ndarray c = false.
Proof. now destruct c. Qed.



(** ** Names and columns *)

Lemma mem_In x xs : mem x xs = true <-> In x xs.
Proof.
  induction xs as [|y xs IH]; simpl; [split; [discriminate | tauto] |].
  rewrite orb_true_iff, String.eqb_eq, IH. tauto.
Qed.

Lemma distinct_NoDup xs : distinct xs = true <-> List.NoDup xs.
Proof.
  induction xs as [|x xs IH]; simpl.
  - split; [constructor | reflexivity].
  - rewrite andb_true_iff, negb_true_iff, IH. split.
    + intros [Hx Hxs]. constructor; [| assumption].
      intros Hin%mem_In. congruence.
    + intros H. inversion H as [|? ? Hx Hxs]; subst. split; [| assumption].
      destruct (mem x xs) eqn:E; [| reflexivity].
      apply mem_In in E. contradiction.
Qed.

Lemma assoc_In c cols v : assoc c cols = Some v -> In (c, v) cols.
Proof.
  induction cols as [|[n x] cols IH]; simpl; [discriminate |].
  destruct (String.eqb n c) eqn:E.
  - apply String.eqb_eq in E. intros [= ->]. left. now subst.
  - intros H. right. now apply IH.
Qed.

Lemma assoc_None c cols : assoc c cols = None <-> ~ In c (map fst cols).
Proof.
  induction cols as [|[n x] cols IH]; simpl; [tauto |].
  destruct (String.eqb n c) eqn:E.
  - apply String.eqb_eq in E. split; [discriminate | intros H; exfalso; auto].
  - apply String.eqb_neq in E. rewrite IH. tauto.
Qed.

Lemma In_assoc c v cols :
  List.NoDup (map fst cols) -> In (c, v) cols -> assoc c cols = Some v.
Proof.
  induction cols as [|[n x] cols IH]; simpl; [tauto |].
  intros Hnd Hin. inversion Hnd as [|? ? Hn Hnd']; subst.
  destruct Hin as [[= -> ->]|Hin].
  - now rewrite String.eqb_refl.
  - destruct (String.eqb n c) eqn:E; [| now apply IH].
    apply String.eqb_eq in E. subst. exfalso. apply Hn.
    apply in_map_iff. exists (c, v). now split.
Qed.

Lemma names_assign c v v' cols :
  assoc c cols = Some v -> map fst (assign c v' cols) = map fst cols.
Proof.
  induction cols as [|[n x] cols IH]; simpl; [discriminate |].
  destruct (String.eqb n c) eqn:E; simpl; [reflexivity |].
  intros H. now rewrite IH.
Qed.

Lemma assign_same c v cols : assoc c cols = Some v -> assign c v cols = cols.
Proof.
  induction cols as [|[n x] cols IH]; simpl; [discriminate |].
  destruct (String.eqb n c) eqn:E.
  - now intros [= ->].
  - intros H. now rewrite IH.
Qed.

Lemma well_formed_spec d :
  well_formed d = true <-> List.NoDup (map fst (columns d)) /\ lengths_ok d.
Proof.
  unfold well_formed, lengths_ok.
  rewrite andb_true_iff, distinct_NoDup, forallb_forall, List.Forall_forall.
  split; intros [H1 H2]; (split; [assumption |]); intros p Hp.
  - now apply Nat.eqb_eq, H2.
  - now apply Nat.eqb_eq, H2.
Qed.

Lemma lengths_ok_assoc d c v :
  lengths_ok d -> assoc c (columns d) = Some v -> length v = length (index d).
Proof.
  unfold lengths_ok. rewrite List.Forall_forall.
  intros H Hc%assoc_In. exact (H _ Hc).
Qed.

Lemma lengths_ok_assign d c v :
  lengths_ok d -> length v = length (index d) ->
  lengths_ok (Frame (index d) (assign c v (columns d))).
Proof.
  unfold lengths_ok. simpl. intros H Hv.
  induction (columns d) as [|[n x] cols IH]; simpl.
  - constructor; [assumption | constructor].
  - inversion H as [|? ? Hx Hcols]; subst.
    destruct (String.eqb n c); constructor; auto.
Qed.

(** ** Sequential update equals the column-by-column map *)

Lemma update_fields_skip G names n x cols :
  ~ In n names ->
  update_fields G names ((n, x) :: cols) =
  match update_fields G names cols with
  | Ok cols' => Ok ((n, x) :: cols')
  | Raise e => Raise e
  end.
Proof.
  revert cols. induction names as [|c names IH]; intros cols Hn; simpl; [reflexivity |].
  assert (Hne : n <> c) by (intros ->; apply Hn; now left).
  assert (Hn' : ~ In n names) by (intros H; apply Hn; now right).
  pose proof Hne as E. apply String.eqb_neq in E. rewrite E.
  destruct (assoc c cols) as [v|]; [| reflexivity].
  destruct (G v) as [v'|e]; [| reflexivity].
  now apply IH.
Qed.

Lemma filter_names_notin (P : string -> bool) n names :
  ~ In n names -> ~ In n (List.filter P names).
Proof. intros H Hin. apply List.filter_In in Hin. tauto. Qed.

Lemma update_fields_map_fields P G cols :
  List.NoDup (map fst cols) ->
  update_fields G (List.filter P (map fst cols)) cols = map_fields P G cols.
Proof.
  unfold map_fields.
  induction cols as [|[n x] cols IH]; intros Hnd; simpl; [reflexivity |].
  inversion Hnd as [|? ? Hn Hnd']; subst.
  destruct (P n) eqn:HP; simpl.
  - rewrite (String.eqb_refl n).
    destruct (G x) as [x'|e]; [| reflexivity].
    rewrite update_fields_skip by now apply filter_names_notin.
    now rewrite IH.
  - rewrite update_fields_skip by now apply filter_names_notin.
    now rewrite IH.
Qed.

Lemma filter_all {A} (xs : list A) : List.filter (fun _ => true) xs = xs.
Proof. induction xs as [|x xs IH]; simpl; [reflexivity | now rewrite IH]. Qed.

Lemma map_fields_names P G cols cols' :
  map_fields P G cols = Ok cols' -> map fst cols' = map fst cols.
Proof.
  unfold map_fields. intros H%comprehension_Forall2.
  induction H as [|p p' cols cols' Hp _ IH]; simpl; [reflexivity |].
  rewrite IH. f_equal.
  destruct (P (fst p)); [| now inversion Hp].
  destruct (G (snd p)); now inversion Hp.
Qed.

Lemma map_fields_assoc P G cols cols' c v :
  map_fields P G cols = Ok cols' -> assoc c cols = Some v ->
  exists v', assoc c cols' = Some v' /\
             if P c then G v = Ok v' else v' = v.
Proof.
  unfold map_fields. intros H%comprehension_Forall2. revert v.
  induction H as [|[n x] [n' x'] cols cols' Hp _ IH]; simpl; intros v; [discriminate |].
  simpl in Hp.
  assert (Hn : n' = n).
  { destruct (P n); [destruct (G x) |]; now inversion Hp. }
  subst n'. destruct (String.eqb n c) eqn:E; [| apply IH].
  apply String.eqb_eq in E. subst c. intros [= <-].
  exists x'. split; [reflexivity |].
  destruct (P n); [destruct (G x) |]; now inversion Hp.
Qed.

Lemma map_fields_ok P G cols :
  (forall c v, In (c, v) cols -> P c = true -> exists v', G v = Ok v') ->
  exists cols', map_fields P G cols = Ok cols'.
Proof.
  intros H. apply comprehension_ok_all. intros [c v] Hin. simpl.
  destruct (P c) eqn:HP; [| eauto].
  destruct (H c v Hin HP) as [v' ->]. eauto.
Qed.

(** ** Running programs on one object of the store *)

Lemma set_frame_same r d w :
  heap w !! r = Some d -> set_frame r (Frame (index d) (columns d)) w = w.
Proof.
  destruct w as [h out], d as [idx cols]. unfold set_frame. simpl.
  intros H. f_equal. now apply insert_id.
Qed.

Lemma set_frame_twice r d1 d2 w :
  set_frame r d2 (set_frame r d1 w) = set_frame r d2 w.
Proof. unfold set_frame. simpl. f_equal. apply insert_insert_eq. Qed.

Lemma heap_set_frame r d w : heap (set_frame r d w) !! r = Some d.
Proof. unfold set_frame. simpl. apply lookup_insert_eq. Qed.

Lemma run_getitem r c w d :
  heap w !! r = Some d ->
  getitem r c w =
  match assoc c (columns d) with
  | Some v => (w, Ok v)
  | None => (w, Raise KeyError)
  end.
Proof.
  intros H. unfold getitem, bind, deref. rewrite H.
  now destruct (assoc c (columns d)).
Qed.

Lemma run_setitem r c values w d :
  heap w !! r = Some d ->
  setitem r c values w =
  if (length values =? length (index d))%nat
  then (set_frame r (Frame (index d)
                       (assign c (maybe_convert_objects values) (columns d))) w,
        Ok tt)
  else (w, Raise ValueError).
Proof.
  intros H. unfold setitem, bind, deref. rewrite H.
  now destruct (length values =? length (index d))%nat.
Qed.

Lemma run_setitem_array r c arr w d :
  heap w !! r = Some d ->
  setitem_array r c arr w =
  if (length arr =? length (index d))%nat
  then (set_frame r (Frame (index d) (assign c (map Scalar arr) (columns d))) w,
        Ok tt)
  else (w, Raise ValueError).
Proof.
  intros H. unfold setitem_array, bind, deref. rewrite H.
  now destruct (length arr =? length (index d))%nat.
Qed.

Lemma run_df_columns r w d :
  heap w !! r = Some d -> df_columns r w = (w, Ok (map fst (columns d))).
Proof. intros H. unfold df_columns, bind, deref. now rewrite H. Qed.

Lemma for_each_fields (step : string -> M unit) G r :
  (forall c, column_step (step c) r c G) ->
  keeps_length G ->
  forall names w d,
    heap w !! r = Some d ->
    lengths_ok d ->
    (forall c, In c names -> In c (map fst (columns d))) ->
    exists d_last,
      for_each names step w =
      match update_fields G names (columns d) with
      | Ok cols' => (set_frame r (Frame (index d) cols') w, Ok tt)
      | Raise e => (set_frame r d_last w, Raise e)
      end.
Proof.
  intros Hstep Hlen names.
  induction names as [|c names IH]; intros w d Hw Hok Hin; simpl.
  - exists d. unfold ret. now rewrite set_frame_same.
  - destruct (assoc c (columns d)) as [v|] eqn:Hc.
    2: { exfalso. apply assoc_None in Hc. apply Hc, Hin. now left. }
    pose proof (lengths_ok_assoc _ _ _ Hok Hc) as Hv.
    unfold bind. rewrite (Hstep c w d v Hw Hc Hv).
    destruct (G v) as [v'|e] eqn:HG.
    2: { exists d. rewrite <- (set_frame_same r d w Hw) at 1.
         destruct d; reflexivity. }
    set (d1 := Frame (index d) (assign c v' (columns d))).
    assert (Hv' : length v' = length (index d)) by (rewrite <- Hv; eauto).
    destruct (IH (set_frame r d1 w) d1) as [d_last Hrun].
    + apply heap_set_frame.
    + now apply lengths_ok_assign.
    + intros c' Hc'. simpl. rewrite (names_assign _ _ _ _ Hc).
      apply Hin. now right.
    + exists d_last. rewrite Hrun. simpl.
      destruct (update_fields G names (assign c v' (columns d)));
        now rewrite set_frame_twice.
Qed.

(** ** The loop bodies, one column at a time *)

Lemma per_cell_spec g v v' :
  per_cell g v = Ok v' <->
  exists values,
    Forall2 (fun c c' => g c = Ok c') v values /\
    v' = maybe_convert_objects values.
Proof.
  unfold per_cell. destruct (comprehension g v) as [values|e] eqn:Hg.
  - apply comprehension_Forall2 in Hg. split.
    + intros [= <-]. eauto.
    + intros [values' [Hg' ->]]. apply comprehension_Forall2 in Hg, Hg'.
      congruence.
  - split; [discriminate |].
    intros [values [Hg' _]]. apply comprehension_Forall2 in Hg'. congruence.
Qed.

Lemma per_cell_keeps_length g : keeps_length (per_cell g).
Proof.
  intros v v' H. apply per_cell_spec in H. destruct H as [values [Hg ->]].
  rewrite maybe_convert_objects_length. symmetry.
  eapply Forall2_length. exact Hg.
Qed.

(** A per-cell expression that never gives a number: the column holds the
    very values of the comprehension. *)
Lemma per_cell_objects g v :
  (forall c c', g c = Ok c' -> is_number_cell c' = false) ->
  per_cell g v = comprehension g v.
Proof.
  intros Hg. unfold per_cell.
  destruct (comprehension g v) as [values|e] eqn:Hv; [| reflexivity].
  f_equal. apply maybe_convert_objects_no_numbers.
  apply comprehension_Forall2 in Hv.
  induction Hv as [|c c' v v' Hc _ IH]; constructor; eauto.
Qed.

Lemma per_cell_step g r c :
  column_step
    (series <- getitem r c ;;
     values <- lift (comprehension g series) ;;
     setitem r c values)
    r c (per_cell g).
Proof.
  intros w d v Hw Hc Hv. unfold bind at 1.
  rewrite (run_getitem r c w d Hw), Hc.
  unfold bind, lift, per_cell.
  destruct (comprehension g v) as [v'|e] eqn:Hg; [| reflexivity].
  rewrite (run_setitem r c v' w d Hw).
  apply comprehension_length in Hg. rewrite Hg, Hv.
  now rewrite Nat.eqb_refl.
Qed.

Lemma collapse_0d_keeps_length : keeps_length collapse_0d.
Proof.
  intros v v'. unfold collapse_0d.
  destruct (forallb isinstance_ndarray v); [| now intros [= <-]].
  destruct (comprehension ndim_is_0 v) as [z|]; [| discriminate].
  destruct (forallb id z); [| now intros [= <-]].
  apply per_cell_keeps_length.
Qed.

Lemma unchanged_step r c w d v :
  heap w !! r = Some d -> assoc c (columns d) = Some v ->
  set_frame r (Frame (index d) (assign c v (columns d))) w = w.
Proof.
  intros Hw Hc. rewrite (assign_same _ _ _ Hc). now apply set_frame_same.
Qed.

Lemma collapse_0d_step r c :
  column_step
    (series <- getitem r c ;;
     if forallb isinstance_ndarray series then
       series <- getitem r c ;;
       zero_d <- lift (comprehension ndim_is_0 series) ;;
       if forallb id zero_d then
         series <- getitem r c ;;
         values <- lift (comprehension item series) ;;
         setitem r c values
       else ret tt
     else ret tt)
    r c collapse_0d.
Proof.
  intros w d v Hw Hc Hv. unfold bind at 1.
  rewrite (run_getitem r c w d Hw), Hc. unfold collapse_0d.
  destruct (forallb isinstance_ndarray v).
  2: { unfold ret. now rewrite (unchanged_step r c w d v Hw Hc). }
  unfold bind at 1. rewrite (run_getitem r c w d Hw), Hc.
  unfold bind at 1. unfold lift at 1.
  destruct (comprehension ndim_is_0 v) as [z|e]; [| reflexivity].
  destruct (forallb id z).
  2: { unfold ret. now rewrite (unchanged_step r c w d v Hw Hc). }
  unfold bind at 1. rewrite (run_getitem r c w d Hw), Hc.
  unfold bind, lift, per_cell.
  destruct (comprehension item v) as [v'|e] eqn:Hi; [| reflexivity].
  rewrite (run_setitem r c v' w d Hw).
  apply comprehension_length in Hi. rewrite Hi, Hv.
  now rewrite Nat.eqb_refl.
Qed.

Lemma attempt_keeps_length np : keeps_length (attempt np).
Proof.
  intros v v'. unfold attempt.
  destruct (values_0 v) as [first|]; [| discriminate].
  destruct (isinstance_ndarray first).
  - destruct (comprehension (np_int32 np) v) as [ints|] eqn:Hi; [| discriminate].
    destruct (comprehension _ (zip ints v)) as [close|]; [| discriminate].
    destruct (forallb id close); intros [= <-]; [| reflexivity].
    rewrite maybe_convert_objects_length.
    now apply comprehension_length in Hi.
  - destruct (negb (isinstance_str first)); [| now intros [= <-]].
    destruct (np_int32_series np v) as [iv|]; [| discriminate].
    destruct (np_allclose_series np iv v) as [[|]|]; [| now intros [= <-] | discriminate].
    destruct (length iv =? length v)%nat eqn:E; [| discriminate].
    intros [= <-]. rewrite length_map. now apply Nat.eqb_eq.
Qed.

Lemma try_block_step np r c : column_step (try_block np r c) r c (attempt np).
Proof.
  intros w d v Hw Hc Hv. unfold try_block, attempt.
  unfold bind at 1. rewrite (run_getitem r c w d Hw), Hc.
  unfold bind at 1. unfold lift at 1.
  destruct (values_0 v) as [first|e] eqn:Hfirst; [| reflexivity].
  destruct (isinstance_ndarray first).
  - unfold bind at 1. rewrite (run_getitem r c w d Hw), Hc.
    unfold bind at 1. unfold lift at 1.
    destruct (comprehension (np_int32 np) v) as [ints|e] eqn:Hi; [| reflexivity].
    unfold bind at 1. rewrite (run_getitem r c w d Hw), Hc.
    unfold bind at 1. unfold lift at 1.
    destruct (comprehension _ (zip ints v)) as [close|e]; [| reflexivity].
    destruct (forallb id close).
    + rewrite (run_setitem r c ints w d Hw).
      apply comprehension_length in Hi. rewrite Hi, Hv.
      now rewrite Nat.eqb_refl.
    + unfold ret. now rewrite (unchanged_step r c w d v Hw Hc).
  - unfold bind at 1. rewrite (run_getitem r c w d Hw), Hc.
    unfold bind at 1. unfold lift at 1.
    rewrite Hfirst.
    destruct (negb (isinstance_str first)).
    2: { unfold ret. now rewrite (unchanged_step r c w d v Hw Hc). }
    unfold bind at 1. rewrite (run_getitem r c w d Hw), Hc.
    unfold bind at 1. unfold lift at 1.
    destruct (np_int32_series np v) as [iv|e]; [| reflexivity].
    unfold bind at 1. rewrite (run_getitem r c w d Hw), Hc.
    unfold bind at 1. unfold lift at 1.
    destruct (np_allclose_series np iv v) as [[|]|e]; [| | reflexivity].
    + rewrite (run_setitem_array r c iv w d Hw).
      rewrite <- Hv.
      now destruct (length iv =? length v)%nat.
    + unfold ret. now rewrite (unchanged_step r c w d v Hw Hc).
Qed.

(** ** The loop of [clean_integer_fields] *)

Lemma assoc_app_notin c done cols :
  ~ In c (map fst done) -> assoc c (done ++ cols) = assoc c cols.
Proof.
  induction done as [|[n x] done IH]; simpl; intros H; [reflexivity |].
  destruct (String.eqb n c) eqn:E.
  - apply String.eqb_eq in E. exfalso. auto.
  - apply IH. auto.
Qed.

Lemma assign_app_notin c v done cols :
  ~ In c (map fst done) -> assign c v (done ++ cols) = done ++ assign c v cols.
Proof.
  induction done as [|[n x] done IH]; simpl; intros H; [reflexivity |].
  destruct (String.eqb n c) eqn:E.
  - apply String.eqb_eq in E. exfalso. auto.
  - rewrite IH; auto.
Qed.

Lemma try_except_step np r c w d v (bad : list string) :
  heap w !! r = Some d ->
  assoc c (columns d) = Some v ->
  length v = length (index d) ->
  try_except (try_block np r c ;; ret bad) (fun _ => ret (bad ++ [c])) w =
  (set_frame r (Frame (index d) (assign c (settle np v) (columns d))) w,
   Ok (bad ++ if failed np v then [c] else [])).
Proof.
  intros Hw Hc Hv. unfold try_except, bind.
  rewrite (try_block_step np r c w d v Hw Hc Hv).
  unfold settle, failed.
  destruct (attempt np v) as [v'|e]; simpl; unfold ret.
  - now rewrite app_nil_r.
  - now rewrite (unchanged_step r c w d v Hw Hc).
Qed.

Lemma settle_length np v : length (settle np v) = length v.
Proof.
  unfold settle. destruct (attempt np v) as [v'|] eqn:E; [| reflexivity].
  now apply attempt_keeps_length in E.
Qed.

Lemma for_fold_fields np r cols :
  forall done w d acc,
    heap w !! r = Some d ->
    columns d = done ++ cols ->
    List.NoDup (map fst (done ++ cols)) ->
    lengths_ok d ->
    for_fold (map fst cols) acc
      (fun bad_fields field =>
         try_except (try_block np r field ;; ret bad_fields)
                    (fun _ => ret (bad_fields ++ [field]))) w =
    (set_frame r (Frame (index d) (done ++ settle_all np cols)) w,
     Ok (acc ++ failed_fields np cols)).
Proof.
  induction cols as [|[c v] cols IH]; intros done w d acc Hw Hcols Hnd Hok; simpl.
  - unfold ret, settle_all, failed_fields. simpl. rewrite !app_nil_r.
    rewrite app_nil_r in Hcols. rewrite <- Hcols.
    now rewrite set_frame_same.
  - assert (Hc_done : ~ In c (map fst done)).
    { rewrite map_app in Hnd. apply List.NoDup_remove_2 in Hnd.
      intros H. apply Hnd. apply in_or_app. now left. }
    assert (Hc : assoc c (columns d) = Some v).
    { rewrite Hcols, assoc_app_notin by assumption.
      simpl. now rewrite (String.eqb_refl c). }
    pose proof (lengths_ok_assoc _ _ _ Hok Hc) as Hv.
    unfold bind at 1. rewrite (try_except_step np r c w d v acc Hw Hc Hv).
    set (d1 := Frame (index d) (assign c (settle np v) (columns d))).
    assert (Hd1 : columns d1 = (done ++ [(c, settle np v)]) ++ cols).
    { unfold d1. simpl. rewrite Hcols, assign_app_notin by assumption.
      simpl. rewrite (String.eqb_refl c). now rewrite <- app_assoc. }
    rewrite (IH (done ++ [(c, settle np v)]) (set_frame r d1 w) d1).
    + rewrite set_frame_twice. unfold settle_all, failed_fields. simpl.
      rewrite <- !app_assoc. simpl.
      destruct (failed np v); simpl; now rewrite <- ?app_assoc.
    + apply heap_set_frame.
    + exact Hd1.
    + rewrite <- app_assoc. simpl.
      rewrite map_app in *. simpl in *. exact Hnd.
    + apply lengths_ok_assign; [assumption |].
      now rewrite settle_length.
Qed.

(** ** The decorator *)

Lemma fresh_ref_None (w : world) : heap w !! fresh (dom (heap w)) = None.
Proof. apply not_elem_of_dom. apply is_fresh. Qed.

Lemma run_copy_td func r w d :
  heap w !! r = Some d ->
  copy_td func r w =
  func (fresh (dom (heap w))) (set_frame (fresh (dom (heap w))) d w).
Proof.
  intros H. unfold copy_td, bind, deref, alloc. rewrite H.
  now destruct d.
Qed.

Lemma run_copy_td_dangling func r w :
  heap w !! r = None -> copy_td func r w = (w, Raise ReferenceError).
Proof. intros H. unfold copy_td, bind, deref. now rewrite H. Qed.

(** ** Whole transforms *)

Lemma run_columnwise (body : ref -> M ref) P G (step : ref -> string -> M unit) :
  (forall r w d, heap w !! r = Some d ->
     body r w =
     (for_each (List.filter P (map fst (columns d))) (step r) ;; ret r) w) ->
  (forall r c, column_step (step r c) r c G) ->
  keeps_length G ->
  forall w r d,
    heap w !! r = Some d ->
    well_formed d = true ->
    exists d_last,
      copy_td body r w =
      match map_fields P G (columns d) with
      | Ok cols' =>
          (set_frame (fresh (dom (heap w))) (Frame (index d) cols') w,
           Ok (fresh (dom (heap w))))
      | Raise e => (set_frame (fresh (dom (heap w))) d_last w, Raise e)
      end.
Proof.
  intros Hbody Hstep Hlen w r d Hw Hwf.
  apply well_formed_spec in Hwf. destruct Hwf as [Hnd Hok].
  rewrite (run_copy_td body r w d Hw).
  set (r' := fresh (dom (heap w))).
  assert (Hw' : heap (set_frame r' d w) !! r' = Some d) by apply heap_set_frame.
  rewrite (Hbody r' _ d Hw'). unfold bind.
  destruct (for_each_fields (step r') G r' (Hstep r') Hlen
              (List.filter P (map fst (columns d))) (set_frame r' d w) d Hw' Hok)
    as [d_last Hrun].
  { intros c Hc. apply List.filter_In in Hc. tauto. }
  rewrite Hrun, update_fields_map_fields by assumption.
  exists d_last.
  destruct (map_fields P G (columns d)); now rewrite set_frame_twice.
Qed.

Lemma backshift_idx_fields_body_loop r w d :
  heap w !! r = Some d ->
  backshift_idx_fields_body r w =
  (for_each (List.filter is_idx_field (map fst (columns d)))
     (fun col =>
        series <- getitem r col ;;
        values <- lift (comprehension cell_sub1 series) ;;
        setitem r col values) ;;
   ret r) w.
Proof.
  intros Hw. unfold backshift_idx_fields_body.
  unfold bind at 1. now rewrite (run_df_columns r w d Hw).
Qed.

Lemma clean_0d_array_fields_body_loop r w d :
  heap w !! r = Some d ->
  clean_0d_array_fields_body r w =
  (for_each (List.filter is_spike_field (map fst (columns d)))
     (fun c =>
        series <- getitem r c ;;
        values <- lift (comprehension ensure_2d series) ;;
        setitem r c values) ;;
   ret r) w.
Proof.
  intros Hw. unfold clean_0d_array_fields_body.
  unfold bind at 1. now rewrite (run_df_columns r w d Hw).
Qed.

Lemma clean_0d_spike_fields_body_loop r w d :
  heap w !! r = Some d ->
  clean_0d_spike_fields_body r w =
  (for_each (List.filter (fun _ => true) (map fst (columns d)))
     (fun c =>
        series <- getitem r c ;;
        if forallb isinstance_ndarray series then
          series <- getitem r c ;;
          zero_d <- lift (comprehension ndim_is_0 series) ;;
          if forallb id zero_d then
            series <- getitem r c ;;
            values <- lift (comprehension item series) ;;
            setitem r c values
          else ret tt
        else ret tt) ;;
   ret r) w.
Proof.
  intros Hw. unfold clean_0d_spike_fields_body.
  unfold bind at 1. rewrite (run_df_columns r w d Hw).
  now rewrite filter_all.
Qed.

Lemma run_backshift_idx_fields w r d :
  heap w !! r = Some d ->
  well_formed d = true ->
  exists d_last,
    backshift_idx_fields r w =
    match map_fields is_idx_field (per_cell cell_sub1) (columns d) with
    | Ok cols' =>
        (set_frame (fresh (dom (heap w))) (Frame (index d) cols') w,
         Ok (fresh (dom (heap w))))
    | Raise e => (set_frame (fresh (dom (heap w))) d_last w, Raise e)
    end.
Proof.
  apply (run_columnwise backshift_idx_fields_body is_idx_field (per_cell cell_sub1)
           (fun r col =>
              series <- getitem r col ;;
              values <- lift (comprehension cell_sub1 series) ;;
              setitem r col values)).
  - exact backshift_idx_fields_body_loop.
  - intros r' c. apply per_cell_step.
  - apply per_cell_keeps_length.
Qed.

Lemma run_clean_0d_array_fields w r d :
  heap w !! r = Some d ->
  well_formed d = true ->
  exists d_last,
    clean_0d_array_fields r w =
    match map_fields is_spike_field (per_cell ensure_2d) (columns d) with
    | Ok cols' =>
        (set_frame (fresh (dom (heap w))) (Frame (index d) cols') w,
         Ok (fresh (dom (heap w))))
    | Raise e => (set_frame (fresh (dom (heap w))) d_last w, Raise e)
    end.
Proof.
  apply (run_columnwise clean_0d_array_fields_body is_spike_field (per_cell ensure_2d)
           (fun r c =>
              series <- getitem r c ;;
              values <- lift (comprehension ensure_2d series) ;;
              setitem r c values)).
  - exact clean_0d_array_fields_body_loop.
  - intros r' c. apply per_cell_step.
  - apply per_cell_keeps_length.
Qed.

Lemma run_clean_0d_spike_fields w r d :
  heap w !! r = Some d ->
  well_formed d = true ->
  exists d_last,
    clean_0d_spike_fields r w =
    match map_fields (fun _ => true) collapse_0d (columns d) with
    | Ok cols' =>
        (set_frame (fresh (dom (heap w))) (Frame (index d) cols') w,
         Ok (fresh (dom (heap w))))
    | Raise e => (set_frame (fresh (dom (heap w))) d_last w, Raise e)
    end.
Proof.
  apply (run_columnwise clean_0d_spike_fields_body (fun _ => true) collapse_0d
           (fun r c =>
              series <- getitem r c ;;
              if forallb isinstance_ndarray series then
                series <- getitem r c ;;
                zero_d <- lift (comprehension ndim_is_0 series) ;;
                if forallb id zero_d then
                  series <- getitem r c ;;
                  values <- lift (comprehension item series) ;;
                  setitem r c values
                else ret tt
              else ret tt)).
  - exact clean_0d_spike_fields_body_loop.
  - intros r' c. apply collapse_0d_step.
  - apply collapse_0d_keeps_length.
Qed.

Lemma run_clean_integer_fields np w r d :
  heap w !! r = Some d ->
  well_formed d = true ->
  clean_integer_fields np r w =
  (World (<[fresh (dom (heap w)) := Frame (index d) (settle_all np (columns d))]> (heap w))
         (stdout w ++ diagnostic (reported np d)),
   Ok (fresh (dom (heap w)))).
Proof.
  intros Hw Hwf. apply well_formed_spec in Hwf. destruct Hwf as [Hnd Hok].
  unfold clean_integer_fields. rewrite (run_copy_td _ r w d Hw).
  set (r' := fresh (dom (heap w))).
  assert (Hw' : heap (set_frame r' d w) !! r' = Some d) by apply heap_set_frame.
  unfold clean_integer_fields_body.
  unfold bind at 1. rewrite (run_df_columns r' _ d Hw').
  unfold bind at 1.
  rewrite (for_fold_fields np r' (columns d) [] (set_frame r' d w) d [] Hw'
             eq_refl Hnd Hok).
  rewrite set_frame_twice. simpl.
  unfold bind, diagnostic, reported, ret, print, set_frame. simpl.
  fold (failed_fields np (columns d)).
  destruct (List.filter _ (failed_fields np (columns d))); simpl;
    [now rewrite app_nil_r | reflexivity].
Qed.

(** ** Footprint: which objects a program writes *)

Create HintDb footprint.

Lemma writes_only_pure {A} r (m : M A) :
  (forall w, fst (m w) = w) -> writes_only r m.
Proof. intros H w. rewrite H. split; auto. Qed.

Lemma writes_only_ret {A} r (a : A) : writes_only r (ret a).
Proof. now apply writes_only_pure. Qed.

Lemma writes_only_raise {A} r e : writes_only r (@raise A e).
Proof. now apply writes_only_pure. Qed.

Lemma writes_only_lift {A} r (x : result A) : writes_only r (lift x).
Proof. now apply writes_only_pure. Qed.

Lemma writes_only_print r l0 : writes_only r (print l0).
Proof. intros w. split; auto. Qed.

Lemma writes_only_deref r r0 : writes_only r (deref r0).
Proof.
  apply writes_only_pure. intros w. unfold deref.
  now destruct (heap w !! r0).
Qed.

Lemma writes_only_store r d : writes_only r (store r d).
Proof.
  intros w. unfold store. simpl. split.
  - intros l Hl. now apply lookup_insert_ne.
  - intros _. rewrite lookup_insert_eq. eauto.
Qed.

Lemma writes_only_bind {A B} r (m : M A) (k : A -> M B) :
  writes_only r m -> (forall a, writes_only r (k a)) -> writes_only r (bind m k).
Proof.
  intros Hm Hk w. unfold bind.
  destruct (Hm w) as [Hm1 Hm2]. destruct (m w) as [w1 [a|e]]; simpl in *.
  - destruct (Hk a w1) as [Hk1 Hk2]. split.
    + intros l Hl. now rewrite (Hk1 l Hl), (Hm1 l Hl).
    + auto.
  - split; auto.
Qed.

Lemma writes_only_try_except {A} r (m : M A) (h : exn -> M A) :
  writes_only r m -> (forall e, writes_only r (h e)) -> writes_only r (try_except m h).
Proof.
  intros Hm Hh w. unfold try_except.
  destruct (Hm w) as [Hm1 Hm2]. destruct (m w) as [w1 [a|e]]; simpl in *.
  - split; auto.
  - destruct (Hh e w1) as [Hh1 Hh2]. split.
    + intros l Hl. now rewrite (Hh1 l Hl), (Hm1 l Hl).
    + auto.
Qed.

Lemma writes_only_if {A} r (b : bool) (m1 m2 : M A) :
  writes_only r m1 -> writes_only r m2 -> writes_only r (if b then m1 else m2).
Proof. now destruct b. Qed.

#[local] Hint Resolve writes_only_ret writes_only_raise writes_only_lift
  writes_only_print writes_only_deref writes_only_store writes_only_if : footprint.

Lemma writes_only_for_each {A} r (xs : list A) (body : A -> M unit) :
  (forall x, writes_only r (body x)) -> writes_only r (for_each xs body).
Proof.
  intros Hbody. induction xs as [|x xs IH]; simpl.
  - apply writes_only_ret.
  - apply writes_only_bind; auto.
Qed.

Lemma writes_only_for_fold {A S} r (xs : list A) (acc : S) (body : S -> A -> M S) :
  (forall s x, writes_only r (body s x)) -> writes_only r (for_fold xs acc body).
Proof.
  intros Hbody. revert acc. induction xs as [|x xs IH]; intros acc; simpl.
  - apply writes_only_ret.
  - apply writes_only_bind; auto.
Qed.

Lemma writes_only_df_columns r : writes_only r (df_columns r).
Proof. apply writes_only_bind; auto with footprint. Qed.

Lemma writes_only_getitem r c : writes_only r (getitem r c).
Proof.
  apply writes_only_bind; [auto with footprint |].
  intros d. destruct (assoc c (columns d)); auto with footprint.
Qed.

Lemma writes_only_setitem r c values : writes_only r (setitem r c values).
Proof.
  apply writes_only_bind; [auto with footprint |].
  intros d. auto with footprint.
Qed.

Lemma writes_only_setitem_array r c arr : writes_only r (setitem_array r c arr).
Proof.
  apply writes_only_bind; [auto with footprint |].
  intros d. auto with footprint.
Qed.

#[local] Hint Resolve writes_only_df_columns writes_only_getitem
  writes_only_setitem writes_only_setitem_array : footprint.

Ltac footprint :=
  repeat first
    [ progress (auto with footprint)
    | apply writes_only_bind; [| intro]
    | apply writes_only_try_except; [| intro]
    | apply writes_only_for_each; intro
    | apply writes_only_for_fold; intros ? ?
    | apply writes_only_if
    | match goal with
      | |- writes_only _ (match ?x with _ => _ end) => destruct x
      end ].

Lemma writes_only_backshift_idx_fields_body r :
  writes_only r (backshift_idx_fields_body r).
Proof. unfold backshift_idx_fields_body. footprint. Qed.

Lemma writes_only_clean_0d_array_fields_body r :
  writes_only r (clean_0d_array_fields_body r).
Proof. unfold clean_0d_array_fields_body. footprint. Qed.

Lemma writes_only_clean_0d_spike_fields_body r :
  writes_only r (clean_0d_spike_fields_body r).
Proof. unfold clean_0d_spike_fields_body. footprint. Qed.

Lemma writes_only_clean_integer_fields_body np r :
  writes_only r (clean_integer_fields_body np r).
Proof. unfold clean_integer_fields_body, try_block. footprint. Qed.

Lemma returns_ref_then {A} r (m : M A) : returns_ref r (m ;; ret r).
Proof.
  intros w w' x. unfold bind, ret.
  destruct (m w) as [w1 [a|e]]; [now intros [= _ <-] | discriminate].
Qed.

Lemma returns_ref_bind {A} r (m : M A) (k : A -> M ref) :
  (forall a, returns_ref r (k a)) -> returns_ref r (bind m k).
Proof.
  intros Hk w w' x. unfold bind.
  destruct (m w) as [w1 [a|e]]; [apply Hk | discriminate].
Qed.

Lemma returns_ref_backshift_idx_fields_body r :
  returns_ref r (backshift_idx_fields_body r).
Proof.
  unfold backshift_idx_fields_body.
  apply returns_ref_bind. intros names. apply returns_ref_then.
Qed.

Lemma returns_ref_clean_0d_array_fields_body r :
  returns_ref r (clean_0d_array_fields_body r).
Proof.
  unfold clean_0d_array_fields_body.
  apply returns_ref_bind. intros names. apply returns_ref_then.
Qed.

Lemma returns_ref_clean_0d_spike_fields_body r :
  returns_ref r (clean_0d_spike_fields_body r).
Proof.
  unfold clean_0d_spike_fields_body.
  apply returns_ref_bind. intros names. apply returns_ref_then.
Qed.

Lemma returns_ref_clean_integer_fields_body np r :
  returns_ref r (clean_integer_fields_body np r).
Proof.
  unfold clean_integer_fields_body.
  apply returns_ref_bind. intros names.
  apply returns_ref_bind. intros bad. apply returns_ref_then.
Qed.

(** A decorated function leaves every object of the caller's store as it
    was, and what it returns is a new object. *)
Lemma copy_td_frame (body : ref -> M ref) :
  (forall r, writes_only r (body r)) ->
  (forall r, returns_ref r (body r)) ->
  forall w r w' res,
    copy_td body r w = (w', res) ->
    (forall l, is_Some (heap w !! l) -> heap w' !! l = heap w !! l) /\
    (forall r', res = Ok r' ->
       heap w !! r' = None /\ is_Some (heap w' !! r')).
Proof.
  intros Hwrites Hreturns w r w' res Hrun.
  destruct (heap w !! r) as [d|] eqn:Hr.
  - rewrite (run_copy_td body r w d Hr) in Hrun.
    set (r' := fresh (dom (heap w))) in *.
    destruct (Hwrites r' (set_frame r' d w)) as [Hothers Hkept].
    rewrite Hrun in Hothers, Hkept. simpl in Hothers, Hkept.
    split.
    + intros l Hl.
      assert (Hne : l <> r').
      { intros ->. unfold r' in Hl. rewrite fresh_ref_None in Hl.
        now destruct Hl. }
      rewrite (Hothers l Hne). now apply lookup_insert_ne.
    + intros x ->. pose proof (Hreturns r' _ _ _ Hrun) as ->.
      split; [apply fresh_ref_None |].
      apply Hkept. rewrite lookup_insert_eq. eauto.
  - rewrite (run_copy_td_dangling body r w Hr) in Hrun.
    inversion Hrun; subst. split; [reflexivity | discriminate].
Qed.

Lemma decorated_frame np transform :
  In transform (transforms np) ->
  forall w r w' res,
    transform r w = (w', res) ->
    (forall l, is_Some (heap w !! l) -> heap w' !! l = heap w !! l) /\
    (forall r', res = Ok r' ->
       heap w !! r' = None /\ is_Some (heap w' !! r')).
Proof.
  unfold transforms. simpl.
  intros [<-|[<-|[<-|[<-|[]]]]]; apply copy_td_frame.
  - exact writes_only_backshift_idx_fields_body.
  - exact returns_ref_backshift_idx_fields_body.
  - exact writes_only_clean_0d_array_fields_body.
  - exact returns_ref_clean_0d_array_fields_body.
  - exact writes_only_clean_0d_spike_fields_body.
  - exact returns_ref_clean_0d_spike_fields_body.
  - exact (writes_only_clean_integer_fields_body np).
  - exact (returns_ref_clean_integer_fields_body np).
Qed.

(** ** Contracts of the four transforms *)

(** C6 (non-mutation).  Whatever table the caller passes and whichever of the
    four transforms runs, and whether it returns or raises, the caller's
    table holds the same values afterwards, as does every other object that
    existed before the call.  When the transform returns, what it returns is
    an object that did not exist before the call, so it is not the caller's
    table; and assigning a column of the returned table afterwards still
    leaves the caller's table as it was. *)
Theorem transforms_leave_the_input_unchanged np transform w r d :
  In transform (transforms np) ->
  heap w !! r = Some d ->
  let '(w', res) := transform r w in
  heap w' !! r = Some d /\
  (forall l, is_Some (heap w !! l) -> heap w' !! l = heap w !! l) /\
  (forall r', res = Ok r' ->
     r' <> r /\ heap w !! r' = None /\ is_Some (heap w' !! r') /\
     forall c values, heap (fst (setitem r' c values w')) !! r = Some d).
Proof.
  intros Hin Hr. destruct (transform r w) as [w' res] eqn:Hrun.
  destruct (decorated_frame np transform Hin w r w' res Hrun) as [Hold Hnew].
  split; [| split].
  - rewrite Hold; [assumption | eauto].
  - exact Hold.
  - intros r' Hres. destruct (Hnew r' Hres) as [Hfresh Halloc].
    assert (Hne : r <> r') by (intros ->; congruence).
    repeat split; auto.
    intros c values.
    destruct (writes_only_setitem r' c values w') as [Hothers _].
    rewrite (Hothers r Hne). rewrite Hold; [assumption | eauto].
Qed.

Lemma transforms_leave_the_input_unchanged_witness :
  let '(w', res) := clean_integer_fields NumpyRef.np Sample.caller Sample.world0 in
  heap w' !! Sample.caller = Some Sample.trial_data /\
  (forall l, is_Some (heap Sample.world0 !! l) ->
             heap w' !! l = heap Sample.world0 !! l) /\
  (forall r', res = Ok r' ->
     r' <> Sample.caller /\ heap Sample.world0 !! r' = None /\
     is_Some (heap w' !! r') /\
     forall c values,
       heap (fst (setitem r' c values w')) !! Sample.caller = Some Sample.trial_data).
Proof.
  apply (transforms_leave_the_input_unchanged NumpyRef.np
           (clean_integer_fields NumpyRef.np) Sample.world0 Sample.caller
           Sample.trial_data).
  - simpl. auto.
  - reflexivity.
Defined.

(** Without the decorator the body writes into the caller's table: the copy
    is what keeps the input as it was. *)
Example undecorated_body_mutates_the_input :
  heap (fst (backshift_idx_fields_body Sample.caller Sample.world0)) !! Sample.caller
  <> Some Sample.trial_data.
Proof. vm_compute. discriminate. Qed.

(** *** Index rebasing *)

Lemma scalar_sub1_decremented x y : scalar_sub1 x = Ok y -> decremented x y.
Proof. destruct x; simpl; intros [= <-]; constructor. Qed.

Lemma scalar_sub1_ok x : (exists y, scalar_sub1 x = Ok y) <-> is_number x = true.
Proof.
  destruct x; simpl; split; eauto; try discriminate.
  intros [y H]. discriminate.
Qed.

Lemma comprehension_ok_iff {A B} (f : A -> result B) (p : A -> bool) xs :
  (forall x, (exists y, f x = Ok y) <-> p x = true) ->
  (exists ys, comprehension f xs = Ok ys) <-> forallb p xs = true.
Proof.
  intros Hf. induction xs as [|x xs IH]; simpl.
  - split; eauto.
  - rewrite andb_true_iff, <- IH, <- Hf. split.
    + intros [ys H]. destruct (f x) as [y|]; [| discriminate].
      destruct (comprehension f xs) as [ys'|]; [| discriminate]. eauto.
    + intros [[y ->] [ys ->]]. eauto.
Qed.

Lemma per_cell_ok_iff g (p : cell -> bool) v :
  (forall c, (exists c', g c = Ok c') <-> p c = true) ->
  (exists v', per_cell g v = Ok v') <-> forallb p v = true.
Proof.
  intros Hg. rewrite <- (comprehension_ok_iff g p v Hg). unfold per_cell.
  destruct (comprehension g v) as [values|e]; split; eauto;
    intros [x H]; discriminate.
Qed.

Lemma cell_sub1_rebased c c' :
  cell_wf c = true -> cell_sub1 c = Ok c' -> rebased c c'.
Proof.
  destruct c as [x|[sh xs]|xs]; simpl; [| | discriminate].
  - intros _. destruct (scalar_sub1 x) as [y|] eqn:E; [| discriminate].
    intros [= <-]. constructor. now apply scalar_sub1_decremented.
  - intros Hwf.
    destruct (comprehension scalar_sub1 xs) as [ys|] eqn:E; [| discriminate].
    apply comprehension_Forall2 in E.
    assert (Hdec : Forall2 decremented xs ys).
    { eapply Forall2_impl; [exact E |]. apply scalar_sub1_decremented. }
    destruct sh as [|n sh].
    + simpl in Hwf. apply Nat.eqb_eq in Hwf.
      destruct xs as [|x [|x' xs]]; try discriminate.
      inversion Hdec as [|? y ? ys' Hxy Hrest]; subst.
      inversion Hrest; subst. intros [= <-]. now apply rebased_0d.
    + intros [= <-]. apply rebased_array; [discriminate | reflexivity | exact Hdec].
Qed.

Lemma cell_sub1_ok c : (exists c', cell_sub1 c = Ok c') <-> numeric c = true.
Proof.
  destruct c as [x|a|xs]; simpl.
  - rewrite <- scalar_sub1_ok. split; intros [y H].
    + destruct (scalar_sub1 x); [eauto | discriminate].
    + rewrite H. eauto.
  - rewrite <- (comprehension_ok_iff scalar_sub1 is_number (data a) scalar_sub1_ok).
    split; intros [y H].
    + destruct (comprehension scalar_sub1 (data a)); [eauto | discriminate].
    + rewrite H. destruct (shape a); [destruct y as [|y0 [|y1 y]] |]; eauto.
  - split; [intros [c' H] |]; discriminate.
Qed.

(** The elements of the result are the elements minus one, whatever the
    kind of the cell. *)
Lemma cell_sub1_elements c c' :
  cell_sub1 c = Ok c' ->
  comprehension scalar_sub1 (elements c) = Ok (elements c').
Proof.
  destruct c as [x|a|xs]; simpl; [| | discriminate].
  - destruct (scalar_sub1 x) as [y|]; [| discriminate]. now intros [= <-].
  - destruct (comprehension scalar_sub1 (data a)) as [ys|]; [| discriminate].
    destruct (shape a) as [|n sh]; [destruct ys as [|y0 [|y1 ys]] |];
      now intros [= <-].
Qed.

Lemma scalar_sub1_held x y :
  scalar_sub1 x = Ok y -> headroom 1 x = true ->
  held_integer y = map (fun z => z - 1) (held_integer x).
Proof.
  destruct x; simpl; intros [= <-]; try reflexivity.
  rewrite andb_true_iff, !Z.leb_le. intros [Hlo Hhi]. simpl.
  rewrite wrap_fits by lia. reflexivity.
Qed.

Lemma scalars_sub1_held xs ys :
  comprehension scalar_sub1 xs = Ok ys ->
  forallb (headroom 1) xs = true ->
  flat_map held_integer ys = map (fun z => z - 1) (flat_map held_integer xs).
Proof.
  intros H%comprehension_Forall2.
  induction H as [|x y xs ys Hxy _ IH]; simpl; [reflexivity |].
  rewrite andb_true_iff. intros [Hx Hxs].
  now rewrite map_app, (scalar_sub1_held x y Hxy Hx), IH.
Qed.

Lemma cell_sub1_shifted c c' :
  cell_sub1 c = Ok c' -> cell_headroom 1 c = true -> shifted 1 c c'.
Proof.
  intros H%cell_sub1_elements Hroom. now apply scalars_sub1_held.
Qed.

Lemma scalar_sub1_integer x y :
  scalar_sub1 x = Ok y -> is_integer y = is_integer x.
Proof. destruct x; simpl; intros [= <-]; reflexivity. Qed.

Lemma cell_sub1_integral c c' :
  cell_sub1 c = Ok c' -> integral c = true -> integral c' = true.
Proof.
  intros H%cell_sub1_elements. unfold integral.
  apply comprehension_Forall2 in H.
  induction H as [|x y xs ys Hxy _ IH]; simpl; [reflexivity |].
  rewrite !andb_true_iff. intros [Hx Hxs].
  rewrite (scalar_sub1_integer x y Hxy). auto.
Qed.

Lemma scalar_sub1_headroom k x y :
  0 <= k -> scalar_sub1 x = Ok y -> headroom (k + 1) x = true -> headroom k y = true.
Proof.
  intros Hk. destruct x; simpl; intros [= <-]; try reflexivity.
  rewrite andb_true_iff, !Z.leb_le. intros [Hlo Hhi].
  simpl. rewrite wrap_fits by lia.
  apply andb_true_iff. rewrite !Z.leb_le. lia.
Qed.

Lemma cell_sub1_headroom k c c' :
  0 <= k -> cell_sub1 c = Ok c' ->
  cell_headroom (k + 1) c = true -> cell_headroom k c' = true.
Proof.
  intros Hk H%cell_sub1_elements. unfold cell_headroom.
  apply comprehension_Forall2 in H.
  induction H as [|x y xs ys Hxy _ IH]; simpl; [reflexivity |].
  rewrite !andb_true_iff. intros [Hx Hxs].
  split; [exact (scalar_sub1_headroom k x y Hk Hxy Hx) | auto].
Qed.

Lemma scalar_sub1_number x y : scalar_sub1 x = Ok y -> is_number y = true.
Proof. destruct x; simpl; intros [= <-]; reflexivity. Qed.

Lemma cell_sub1_numeric c c' : cell_sub1 c = Ok c' -> numeric c' = true.
Proof.
  assert (Hall : forall xs ys,
             comprehension scalar_sub1 xs = Ok ys -> forallb is_number ys = true).
  { intros xs ys H%comprehension_Forall2.
    induction H as [|x y xs ys Hxy _ IH]; simpl; [reflexivity |].
    now rewrite (scalar_sub1_number x y Hxy), IH. }
  destruct c as [x|a|xs]; simpl; [| | discriminate].
  - destruct (scalar_sub1 x) as [y|] eqn:E; [| discriminate].
    intros [= <-]. simpl. now apply (scalar_sub1_number x).
  - destruct (comprehension scalar_sub1 (data a)) as [ys|] eqn:E; [| discriminate].
    apply Hall in E.
    destruct (shape a) as [|n sh]; [destruct ys as [|y0 [|y1 ys]] |];
      intros [= <-]; simpl in *; try assumption.
    now rewrite andb_true_r in E.
Qed.

(** Integers are stored as integers: a column of cells holding integers only
    is the list assigned, or that list with numpy integers as Python ones. *)
Lemma integral_stored values :
  forallb integral values = true ->
  maybe_convert_objects values = values \/
  maybe_convert_objects values = map python_int values.
Proof.
  intros Hint.
  destruct (maybe_convert_objects_cases values)
    as [H|[[_ [_ [_ H]]]|[Hnum [Hno [_ _]]]]]; [now left | now right |].
  exfalso. assert (forallb is_integer_cell values = true); [| congruence].
  rewrite forallb_forall in *. intros c Hc.
  specialize (Hint c Hc). specialize (Hnum c Hc).
  destruct c as [x| |]; try discriminate.
  unfold integral in Hint. simpl in *. now rewrite andb_true_r in Hint.
Qed.

Lemma integers_python_int c : integers (python_int c) = integers c.
Proof. now destruct c as [[]| |]. Qed.

Lemma integral_python_int c : integral (python_int c) = integral c.
Proof. now destruct c as [[]| |]. Qed.

Lemma headroom_python_int k c :
  cell_headroom k c = true -> cell_headroom k (python_int c) = true.
Proof. now destruct c as [[]| |]. Qed.

Lemma Forall2_map_r {A B} (R : A -> B -> Prop) (f : B -> B) xs ys :
  (forall x y, R x y -> R x (f y)) -> Forall2 R xs ys -> Forall2 R xs (map f ys).
Proof.
  intros Hf H. induction H as [|x y xs ys Hxy _ IH]; simpl; constructor; auto.
Qed.

Lemma forallb_map {A} (p : A -> bool) (f : A -> A) xs :
  (forall x, p x = true -> p (f x) = true) ->
  forallb p xs = true -> forallb p (map f xs) = true.
Proof.
  intros Hf. induction xs as [|x xs IH]; simpl; [reflexivity |].
  rewrite !andb_true_iff. intros [Hx Hxs]. auto.
Qed.

Lemma Forall2_forallb {A B} (p : A -> bool) (q : B -> bool)
    (R : A -> B -> Prop) xs ys :
  (forall x y, R x y -> p x = true -> q y = true) ->
  Forall2 R xs ys -> forallb p xs = true -> forallb q ys = true.
Proof.
  intros HR H. induction H as [|x y xs ys Hxy _ IH]; simpl; [reflexivity |].
  rewrite !andb_true_iff. intros [Hx Hxs]. eauto.
Qed.

(** One pass over a column of integers with room below them: every integer
    is shifted by one, and the column still holds integers only. *)
Lemma per_cell_sub1_shifted k v v' :
  0 <= k ->
  per_cell cell_sub1 v = Ok v' ->
  forallb integral v = true ->
  forallb (cell_headroom (k + 1)) v = true ->
  Forall2 (shifted 1) v v' /\
  forallb integral v' = true /\
  forallb (cell_headroom k) v' = true.
Proof.
  intros Hk Hrun Hint Hroom.
  apply per_cell_spec in Hrun. destruct Hrun as [values [Hsub ->]].
  assert (Hroom1 : forallb (cell_headroom 1) v = true).
  { rewrite forallb_forall in *. intros c Hc. specialize (Hroom c Hc).
    unfold cell_headroom in *. rewrite forallb_forall in *.
    intros x Hx. specialize (Hroom x Hx).
    destruct x; simpl in *; try reflexivity.
    rewrite andb_true_iff, !Z.leb_le in *. lia. }
  assert (Hshift : Forall2 (shifted 1) v values).
  { clear -Hsub Hroom1.
    induction Hsub as [|c c' v v' Hc _ IH]; simpl in *; constructor.
    - apply andb_true_iff in Hroom1. now apply cell_sub1_shifted.
    - apply andb_true_iff in Hroom1. tauto. }
  assert (Hint' : forallb integral values = true).
  { exact (Forall2_forallb integral integral _ v values
             (fun c c' H => cell_sub1_integral c c' H) Hsub Hint). }
  assert (Hroom' : forallb (cell_headroom k) values = true).
  { exact (Forall2_forallb (cell_headroom (k + 1)) (cell_headroom k) _ v values
             (fun c c' H => cell_sub1_headroom k c c' Hk H) Hsub Hroom). }
  destruct (integral_stored values Hint') as [->| ->]; [auto |].
  split; [| split].
  - apply Forall2_map_r; [| exact Hshift].
    intros c c' H. unfold shifted in *. now rewrite integers_python_int.
  - apply forallb_map; [| exact Hint'].
    intros c H. now rewrite integral_python_int.
  - apply forallb_map; [| exact Hroom']. apply headroom_python_int.
Qed.

Lemma per_cell_Forall2 g (R : cell -> cell -> Prop) v v' :
  (forall c c', g c = Ok c' -> is_number_cell c' = false) ->
  (forall c c', g c = Ok c' -> R c c') ->
  per_cell g v = Ok v' -> Forall2 R v v'.
Proof.
  intros Hobj Hg H. rewrite (per_cell_objects g v Hobj) in H.
  apply comprehension_Forall2 in H.
  eapply Forall2_impl; [exact H | exact Hg].
Qed.

Lemma map_fields_ok_iff P G cols :
  List.NoDup (map fst cols) ->
  (exists cols', map_fields P G cols = Ok cols') <->
  (forall c v, In (c, v) cols -> P c = true -> exists v', G v = Ok v').
Proof.
  intros Hnd. split; [| apply map_fields_ok].
  intros [cols' H] c v Hin HP.
  destruct (map_fields_assoc P G cols cols' c v H (In_assoc c v cols Hnd Hin))
    as [v' [_ Hv']].
  rewrite HP in Hv'. eauto.
Qed.

(** What a column-wise transform returns, read off the column-by-column map. *)
Lemma columnwise_returns (transform : ref -> M ref) P G w r d :
  (exists d_last,
      transform r w =
      match map_fields P G (columns d) with
      | Ok cols' =>
          (set_frame (fresh (dom (heap w))) (Frame (index d) cols') w,
           Ok (fresh (dom (heap w))))
      | Raise e => (set_frame (fresh (dom (heap w))) d_last w, Raise e)
      end) ->
  ((exists w' r', transform r w = (w', Ok r')) <->
   (exists cols', map_fields P G (columns d) = Ok cols')) /\
  (forall w' r', transform r w = (w', Ok r') ->
     exists d', heap w' !! r' = Some d' /\
                index d' = index d /\
                map fst (columns d') = map fst (columns d) /\
                map_fields P G (columns d) = Ok (columns d')).
Proof.
  intros [d_last Hrun]. rewrite Hrun.
  destruct (map_fields P G (columns d)) as [cols'|e] eqn:Hmap.
  - split.
    + split; eauto.
    + intros w' r' [= <- <-]. exists (Frame (index d) cols').
      rewrite heap_set_frame. simpl. repeat split.
      eapply map_fields_names. exact Hmap.
  - split.
    + split; intros [x H]; [destruct H as [r' H] |]; discriminate.
    + intros w' r'. discriminate.
Qed.

Lemma arrays_wf_column d c v :
  arrays_wf d = true -> In (c, v) (columns d) -> forallb cell_wf v = true.
Proof.
  unfold arrays_wf. rewrite forallb_forall. intros H Hin. exact (H _ Hin).
Qed.

Lemma Forall2_wf {A B} (p : A -> bool) (f : A -> result B) (R : A -> B -> Prop) xs ys :
  (forall x y, p x = true -> f x = Ok y -> R x y) ->
  forallb p xs = true ->
  Forall2 (fun x y => f x = Ok y) xs ys -> Forall2 R xs ys.
Proof.
  intros HR Hp H. induction H as [|x y xs ys Hxy _ IH]; simpl in *; constructor.
  - apply andb_true_iff in Hp. apply HR; tauto.
  - apply andb_true_iff in Hp. tauto.
Qed.

(** C1, as amended (index rebasing).  On a table whose arrays are well
    formed, the transform returns exactly when every cell of every [idx]
    column holds numbers only: a number, or a numpy array of numbers (a
    string or a Python list makes the subtraction raise).  The table it
    returns has the same rows and column names.  Every column whose name
    starts with [idx] is the column pandas makes of its rebased cells: a
    Python number minus one, a numpy number minus one within its dtype (the
    least integer of the dtype wraps around to the greatest), the array of
    the same shape with every element minus one, and for an array without
    axes the scalar that is its element minus one.  In particular, in an
    [idx] column holding integers only, none of them a numpy integer at the
    least value of its dtype, every integer is decremented by exactly one.
    Every other column holds the cells it held. *)
Theorem backshift_idx_fields_rebases w r d :
  heap w !! r = Some d ->
  well_formed d = true ->
  arrays_wf d = true ->
  ((exists w' r', backshift_idx_fields r w = (w', Ok r')) <->
   (forall name series,
       In (name, series) (columns d) -> is_idx_field name = true ->
       forallb numeric series = true)) /\
  (forall w' r',
      backshift_idx_fields r w = (w', Ok r') ->
      exists d',
        heap w' !! r' = Some d' /\
        index d' = index d /\
        map fst (columns d') = map fst (columns d) /\
        forall name series,
          assoc name (columns d) = Some series ->
          exists series',
            assoc name (columns d') = Some series' /\
            if is_idx_field name
            then (exists values,
                     Forall2 rebased series values /\
                     series' = maybe_convert_objects values) /\
                 (forallb integral series = true ->
                  forallb (cell_headroom 1) series = true ->
                  Forall2 (shifted 1) series series')
            else series' = series).
Proof.
  intros Hr Hwf Harr.
  destruct (columnwise_returns backshift_idx_fields is_idx_field
              (per_cell cell_sub1) w r d (run_backshift_idx_fields w r d Hr Hwf))
    as [Hret Hspec].
  apply well_formed_spec in Hwf. destruct Hwf as [Hnd _].
  split.
  - rewrite Hret, (map_fields_ok_iff _ _ _ Hnd).
    split; intros H name series Hin Hidx.
    + apply (per_cell_ok_iff cell_sub1 numeric series cell_sub1_ok).
      exact (H name series Hin Hidx).
    + apply (per_cell_ok_iff cell_sub1 numeric series cell_sub1_ok).
      exact (H name series Hin Hidx).
  - intros w' r' Hrun.
    destruct (Hspec w' r' Hrun) as [d' [Hd' [Hidx [Hnames Hmap]]]].
    exists d'. repeat split; try assumption.
    intros name series Hseries.
    destruct (map_fields_assoc _ _ _ _ name series Hmap Hseries) as [series' [Ha Hs]].
    exists series'. split; [assumption |].
    destruct (is_idx_field name); [| assumption].
    split.
    + apply per_cell_spec in Hs. destruct Hs as [values [Hsub ->]].
      exists values. split; [| reflexivity].
      apply (Forall2_wf cell_wf cell_sub1 rebased series values cell_sub1_rebased);
        [| exact Hsub].
      exact (arrays_wf_column d name series Harr (assoc_In _ _ _ Hseries)).
    + intros Hint Hroom.
      exact (proj1 (per_cell_sub1_shifted 0 series series' (Z.le_refl 0) Hs Hint Hroom)).
Qed.

Lemma backshift_idx_fields_rebases_witness :
  heap Sample.world0 !! Sample.caller = Some Sample.trial_data /\
  well_formed Sample.trial_data = true /\
  arrays_wf Sample.trial_data = true /\
  forall w' r',
    backshift_idx_fields Sample.caller Sample.world0 = (w', Ok r') ->
    exists d',
      heap w' !! r' = Some d' /\
      index d' = index Sample.trial_data /\
      map fst (columns d') = map fst (columns Sample.trial_data) /\
      forall name series,
        assoc name (columns Sample.trial_data) = Some series ->
        exists series',
          assoc name (columns d') = Some series' /\
          if is_idx_field name
          then (exists values,
                   Forall2 rebased series values /\
                   series' = maybe_convert_objects values) /\
               (forallb integral series = true ->
                forallb (cell_headroom 1) series = true ->
                Forall2 (shifted 1) series series')
          else series' = series.
Proof.
  split; [reflexivity |]. split; [reflexivity |]. split; [reflexivity |].
  apply (backshift_idx_fields_rebases Sample.world0 Sample.caller
           Sample.trial_data); reflexivity.
Defined.

(** C1, as stated, fails, also on a table with well-formed arrays and for
    an index field that holds integers only: the array [[0, 5]] of dtype
    [uint8] becomes [[255, 4]], so its first integer is not decremented by
    one. *)
Lemma backshift_idx_fields_wraps_around :
  ~ (forall w r d w' r' d' name series series',
        heap w !! r = Some d ->
        well_formed d = true ->
        arrays_wf d = true ->
        backshift_idx_fields r w = (w', Ok r') ->
        heap w' !! r' = Some d' ->
        is_idx_field name = true ->
        assoc name (columns d) = Some series ->
        forallb integral series = true ->
        assoc name (columns d') = Some series' ->
        Forall2 (shifted 1) series series').
Proof.
  intros H.
  set (run := backshift_idx_fields Sample.caller Cases.world_unsigned).
  assert (Hshift : Forall2 (shifted 1)
                     [Sample.arr [2%nat] [SNpInt UInt8 0; SNpInt UInt8 5]]
                     [Sample.arr [2%nat] [SNpInt UInt8 255; SNpInt UInt8 4]]).
  { apply (H Cases.world_unsigned Sample.caller Cases.unsigned
             (fst run) 2%positive
             (Frame [0] [("idx_on",
                [Sample.arr [2%nat] [SNpInt UInt8 255; SNpInt UInt8 4]])])
             "idx_on");
      try reflexivity; vm_compute; reflexivity. }
  apply List.Forall2_cons_iff in Hshift. destruct Hshift as [Hcell _].
  vm_compute in Hcell. discriminate.
Qed.

(** The two instances the specification names: [idx_start] with values
    [5, 10, 1] becomes [4, 9, 0], and the cell [[3, 7]] becomes [[2, 6]]. *)
Example backshift_idx_start_and_array :
  exists w' r' d' rest,
    backshift_idx_fields Sample.caller Sample.world0 = (w', Ok r') /\
    heap w' !! r' = Some d' /\
    assoc "idx_start" (columns d') = Some (Sample.ints [4; 9; 0]) /\
    assoc "idx_events" (columns d') =
    Some (Sample.arr [2%nat] [Sample.i64 2; Sample.i64 6] :: rest).
Proof.
  destruct (backshift_idx_fields Sample.caller Sample.world0) as [w' res] eqn:Hrun.
  vm_compute in Hrun. inversion Hrun; subst.
  do 4 eexists. split; [reflexivity |]. split; [vm_compute; reflexivity |].
  split; reflexivity.
Qed.

(** A column of arrays without axes comes back as a numeric column: its
    cells are Python numbers, no longer arrays. *)
Example backshift_0d_arrays :
  exists w' r' d',
    backshift_idx_fields Sample.caller Cases.world_idx_spikes = (w', Ok r') /\
    heap w' !! r' = Some d' /\
    assoc "idx_spikes" (columns d') = Some (Sample.ints [2; 4]).
Proof.
  destruct (backshift_idx_fields Sample.caller Cases.world_idx_spikes)
    as [w' res] eqn:Hrun.
  vm_compute in Hrun. inversion Hrun; subst.
  do 3 eexists. split; [reflexivity |]. split; [vm_compute; reflexivity |].
  reflexivity.
Qed.

(** A Python list in an index field has no subtraction. *)
Example backshift_list_raises :
  exists w', backshift_idx_fields Sample.caller Cases.world_sequences =
             (w', Raise TypeError).
Proof.
  destruct (backshift_idx_fields Sample.caller Cases.world_sequences)
    as [w' res] eqn:Hrun.
  vm_compute in Hrun. inversion Hrun; subst. eauto.
Qed.

(** *** Ensure 2-D *)

Lemma ensure_2d_repaired c c' : ensure_2d c = Ok c' -> repaired c c'.
Proof.
  destruct c as [x|a|xs]; simpl; [| | discriminate].
  - destruct (is_np_scalar x) eqn:E; [| discriminate].
    intros [= <-]. now apply repaired_scalar.
  - destruct (ndim a =? 2)%nat eqn:E; intros [= <-].
    + apply repaired_kept. now apply Nat.eqb_eq.
    + apply repaired_row; [now apply Nat.eqb_neq | reflexivity | reflexivity].
Qed.

Lemma ensure_2d_ok c : (exists c', ensure_2d c = Ok c') <-> has_ndim c = true.
Proof.
  destruct c as [x|a|xs]; simpl.
  - destruct (is_np_scalar x); split; eauto; try discriminate.
    intros [c' H]. discriminate.
  - split; [reflexivity |]. intros _. destruct (ndim a =? 2)%nat; eauto.
  - split; [intros [c' H] |]; discriminate.
Qed.

Lemma repaired_is_2d c c' : repaired c c' -> is_2d_array c' = true.
Proof.
  intros [a Ha|a b Ha Hshape Hdata|x b Hx Hshape Hdata]; simpl.
  - now apply Nat.eqb_eq.
  - unfold ndim. now rewrite Hshape.
  - unfold ndim. now rewrite Hshape.
Qed.

(** What [ensure_2d] gives is an array, which pandas stores as it is. *)
Lemma ensure_2d_object c c' : ensure_2d c = Ok c' -> is_number_cell c' = false.
Proof.
  intros H%ensure_2d_repaired%repaired_is_2d. now destruct c'.
Qed.

Lemma Forall2_forallb_r {A B} (R : A -> B -> Prop) (p : B -> bool) xs ys :
  (forall x y, R x y -> p y = true) -> Forall2 R xs ys -> forallb p ys = true.
Proof.
  intros HR H. induction H as [|x y xs ys Hxy _ IH]; simpl; [reflexivity |].
  now rewrite (HR x y Hxy), IH.
Qed.

(** C2 (ensure 2-D).  On a table, the transform returns exactly when every
    cell of every [_spikes] column has [ndim], that is, is a numpy array or
    a numpy scalar (which has rank 0).  The table it returns has the same
    rows and column names; in every column whose name ends with [_spikes] a
    cell that is a 2-D array is the same array, an array of any other rank
    is the array of shape (1, number of elements) with the same elements in
    the same order, and a numpy scalar is the array of shape (1, 1) holding
    it, so the column holds 2-D arrays only; and every other column holds
    the cells it held. *)
Theorem clean_0d_array_fields_repairs w r d :
  heap w !! r = Some d ->
  well_formed d = true ->
  ((exists w' r', clean_0d_array_fields r w = (w', Ok r')) <->
   (forall name series,
       In (name, series) (columns d) -> is_spike_field name = true ->
       forallb has_ndim series = true)) /\
  (forall w' r',
      clean_0d_array_fields r w = (w', Ok r') ->
      exists d',
        heap w' !! r' = Some d' /\
        index d' = index d /\
        map fst (columns d') = map fst (columns d) /\
        forall name series,
          assoc name (columns d) = Some series ->
          exists series',
            assoc name (columns d') = Some series' /\
            if is_spike_field name
            then Forall2 repaired series series' /\
                 forallb is_2d_array series' = true
            else series' = series).
Proof.
  intros Hr Hwf.
  destruct (columnwise_returns clean_0d_array_fields is_spike_field
              (per_cell ensure_2d) w r d (run_clean_0d_array_fields w r d Hr Hwf))
    as [Hret Hspec].
  apply well_formed_spec in Hwf. destruct Hwf as [Hnd _].
  split.
  - rewrite Hret, (map_fields_ok_iff _ _ _ Hnd).
    split; intros H name series Hin Hspike.
    + apply (per_cell_ok_iff ensure_2d has_ndim series ensure_2d_ok).
      exact (H name series Hin Hspike).
    + apply (per_cell_ok_iff ensure_2d has_ndim series ensure_2d_ok).
      exact (H name series Hin Hspike).
  - intros w' r' Hrun.
    destruct (Hspec w' r' Hrun) as [d' [Hd' [Hidx [Hnames Hmap]]]].
    exists d'. repeat split; try assumption.
    intros name series Hseries.
    destruct (map_fields_assoc _ _ _ _ name series Hmap Hseries) as [series' [Ha Hs]].
    exists series'. split; [assumption |].
    destruct (is_spike_field name); [| assumption].
    assert (Hrep : Forall2 repaired series series').
    { eapply per_cell_Forall2; [exact ensure_2d_object | | exact Hs].
      apply ensure_2d_repaired. }
    split; [exact Hrep |].
    eapply Forall2_forallb_r; [| exact Hrep]. apply repaired_is_2d.
Qed.

Lemma clean_0d_array_fields_repairs_witness :
  heap Sample.world0 !! Sample.caller = Some Sample.trial_data /\
  well_formed Sample.trial_data = true /\
  forall w' r',
    clean_0d_array_fields Sample.caller Sample.world0 = (w', Ok r') ->
    exists d',
      heap w' !! r' = Some d' /\
      index d' = index Sample.trial_data /\
      map fst (columns d') = map fst (columns Sample.trial_data) /\
      forall name series,
        assoc name (columns Sample.trial_data) = Some series ->
        exists series',
          assoc name (columns d') = Some series' /\
          if is_spike_field name
          then Forall2 repaired series series' /\
               forallb is_2d_array series' = true
          else series' = series.
Proof.
  split; [reflexivity |]. split; [reflexivity |].
  apply (clean_0d_array_fields_repairs Sample.world0 Sample.caller
           Sample.trial_data); reflexivity.
Defined.

(** The two instances the specification names: in [m1_spikes] the 0-D array
    wrapping [7] becomes [[7]], and the 2-D cell [[1,2],[3,4]] is unchanged. *)
Example clean_0d_array_fields_m1_spikes :
  exists w' r' d' rest,
    clean_0d_array_fields Sample.caller Sample.world0 = (w', Ok r') /\
    heap w' !! r' = Some d' /\
    assoc "m1_spikes" (columns d') =
    Some (Sample.arr [1%nat; 1%nat] [Sample.f64 7]
          :: Sample.arr [2%nat; 2%nat]
               [Sample.i64 1; Sample.i64 2; Sample.i64 3; Sample.i64 4]
          :: rest).
Proof.
  destruct (clean_0d_array_fields Sample.caller Sample.world0) as [w' res] eqn:Hrun.
  vm_compute in Hrun. inversion Hrun; subst.
  do 4 eexists. split; [reflexivity |]. split; [vm_compute; reflexivity |].
  reflexivity.
Qed.

(** Numpy scalars in a spike field of dtype [object] have [ndim] and
    [reshape]: [np.int32(7)] becomes [[7]]. *)
Example clean_0d_array_fields_np_scalars :
  exists w' r' d',
    clean_0d_array_fields Sample.caller Cases.world_np_scalars = (w', Ok r') /\
    heap w' !! r' = Some d' /\
    assoc "m1_spikes" (columns d') =
    Some [Sample.arr [1%nat; 1%nat] [SNpInt Int32 7];
          Sample.arr [1%nat; 1%nat] [SNpFloat 2.5]].
Proof.
  destruct (clean_0d_array_fields Sample.caller Cases.world_np_scalars)
    as [w' res] eqn:Hrun.
  vm_compute in Hrun. inversion Hrun; subst.
  do 3 eexists. split; [reflexivity |]. split; [vm_compute; reflexivity |].
  reflexivity.
Qed.

(** *** Collapse 0-D *)

Lemma is_0d_array_ndarray c : is_0d_array c = true -> isinstance_ndarray c = true.
Proof. now destruct c. Qed.

Lemma ndim_is_0_arrays v :
  forallb isinstance_ndarray v = true ->
  comprehension ndim_is_0 v = Ok (map is_0d_array v).
Proof.
  induction v as [|c v IH]; simpl; [reflexivity |].
  rewrite andb_true_iff. intros [Hc Hv].
  destruct c as [x|a|xs]; try discriminate. simpl.
  now rewrite (IH Hv).
Qed.

Lemma forallb_id_map {A} (p : A -> bool) xs :
  forallb id (map p xs) = forallb p xs.
Proof. induction xs as [|x xs IH]; simpl; [reflexivity | now rewrite IH]. Qed.

Lemma item_0d c :
  cell_wf c = true -> is_0d_array c = true ->
  exists c', item c = Ok c' /\ unwrapped c c'.
Proof.
  destruct c as [x|[sh xs]|ys]; simpl; try discriminate.
  unfold ndim. simpl. intros Hwf H0.
  destruct sh; [| discriminate]. simpl in Hwf.
  destruct xs as [|x [|y xs]]; try discriminate.
  exists (Scalar (to_python x)). split; [reflexivity | constructor].
Qed.

Lemma items_0d v :
  forallb cell_wf v = true -> forallb is_0d_array v = true ->
  exists v', comprehension item v = Ok v' /\ Forall2 unwrapped v v'.
Proof.
  induction v as [|c v IH]; simpl.
  - intros _ _. exists []. split; [reflexivity | constructor].
  - rewrite !andb_true_iff. intros [Hc Hv] [H0 Hv0].
    destruct (item_0d c Hc H0) as [c' [-> Hc']].
    destruct (IH Hv Hv0) as [v' [-> Hv']].
    exists (c' :: v'). split; [reflexivity | now constructor].
Qed.

Lemma to_python_scalar x : is_python_scalar (Scalar (to_python x)) = true.
Proof. now destruct x. Qed.

Lemma unwrapped_python_scalar c c' : unwrapped c c' -> is_python_scalar c' = true.
Proof. intros []. apply to_python_scalar. Qed.

Lemma python_int_keeps_python c :
  is_python_scalar c = true -> is_python_scalar (python_int c) = true.
Proof. now destruct c as [[]| |]. Qed.

Lemma python_float_keeps_python c :
  is_python_scalar c = true -> is_python_scalar (python_float c) = true.
Proof. now destruct c as [[]| |]. Qed.

(** A list of Python numbers and strings is stored as Python numbers and
    strings. *)
Lemma python_scalars_stored values :
  forallb is_python_scalar values = true ->
  forallb is_python_scalar (maybe_convert_objects values) = true.
Proof.
  rewrite !forallb_forall, <- !List.Forall_forall.
  apply maybe_convert_objects_Forall.
  - intros c _. apply python_int_keeps_python.
  - intros c _. apply python_float_keeps_python.
Qed.

Lemma collapse_0d_spec v :
  forallb cell_wf v = true ->
  exists v',
    collapse_0d v = Ok v' /\
    if forallb is_0d_array v
    then (exists values,
             Forall2 unwrapped v values /\
             v' = maybe_convert_objects values) /\
         forallb is_python_scalar v' = true
    else v' = v.
Proof.
  intros Hwf. unfold collapse_0d.
  destruct (forallb isinstance_ndarray v) eqn:Harr.
  - rewrite (ndim_is_0_arrays v Harr), forallb_id_map.
    destruct (forallb is_0d_array v) eqn:H0.
    + destruct (items_0d v Hwf H0) as [values [Hitems Hun]].
      unfold per_cell. rewrite Hitems.
      exists (maybe_convert_objects values). split; [reflexivity |].
      split; [eauto |].
      apply python_scalars_stored.
      eapply Forall2_forallb_r; [| exact Hun]. apply unwrapped_python_scalar.
    + eauto.
  - exists v. split; [reflexivity |].
    destruct (forallb is_0d_array v) eqn:H0; [| reflexivity].
    exfalso. rewrite forallb_forall in H0.
    assert (forallb isinstance_ndarray v = true); [| congruence].
    apply forallb_forall. intros c Hc. apply is_0d_array_ndarray. auto.
Qed.



(** A column of 0-D arrays becomes a column of scalars, while a column that
    mixes a 0-D array with arrays that have axes is left as it was. *)
Example clean_0d_spike_fields_bin_size :
  exists w' r' d',
    clean_0d_spike_fields Sample.caller Sample.world0 = (w', Ok r') /\
    heap w' !! r' = Some d' /\
    assoc "bin_size" (columns d') = Some (Sample.floats [0.01; 0.01; 0.01]%float) /\
    assoc "m1_spikes" (columns d') = assoc "m1_spikes" (columns Sample.trial_data).
Proof.
  destruct (clean_0d_spike_fields Sample.caller Sample.world0) as [w' res] eqn:Hrun.
  vm_compute in Hrun. inversion Hrun; subst.
  do 3 eexists. split; [reflexivity |]. split; [vm_compute; reflexivity |].
  split; reflexivity.
Qed.

(** The 0-D arrays [1.5], [2], [-3] of dtypes [float64] and [int64] are
    unwrapped into a float column: the integers read back as floats. *)
Example clean_0d_spike_fields_mixed_dtypes :
  exists w' r' d',
    clean_0d_spike_fields Sample.caller Cases.world_mixed_0d = (w', Ok r') /\
    heap w' !! r' = Some d' /\
    assoc "gain" (columns d') = Some (Sample.floats [1.5; 2; -3]%float).
Proof.
  destruct (clean_0d_spike_fields Sample.caller Cases.world_mixed_0d)
    as [w' res] eqn:Hrun.
  vm_compute in Hrun. inversion Hrun; subst.
  do 3 eexists. split; [reflexivity |]. split; [vm_compute; reflexivity |].
  reflexivity.
Qed.

(** *** Integer down-casting *)

Lemma assoc_settle_all np name cols :
  assoc name (settle_all np cols) = option_map (settle np) (assoc name cols).
Proof.
  induction cols as [|[n v] cols IH]; simpl; [reflexivity |].
  destruct (String.eqb n name); [reflexivity | exact IH].
Qed.

Lemma names_settle_all np cols : map fst (settle_all np cols) = map fst cols.
Proof.
  unfold settle_all. rewrite map_map. simpl. reflexivity.
Qed.

(** The transform always returns, and what it returns and prints is read off
    the columns one by one. *)
Lemma clean_integer_fields_returns np w r d :
  heap w !! r = Some d ->
  well_formed d = true ->
  exists w' r',
    clean_integer_fields np r w = (w', Ok r') /\
    heap w' !! r' = Some (Frame (index d) (settle_all np (columns d))) /\
    stdout w' = stdout w ++ diagnostic (reported np d).
Proof.
  intros Hr Hwf. rewrite (run_clean_integer_fields np w r d Hr Hwf).
  do 2 eexists. split; [reflexivity |]. simpl.
  split; [apply lookup_insert_eq | reflexivity].
Qed.

Lemma zip_all_close {A B} (f : A * B -> result bool) xs ys :
  length xs = length ys ->
  (exists bs, comprehension f (zip xs ys) = Ok bs /\ forallb id bs = true) <->
  Forall2 (fun x y => f (x, y) = Ok true) xs ys.
Proof.
  revert ys. induction xs as [|x xs IH]; intros [|y ys] Hlen; simpl in *;
    try discriminate.
  - split; [constructor | intros _; exists []; auto].
  - injection Hlen as Hlen. specialize (IH ys Hlen). split.
    + intros [bs [Hbs Hall]].
      destruct (f (x, y)) as [b|] eqn:Hb; [| discriminate].
      destruct (comprehension f (zip xs ys)) as [bs'|] eqn:Hbs'; [| discriminate].
      injection Hbs as <-. simpl in Hall. apply andb_true_iff in Hall.
      destruct Hall as [Hb' Hall]. unfold id in Hb'. subst b.
      constructor; [assumption |]. apply IH. eauto.
    + intros H. inversion H as [|? ? ? ? Hxy Hrest]; subst.
      apply IH in Hrest. destruct Hrest as [bs [-> Hall]].
      rewrite Hxy. exists (true :: bs). auto.
Qed.

Lemma attempt_arrays np series first :
  values_0 series = Ok first ->
  isinstance_ndarray first = true ->
  (forall int_arrays,
      arrays_cast_close np series int_arrays -> attempt np series = Ok int_arrays) /\
  ((~ exists int_arrays, arrays_cast_close np series int_arrays) ->
   settle np series = series).
Proof.
  intros Hfirst Harr. unfold settle, attempt. rewrite Hfirst, Harr.
  destruct (comprehension (np_int32 np) series) as [ints|e] eqn:Hcast.
  - pose proof (comprehension_length _ _ _ Hcast) as Hlen.
    pose proof (zip_all_close (fun p => np_allclose np (fst p) (snd p))
                  ints series Hlen) as Hzip.
    simpl in Hzip.
    split.
    + intros int_arrays [casts [Hc [Hclose ->]]].
      apply comprehension_Forall2 in Hc. rewrite Hcast in Hc.
      injection Hc as <-. apply Hzip in Hclose.
      destruct Hclose as [bs [-> ->]]. reflexivity.
    + intros Hnone.
      destruct (comprehension _ (zip ints series)) as [bs|] eqn:Hbs; [| reflexivity].
      destruct (forallb id bs) eqn:Hall; [| reflexivity].
      exfalso. apply Hnone. exists (maybe_convert_objects ints), ints.
      split; [now apply comprehension_Forall2 |].
      split; [| reflexivity]. apply Hzip. eauto.
  - split; [| reflexivity].
    intros int_arrays [casts [Hc _]]. apply comprehension_Forall2 in Hc. congruence.
Qed.

Lemma attempt_column np series first :
  values_0 series = Ok first ->
  isinstance_ndarray first = false ->
  isinstance_str first = false ->
  (forall int_version,
      column_cast_close np series int_version ->
      attempt np series = Ok (map Scalar int_version)) /\
  ((~ exists int_version, column_cast_close np series int_version) ->
   settle np series = series).
Proof.
  intros Hfirst Harr Hstr. unfold settle, attempt. rewrite Hfirst, Harr, Hstr. simpl.
  split.
  - intros iv [-> [Hlen ->]]. apply Nat.eqb_eq in Hlen. now rewrite Hlen.
  - intros Hnone.
    destruct (np_int32_series np series) as [iv|] eqn:Hcast; [| reflexivity].
    destruct (np_allclose_series np iv series) as [[|]|] eqn:Hclose; try reflexivity.
    destruct (length iv =? length series)%nat eqn:Hlen; [| reflexivity].
    exfalso. apply Hnone. exists iv. repeat split; try assumption.
    now apply Nat.eqb_eq.
Qed.

Lemma attempt_str np series first :
  values_0 series = Ok first ->
  isinstance_str first = true ->
  attempt np series = Ok series.
Proof.
  intros Hfirst Hstr. unfold attempt. rewrite Hfirst.
  destruct first as [[]| |]; try discriminate. reflexivity.
Qed.

Lemma settle_of_attempt np series values :
  attempt np series = Ok values -> settle np series = values.
Proof. intros H. unfold settle. now rewrite H. Qed.

(** C4 (integer down-casting, the decision).  On a table the transform
    returns a table in which every column that has a first value is settled
    by that value's kind.  First value an array: the column holds the
    [np.int32] casts of its cells when every cell has a cast and every cast
    is close to its cell ([np.allclose] true on every row), and holds its own
    cells otherwise.  First value a number: the column holds the [np.int32]
    cast of the whole column (one value per row) when that cast exists and is
    close to the column, and holds its own cells otherwise.  First value a
    string: the column holds its own cells. *)
Theorem clean_integer_fields_casts np w r d :
  heap w !! r = Some d ->
  well_formed d = true ->
  exists w' r' d',
    clean_integer_fields np r w = (w', Ok r') /\
    heap w' !! r' = Some d' /\
    forall name series first,
      assoc name (columns d) = Some series ->
      values_0 series = Ok first ->
      exists series',
        assoc name (columns d') = Some series' /\
        (isinstance_ndarray first = true ->
         (forall int_arrays,
             arrays_cast_close np series int_arrays -> series' = int_arrays) /\
         ((~ exists int_arrays, arrays_cast_close np series int_arrays) ->
          series' = series)) /\
        (isinstance_ndarray first = false -> isinstance_str first = false ->
         (forall int_version,
             column_cast_close np series int_version ->
             series' = map Scalar int_version) /\
         ((~ exists int_version, column_cast_close np series int_version) ->
          series' = series)) /\
        (isinstance_str first = true -> series' = series).
Proof.
  intros Hr Hwf.
  destruct (clean_integer_fields_returns np w r d Hr Hwf) as [w' [r' [Hrun [Hd' _]]]].
  exists w', r', (Frame (index d) (settle_all np (columns d))).
  split; [exact Hrun |]. split; [exact Hd' |].
  intros name series first Hseries Hfirst. exists (settle np series).
  simpl. rewrite assoc_settle_all, Hseries. split; [reflexivity |].
  split; [| split].
  - intros Harr. destruct (attempt_arrays np series first Hfirst Harr) as [Hyes Hno].
    split; [| exact Hno].
    intros int_arrays Hclose. now apply settle_of_attempt, Hyes.
  - intros Harr Hstr.
    destruct (attempt_column np series first Hfirst Harr Hstr) as [Hyes Hno].
    split; [| exact Hno].
    intros int_version Hclose. now apply settle_of_attempt, Hyes.
  - intros Hstr. apply settle_of_attempt. now apply (attempt_str np series first).
Qed.

Lemma clean_integer_fields_casts_witness :
  heap Sample.world0 !! Sample.caller = Some Sample.trial_data /\
  well_formed Sample.trial_data = true /\
  exists w' r' d',
    clean_integer_fields NumpyRef.np Sample.caller Sample.world0 = (w', Ok r') /\
    heap w' !! r' = Some d' /\
    forall name series first,
      assoc name (columns Sample.trial_data) = Some series ->
      values_0 series = Ok first ->
      exists series',
        assoc name (columns d') = Some series' /\
        (isinstance_ndarray first = true ->
         (forall int_arrays,
             arrays_cast_close NumpyRef.np series int_arrays -> series' = int_arrays) /\
         ((~ exists int_arrays, arrays_cast_close NumpyRef.np series int_arrays) ->
          series' = series)) /\
        (isinstance_ndarray first = false -> isinstance_str first = false ->
         (forall int_version,
             column_cast_close NumpyRef.np series int_version ->
             series' = map Scalar int_version) /\
         ((~ exists int_version, column_cast_close NumpyRef.np series int_version) ->
          series' = series)) /\
        (isinstance_str first = true -> series' = series).
Proof.
  split; [reflexivity |]. split; [reflexivity |].
  apply (clean_integer_fields_casts NumpyRef.np Sample.world0 Sample.caller
           Sample.trial_data); reflexivity.
Defined.

(** With the reference numpy: the float column [1.0, 2.0, 3.0] becomes the
    integers [1, 2, 3]; the column [1.0, 2.5, 3.0] stays as it is and is not
    reported, since its closeness check returns false without raising; the
    only line printed names the column whose cast raised. *)
Example clean_integer_fields_sample :
  exists w' r' d',
    clean_integer_fields NumpyRef.np Sample.caller Sample.world0 = (w', Ok r') /\
    heap w' !! r' = Some d' /\
    assoc "trial_id" (columns d') = Some (Sample.ints [1; 2; 3]) /\
    assoc "speed" (columns d') = Some (Sample.floats [1; 2.5; 3]%float) /\
    stdout w' = [CouldNotConvert ["ragged"]].
Proof.
  destruct (clean_integer_fields NumpyRef.np Sample.caller Sample.world0)
    as [w' res] eqn:Hrun.
  vm_compute in Hrun. inversion Hrun; subst.
  do 3 eexists. split; [reflexivity |]. split; [vm_compute; reflexivity |].
  repeat split; reflexivity.
Qed.

(** A column is [failed] exactly when the [try] block, run on a table that
    holds it, raises. *)
Lemma failed_is_try_block_raising np r field w d series :
  heap w !! r = Some d ->
  assoc field (columns d) = Some series ->
  length series = length (index d) ->
  failed np series = true <-> exists e, try_block np r field w = (w, Raise e).
Proof.
  intros Hw Hc Hlen. unfold failed.
  rewrite (try_block_step np r field w d series Hw Hc Hlen).
  destruct (attempt np series) as [v|e]; simpl; split; eauto; try discriminate.
  intros [e H]. discriminate.
Qed.

Lemma In_failed_fields np cols field :
  List.NoDup (map fst cols) ->
  In field (failed_fields np cols) <->
  exists series, assoc field cols = Some series /\ failed np series = true.
Proof.
  intros Hnd. unfold failed_fields. rewrite in_map_iff. split.
  - intros [[n v] [<- Hin]]. apply List.filter_In in Hin. destruct Hin as [Hin Hf].
    exists v. split; [now apply In_assoc | exact Hf].
  - intros [series [Ha Hf]]. exists (field, series). split; [reflexivity |].
    apply List.filter_In. split; [now apply assoc_In | exact Hf].
Qed.

Lemma In_reported np d field :
  List.NoDup (map fst (columns d)) ->
  In field (reported np d) <->
  is_label_field field = false /\
  exists series, assoc field (columns d) = Some series /\ failed np series = true.
Proof.
  intros Hnd. unfold reported. fold (failed_fields np (columns d)).
  rewrite List.filter_In, (In_failed_fields np (columns d) field Hnd), negb_true_iff.
  tauto.
Qed.

(** C5 (the diagnostic).  A field has failed when the [try] block raised for
    it (a column whose closeness check merely returns false has not).  The
    transform prints exactly one line, naming the failed fields that are not
    label fields, when there is such a field, and prints nothing when there
    is none.  A field is named exactly when it failed and its name does not
    contain [label] in any letter case; a column whose first value is a
    string never fails, so it is never named. *)
Theorem clean_integer_fields_diagnostic np w r d :
  heap w !! r = Some d ->
  well_formed d = true ->
  let w' := fst (clean_integer_fields np r w) in
  let bad_fields := reported np d in
  (bad_fields <> [] -> stdout w' = stdout w ++ [CouldNotConvert bad_fields]) /\
  (bad_fields = [] -> stdout w' = stdout w) /\
  (forall field,
      In field bad_fields <->
      is_label_field field = false /\
      exists series,
        assoc field (columns d) = Some series /\ failed np series = true) /\
  (forall field series first,
      assoc field (columns d) = Some series ->
      values_0 series = Ok first ->
      isinstance_str first = true ->
      failed np series = false /\ ~ In field bad_fields).
Proof.
  intros Hr Hwf w' bad_fields. subst w' bad_fields.
  destruct (clean_integer_fields_returns np w r d Hr Hwf) as [w' [r' [Hrun [_ Hout]]]].
  rewrite Hrun. simpl.
  apply well_formed_spec in Hwf. destruct Hwf as [Hnd _].
  split; [| split; [| split]].
  - intros Hbad. rewrite Hout. unfold diagnostic.
    destruct (reported np d); [contradiction | reflexivity].
  - intros Hbad. rewrite Hout, Hbad. simpl. apply app_nil_r.
  - intros field. now apply In_reported.
  - intros field series first Hseries Hfirst Hstr.
    assert (Hf : failed np series = false).
    { unfold failed. now rewrite (attempt_str np series first Hfirst Hstr). }
    split; [exact Hf |].
    intros Hin. apply (In_reported np d field Hnd) in Hin.
    destruct Hin as [_ [series' [Hs' Hf']]]. congruence.
Qed.

Lemma clean_integer_fields_diagnostic_witness :
  heap Sample.world0 !! Sample.caller = Some Sample.trial_data /\
  well_formed Sample.trial_data = true /\
  let w' := fst (clean_integer_fields NumpyRef.np Sample.caller Sample.world0) in
  let bad_fields := reported NumpyRef.np Sample.trial_data in
  (bad_fields <> [] ->
   stdout w' = stdout Sample.world0 ++ [CouldNotConvert bad_fields]) /\
  (bad_fields = [] -> stdout w' = stdout Sample.world0) /\
  (forall field,
      In field bad_fields <->
      is_label_field field = false /\
      exists series,
        assoc field (columns Sample.trial_data) = Some series /\
        failed NumpyRef.np series = true) /\
  (forall field series first,
      assoc field (columns Sample.trial_data) = Some series ->
      values_0 series = Ok first ->
      isinstance_str first = true ->
      failed NumpyRef.np series = false /\ ~ In field bad_fields).
Proof.
  split; [reflexivity |]. split; [reflexivity |].
  apply (clean_integer_fields_diagnostic NumpyRef.np Sample.world0 Sample.caller
           Sample.trial_data); reflexivity.
Defined.

Lemma cast_or_check_raises_attempt np series :
  cast_or_check_raises np series -> exists e, attempt np series = Raise e.
Proof.
  intros [first arr e Hfirst Harr Hin Hcast
         |first ints ia arr e Hfirst Harr Hcasts Hin Hclose
         |first e Hfirst Harr Hstr Hcast
         |first iv e Hfirst Harr Hstr Hcast Hclose];
    unfold attempt; rewrite Hfirst, Harr.
  - destruct (comprehension_raises (np_int32 np) series arr e Hin Hcast) as [e' ->].
    eauto.
  - apply comprehension_Forall2 in Hcasts. rewrite Hcasts.
    destruct (comprehension_raises (fun p => np_allclose np (fst p) (snd p))
                (zip ints series) (ia, arr) e Hin Hclose) as [e' ->].
    eauto.
  - rewrite Hstr. simpl. rewrite Hcast. eauto.
  - rewrite Hstr. simpl. rewrite Hcast, Hclose. eauto.
Qed.

(** C7 (swallowed exceptions).  On a table the transform always returns a
    table, whatever the casts and closeness checks do.  A column whose cast
    attempt or closeness check raises holds, in the returned table, exactly
    the cells it held, and is recorded as failed. *)
Theorem clean_integer_fields_swallows_exceptions np w r d :
  heap w !! r = Some d ->
  well_formed d = true ->
  exists w' r' d',
    clean_integer_fields np r w = (w', Ok r') /\
    heap w' !! r' = Some d' /\
    forall name series,
      assoc name (columns d) = Some series ->
      cast_or_check_raises np series ->
      assoc name (columns d') = Some series /\ failed np series = true.
Proof.
  intros Hr Hwf.
  destruct (clean_integer_fields_returns np w r d Hr Hwf) as [w' [r' [Hrun [Hd' _]]]].
  exists w', r', (Frame (index d) (settle_all np (columns d))).
  split; [exact Hrun |]. split; [exact Hd' |].
  intros name series Hseries Hraises. simpl.
  destruct (cast_or_check_raises_attempt np series Hraises) as [e He].
  rewrite assoc_settle_all, Hseries. unfold settle, failed. simpl.
  rewrite He. split; reflexivity.
Qed.

Lemma clean_integer_fields_swallows_exceptions_witness :
  heap Sample.world0 !! Sample.caller = Some Sample.trial_data /\
  well_formed Sample.trial_data = true /\
  exists w' r' d',
    clean_integer_fields NumpyRef.np Sample.caller Sample.world0 = (w', Ok r') /\
    heap w' !! r' = Some d' /\
    forall name series,
      assoc name (columns Sample.trial_data) = Some series ->
      cast_or_check_raises NumpyRef.np series ->
      assoc name (columns d') = Some series /\ failed NumpyRef.np series = true.
Proof.
  split; [reflexivity |]. split; [reflexivity |].
  apply (clean_integer_fields_swallows_exceptions NumpyRef.np Sample.world0
           Sample.caller Sample.trial_data); reflexivity.
Defined.

(** In the sample the cast of column [ragged] raises: its first value is a
    number and its second an array. *)
Example ragged_cast_raises :
  exists series,
    assoc "ragged" (columns Sample.trial_data) = Some series /\
    cast_or_check_raises NumpyRef.np series.
Proof.
  eexists. split; [reflexivity |].
  eapply column_cast_raises; reflexivity.
Qed.

(** *** Idempotence *)







Lemma well_formed_settle_all np d :
  well_formed d = true ->
  well_formed (Frame (index d) (settle_all np (columns d))) = true.
Proof.
  rewrite !well_formed_spec. simpl. rewrite names_settle_all.
  intros [Hnd Hok]. split; [exact Hnd |].
  unfold lengths_ok in *. simpl. unfold settle_all.
  apply List.Forall_forall. intros [n v] Hin.
  apply in_map_iff in Hin. destruct Hin as [[n' v'] [[= <- <-] Hin]]. simpl.
  rewrite settle_length. rewrite List.Forall_forall in Hok. exact (Hok _ Hin).
Qed.


(** The reference numpy satisfies the two laws. *)























(** *** Shape preservation *)

Lemma map_fields_lengths P G cols cols' n :
  keeps_length G ->
  map_fields P G cols = Ok cols' ->
  Forall (fun p => length (snd p) = n) cols ->
  Forall (fun p => length (snd p) = n) cols'.
Proof.
  intros Hlen H%comprehension_Forall2.
  induction H as [|p p' cols cols' Hp _ IH]; intros Hall; [constructor |].
  pose proof (List.Forall_inv Hall) as Hhead.
  pose proof (List.Forall_inv_tail Hall) as Hrest.
  constructor; [| now apply IH].
  destruct (P (fst p)); [| now injection Hp as <-].
  destruct (G (snd p)) as [v'|] eqn:HG; [| discriminate].
  injection Hp as <-. simpl. rewrite <- Hhead. eauto.
Qed.

Lemma columnwise_shape (transform : ref -> M ref) P G w r d :
  keeps_length G ->
  well_formed d = true ->
  (exists d_last,
      transform r w =
      match map_fields P G (columns d) with
      | Ok cols' =>
          (set_frame (fresh (dom (heap w))) (Frame (index d) cols') w,
           Ok (fresh (dom (heap w))))
      | Raise e => (set_frame (fresh (dom (heap w))) d_last w, Raise e)
      end) ->
  match transform r w with
  | (w', Ok r') =>
      exists d',
        heap w' !! r' = Some d' /\
        index d' = index d /\
        map fst (columns d') = map fst (columns d) /\
        well_formed d' = true
  | (_, Raise _) => True
  end.
Proof.
  intros Hlen Hwf Hrun.
  destruct (columnwise_returns transform P G w r d Hrun) as [_ Hspec].
  destruct (transform r w) as [w' [r'|e]]; [| exact I].
  destruct (Hspec w' r' eq_refl) as [d' [Hd' [Hidx [Hnames Hmap]]]].
  exists d'. repeat split; try assumption.
  apply well_formed_spec in Hwf. destruct Hwf as [Hnd Hok].
  apply well_formed_spec. rewrite Hnames. split; [exact Hnd |].
  unfold lengths_ok in *. rewrite Hidx.
  exact (map_fields_lengths P G _ _ _ Hlen Hmap Hok).
Qed.

(** C9 (shape preservation).  For a table and any of the four transforms, the
    table the transform returns has the same row labels in the same order
    (so the same number of rows), the same column names in the same order,
    and again one value per row in every column. *)
Theorem transforms_preserve_shape np transform w r d :
  In transform (transforms np) ->
  heap w !! r = Some d ->
  well_formed d = true ->
  match transform r w with
  | (w', Ok r') =>
      exists d',
        heap w' !! r' = Some d' /\
        index d' = index d /\
        map fst (columns d') = map fst (columns d) /\
        well_formed d' = true
  | (_, Raise _) => True
  end.
Proof.
  unfold transforms. simpl.
  intros [<-|[<-|[<-|[<-|[]]]]] Hr Hwf.
  - apply (columnwise_shape _ is_idx_field (per_cell cell_sub1));
      [apply per_cell_keeps_length | assumption
      | now apply run_backshift_idx_fields].
  - apply (columnwise_shape _ is_spike_field (per_cell ensure_2d));
      [apply per_cell_keeps_length | assumption
      | now apply run_clean_0d_array_fields].
  - apply (columnwise_shape _ (fun _ => true) collapse_0d);
      [apply collapse_0d_keeps_length | assumption
      | now apply run_clean_0d_spike_fields].
  - destruct (clean_integer_fields_returns np w r d Hr Hwf)
      as [w' [r' [-> [Hd' _]]]].
    exists (Frame (index d) (settle_all np (columns d))).
    split; [exact Hd' |]. simpl. split; [reflexivity |].
    split; [apply names_settle_all | now apply well_formed_settle_all].
Qed.

Lemma transforms_preserve_shape_witness :
  In backshift_idx_fields (transforms NumpyRef.np) /\
  heap Sample.world0 !! Sample.caller = Some Sample.trial_data /\
  well_formed Sample.trial_data = true /\
  match backshift_idx_fields Sample.caller Sample.world0 with
  | (w', Ok r') =>
      exists d',
        heap w' !! r' = Some d' /\
        index d' = index Sample.trial_data /\
        map fst (columns d') = map fst (columns Sample.trial_data) /\
        well_formed d' = true
  | (_, Raise _) => True
  end.
Proof.
  split; [simpl; auto |]. split; [reflexivity |]. split; [reflexivity |].
  apply (transforms_preserve_shape NumpyRef.np backshift_idx_fields
           Sample.world0 Sample.caller Sample.trial_data);
    [simpl; auto | reflexivity | reflexivity].
Defined.

(** *** Tables without rows *)

Lemma zero_rows_columns d :
  lengths_ok d -> index d = [] -> Forall (fun p => snd p = []) (columns d).
Proof.
  unfold lengths_ok. intros Hok Hidx. rewrite Hidx in Hok. simpl in Hok.
  eapply List.Forall_impl; [| exact Hok].
  intros [n v]. simpl. now destruct v.
Qed.

Lemma settle_all_empty np cols :
  Forall (fun p => snd p = []) cols -> settle_all np cols = cols.
Proof.
  intros H. induction H as [|[n v] cols Hv _ IH]; simpl; [reflexivity |].
  simpl in Hv. subst v. now rewrite IH.
Qed.

Lemma failed_fields_empty np cols :
  Forall (fun p => snd p = []) cols -> failed_fields np cols = map fst cols.
Proof.
  unfold failed_fields.
  intros H. induction H as [|[n v] cols Hv _ IH]; simpl; [reflexivity |].
  simpl in Hv. subst v. simpl. now rewrite IH.
Qed.

(** C10, as amended.  On a table with zero rows the transform records every
    column as a failed field (reading the first value raises and is caught)
    and returns a table with the same values.  It prints the diagnostic line,
    naming every column whose name does not contain [label], when there is
    such a column; when every column is a label field it prints nothing. *)
Theorem clean_integer_fields_zero_rows np w r d :
  heap w !! r = Some d ->
  well_formed d = true ->
  index d = [] ->
  exists w' r',
    clean_integer_fields np r w = (w', Ok r') /\
    heap w' !! r' = Some d /\
    failed_fields np (columns d) = map fst (columns d) /\
    let named := List.filter (fun field => negb (is_label_field field))
                             (map fst (columns d)) in
    (named <> [] -> stdout w' = stdout w ++ [CouldNotConvert named]) /\
    (named = [] -> stdout w' = stdout w).
Proof.
  intros Hr Hwf Hidx.
  destruct (clean_integer_fields_returns np w r d Hr Hwf) as [w' [r' [Hrun [Hd' Hout]]]].
  apply well_formed_spec in Hwf. destruct Hwf as [_ Hok].
  pose proof (zero_rows_columns d Hok Hidx) as Hempty.
  exists w', r'. split; [exact Hrun |].
  rewrite (settle_all_empty np _ Hempty) in Hd'.
  split; [now destruct d |].
  split; [now apply failed_fields_empty |].
  unfold reported in Hout. fold (failed_fields np (columns d)) in Hout.
  rewrite (failed_fields_empty np _ Hempty) in Hout.
  cbv zeta.
  set (named := List.filter (fun field => negb (is_label_field field))
                            (map fst (columns d))) in *.
  assert (Hout' : stdout w' = stdout w ++ diagnostic named) by exact Hout.
  rewrite Hout'. unfold diagnostic. split.
  - intros Hnamed. destruct named; [contradiction | reflexivity].
  - intros ->. apply app_nil_r.
Qed.

Lemma clean_integer_fields_zero_rows_witness :
  heap Sample.world2 !! Sample.caller = Some Sample.no_trials2 /\
  well_formed Sample.no_trials2 = true /\
  index Sample.no_trials2 = [] /\
  exists w' r',
    clean_integer_fields NumpyRef.np Sample.caller Sample.world2 = (w', Ok r') /\
    heap w' !! r' = Some Sample.no_trials2 /\
    failed_fields NumpyRef.np (columns Sample.no_trials2) =
    map fst (columns Sample.no_trials2) /\
    let named := List.filter (fun field => negb (is_label_field field))
                             (map fst (columns Sample.no_trials2)) in
    (named <> [] -> stdout w' = stdout Sample.world2 ++ [CouldNotConvert named]) /\
    (named = [] -> stdout w' = stdout Sample.world2).
Proof.
  split; [reflexivity |]. split; [reflexivity |]. split; [reflexivity |].
  apply (clean_integer_fields_zero_rows NumpyRef.np Sample.world2 Sample.caller
           Sample.no_trials2); reflexivity.
Defined.

(** C10, as stated, fails: a table with zero rows whose only column is
    [target_label] has at least one column, yet the transform prints no
    line at all for it. *)
Lemma zero_rows_label_only_prints_nothing :
  ~ (forall np w r d,
        heap w !! r = Some d ->
        well_formed d = true ->
        index d = [] ->
        columns d <> [] ->
        exists bad_fields,
          stdout (fst (clean_integer_fields np r w)) =
          stdout w ++ [CouldNotConvert bad_fields]).
Proof.
  intros H.
  destruct (H NumpyRef.np Sample.world1 Sample.caller Sample.no_trials
              eq_refl eq_refl eq_refl) as [bad_fields Hout].
  - discriminate.
  - vm_compute in Hout. discriminate.
Qed.

(** ** Further properties of the code *)

(** *** Column selection by name *)

Lemma startswith_iff s p :
  PyStr.startswith s p = true <-> exists rest, s = (p ++ rest)%string.
Proof.
  revert s. induction p as [|a p IH]; intros s; simpl.
  - split; [intros _; now exists s | intros _; now destruct s].
  - destruct s as [|b s]; simpl.
    + split; [discriminate | intros [rest H]; discriminate].
    + destruct (Ascii.eqb a b) eqn:E.
      * apply Ascii.eqb_eq in E. subst b. rewrite IH. split.
        -- intros [rest ->]. now exists rest.
        -- intros [rest [= ->]]. now exists rest.
      * apply Ascii.eqb_neq in E. split; [discriminate |].
        intros [rest [= -> _]]. contradiction.
Qed.

Lemma contains_iff sub s :
  PyStr.contains sub s = true <->
  exists before after, s = (before ++ sub ++ after)%string.
Proof.
  induction s as [|c s IH].
  - change (PyStr.contains sub "") with (PyStr.startswith "" sub || false).
    rewrite orb_false_r, startswith_iff. split.
    + intros [rest H]. exists EmptyString, rest. exact H.
    + intros [before [after H]].
      destruct before; [now exists after | discriminate].
  - change (PyStr.contains sub (String c s))
      with (PyStr.startswith (String c s) sub || PyStr.contains sub s).
    rewrite orb_true_iff, startswith_iff, IH. split.
    + intros [[rest H]|[before [after ->]]].
      * exists EmptyString, rest. exact H.
      * now exists (String c before), after.
    + intros [[|b before] [after H]].
      * left. now exists after.
      * right. simpl in H. injection H as -> ->. now exists before, after.
Qed.

Lemma substring_all p : String.substring 0 (String.length p) p = p.
Proof. induction p as [|a p IH]; simpl; [reflexivity | now rewrite IH]. Qed.

Lemma substring_suffix before p :
  String.substring (String.length before) (String.length p) (before ++ p)%string = p.
Proof.
  induction before as [|a before IH]; simpl; [apply substring_all | exact IH].
Qed.

Lemma length_string_app s t :
  String.length (s ++ t)%string = (String.length s + String.length t)%nat.
Proof. induction s as [|a s IH]; simpl; [reflexivity | now rewrite IH]. Qed.

Lemma substring_split s k :
  (k <= String.length s)%nat ->
  s = (String.substring 0 k s ++ String.substring k (String.length s - k) s)%string.
Proof.
  revert k. induction s as [|a s IH]; intros k Hk; simpl in *.
  - destruct k; [reflexivity | lia].
  - destruct k as [|k]; simpl.
    + now rewrite substring_all.
    + transitivity
        (String a (String.substring 0 k s ++
                   String.substring k (String.length s - k) s)%string);
        [| reflexivity].
      f_equal. apply IH. lia.
Qed.

Lemma endswith_iff s p :
  PyStr.endswith s p = true <-> exists before, s = (before ++ p)%string.
Proof.
  unfold PyStr.endswith. split.
  - destruct (String.length p <=? String.length s)%nat eqn:E; [| discriminate].
    apply Nat.leb_le in E. intros H%String.eqb_eq.
    exists (String.substring 0 (String.length s - String.length p) s).
    assert (Hk : (String.length s - String.length p <= String.length s)%nat) by lia.
    pose proof (substring_split s _ Hk) as Hs.
    replace (String.length s - (String.length s - String.length p))%nat
      with (String.length p) in Hs by lia.
    now rewrite H in Hs.
  - intros [before ->]. rewrite length_string_app.
    replace (String.length p <=? String.length before + String.length p)%nat
      with true by (symmetry; apply Nat.leb_le; lia).
    replace (String.length before + String.length p - String.length p)%nat
      with (String.length before) by lia.
    rewrite substring_suffix. apply String.eqb_refl.
Qed.

(** X15 (column selection).  A field is an index field exactly when its name
    is [idx] followed by anything; a spike field exactly when its name is
    anything followed by [_spikes]; a label field exactly when [label] occurs
    somewhere in its lower-cased name. *)
Theorem field_selection_by_name name :
  (is_idx_field name = true <-> exists rest, name = ("idx" ++ rest)%string) /\
  (is_spike_field name = true <-> exists before, name = (before ++ "_spikes")%string) /\
  (is_label_field name = true <->
   exists before after, PyStr.lower name = (before ++ "label" ++ after)%string).
Proof.
  split; [apply startswith_iff |]. split; [apply endswith_iff | apply contains_iff].
Qed.

(** *** What a column-wise transform returns and raises *)

Lemma map_fields_well_formed P G d cols' :
  keeps_length G ->
  well_formed d = true ->
  map_fields P G (columns d) = Ok cols' ->
  well_formed (Frame (index d) cols') = true.
Proof.
  intros Hlen Hwf Hmap. apply well_formed_spec in Hwf. destruct Hwf as [Hnd Hok].
  apply well_formed_spec. simpl.
  rewrite (map_fields_names _ _ _ _ Hmap). split; [exact Hnd |].
  unfold lengths_ok in *. simpl.
  exact (map_fields_lengths P G _ _ _ Hlen Hmap Hok).
Qed.

(** The outcome of a column-wise transform, in both directions. *)
Lemma columnwise_outcome (transform : ref -> M ref) P G w r d :
  (exists d_last,
      transform r w =
      match map_fields P G (columns d) with
      | Ok cols' =>
          (set_frame (fresh (dom (heap w))) (Frame (index d) cols') w,
           Ok (fresh (dom (heap w))))
      | Raise e => (set_frame (fresh (dom (heap w))) d_last w, Raise e)
      end) ->
  (forall w' r',
      transform r w = (w', Ok r') <->
      exists cols',
        map_fields P G (columns d) = Ok cols' /\
        w' = set_frame (fresh (dom (heap w))) (Frame (index d) cols') w /\
        r' = fresh (dom (heap w))) /\
  (forall e,
      (exists w', transform r w = (w', Raise e)) <->
      map_fields P G (columns d) = Raise e).
Proof.
  intros [d_last Hrun]. rewrite Hrun.
  destruct (map_fields P G (columns d)) as [cols'|e0]; split.
  - intros w' r'. split.
    + intros [= <- <-]. eauto.
    + intros [cols2 [[= <-] [-> ->]]]. reflexivity.
  - intros e. split; [intros [w' H] |]; discriminate.
  - intros w' r'. split; [discriminate | intros [cols' [H _]]; discriminate].
  - intros e. split.
    + intros [w' [= _ ->]]. reflexivity.
    + intros [= ->]. eauto.
Qed.

Lemma comprehension_raise_iff {A B} (f : A -> result B) xs :
  (exists e, comprehension f xs = Raise e) <->
  exists x, In x xs /\ exists e, f x = Raise e.
Proof.
  induction xs as [|x xs IH]; simpl.
  - split; [intros [e H]; discriminate | intros [x [[] _]]].
  - split.
    + intros [e H]. destruct (f x) as [y|e0] eqn:Hx.
      * destruct (comprehension f xs) as [ys|e1] eqn:Hxs; [discriminate |].
        destruct (proj1 IH) as [x' [Hin He]]; [eauto |].
        exists x'. split; [now right | exact He].
      * exists x. split; [now left | eauto].
    + intros [x' [[<-|Hin] [e He]]].
      * rewrite He. eauto.
      * destruct (f x) as [y|e0]; [| eauto].
        destruct (proj2 IH) as [e' ->]; eauto.
Qed.

Lemma comprehension_raise_kind {A B} (f : A -> result B) xs E :
  (forall x e, f x = Raise e -> e = E) ->
  forall e, comprehension f xs = Raise e -> e = E.
Proof.
  intros Hf. induction xs as [|x xs IH]; simpl; intros e; [discriminate |].
  destruct (f x) as [y|e0] eqn:Hx.
  - destruct (comprehension f xs) as [ys|e1]; [discriminate |].
    intros [= <-]. now apply IH.
  - intros [= <-]. now apply (Hf x).
Qed.

Lemma map_fields_raise_iff P G cols :
  (exists e, map_fields P G cols = Raise e) <->
  exists name series,
    In (name, series) cols /\ P name = true /\ exists e, G series = Raise e.
Proof.
  unfold map_fields. rewrite comprehension_raise_iff. split.
  - intros [[n v] [Hin [e He]]]. simpl in He.
    destruct (P n) eqn:HP; [| discriminate].
    destruct (G v) as [v'|e'] eqn:HG; [discriminate |].
    exists n, v. eauto.
  - intros [n [v [Hin [HP [e He]]]]]. exists (n, v). split; [exact Hin |].
    simpl. rewrite HP, He. eauto.
Qed.

Lemma map_fields_raise_kind P G cols E :
  (forall v e, G v = Raise e -> e = E) ->
  forall e, map_fields P G cols = Raise e -> e = E.
Proof.
  intros HG. unfold map_fields. apply comprehension_raise_kind.
  intros [n v] e. simpl. destruct (P n); [| discriminate].
  destruct (G v) as [v'|e'] eqn:Hv; [discriminate |].
  intros [= <-]. now apply (HG v).
Qed.

Lemma cell_sub1_raises c :
  (exists e, cell_sub1 c = Raise e) <-> numeric c = false.
Proof.
  pose proof (cell_sub1_ok c) as Hok.
  destruct (cell_sub1 c) as [c'|e]; destruct (numeric c).
  - split; [intros [e H] |]; discriminate.
  - destruct Hok as [Hok _]. discriminate Hok. eauto.
  - destruct Hok as [_ Hok]. destruct Hok as [c' H]; [reflexivity | discriminate].
  - split; eauto.
Qed.

Lemma scalar_sub1_TypeError x e : scalar_sub1 x = Raise e -> e = TypeError.
Proof. destruct x; simpl; try discriminate. now intros [= <-]. Qed.

Lemma cell_sub1_TypeError c e : cell_sub1 c = Raise e -> e = TypeError.
Proof.
  destruct c as [x|a|xs]; simpl.
  - destruct (scalar_sub1 x) as [y|e0] eqn:H; [discriminate |].
    intros [= <-]. now apply (scalar_sub1_TypeError x).
  - destruct (comprehension scalar_sub1 (data a)) as [ys|e0] eqn:H.
    + destruct (shape a); [destruct ys as [|y0 [|y1 ys]] |]; discriminate.
    + intros [= <-].
      apply (comprehension_raise_kind scalar_sub1 (data a)); [| exact H].
      exact scalar_sub1_TypeError.
  - now intros [= <-].
Qed.

Lemma per_cell_raise g v e :
  per_cell g v = Raise e <-> comprehension g v = Raise e.
Proof.
  unfold per_cell. destruct (comprehension g v); split; congruence.
Qed.

Lemma per_cell_raise_iff g v :
  (exists e, per_cell g v = Raise e) <->
  exists c, In c v /\ exists e, g c = Raise e.
Proof.
  rewrite <- comprehension_raise_iff.
  split; intros [e H]; exists e; now apply per_cell_raise.
Qed.

Lemma per_cell_raise_kind g v E :
  (forall c e, g c = Raise e -> e = E) ->
  forall e, per_cell g v = Raise e -> e = E.
Proof.
  intros Hg e H%per_cell_raise. exact (comprehension_raise_kind g v E Hg e H).
Qed.

Lemma ensure_2d_raises c :
  (exists e, ensure_2d c = Raise e) <-> has_ndim c = false.
Proof.
  destruct c as [x|a|xs]; simpl.
  - destruct (is_np_scalar x); split; eauto; try discriminate.
    intros [e H]. discriminate.
  - destruct (ndim a =? 2)%nat; split; try discriminate; intros [e H]; discriminate.
  - split; eauto.
Qed.

Lemma ensure_2d_AttributeError c e : ensure_2d c = Raise e -> e = AttributeError.
Proof.
  destruct c as [x|a|xs]; simpl.
  - destruct (is_np_scalar x); [discriminate | now intros [= <-]].
  - destruct (ndim a =? 2)%nat; discriminate.
  - now intros [= <-].
Qed.

(** X5 (error of index rebasing).  On a table, the only exception
    [backshift_idx_fields] raises is [TypeError], and it raises it exactly
    when some cell of some [idx] column does not hold numbers only: it is or
    holds a string, or is a Python list. *)
Theorem backshift_idx_fields_raises_TypeError w r d :
  heap w !! r = Some d ->
  well_formed d = true ->
  (forall w' e, backshift_idx_fields r w = (w', Raise e) -> e = TypeError) /\
  ((exists w', backshift_idx_fields r w = (w', Raise TypeError)) <->
   exists name series c,
     In (name, series) (columns d) /\ is_idx_field name = true /\
     In c series /\ numeric c = false).
Proof.
  intros Hr Hwf.
  destruct (columnwise_outcome backshift_idx_fields is_idx_field
              (per_cell cell_sub1) w r d (run_backshift_idx_fields w r d Hr Hwf))
    as [_ Hraise].
  assert (Hkind : forall e,
             map_fields is_idx_field (per_cell cell_sub1) (columns d) = Raise e ->
             e = TypeError).
  { apply map_fields_raise_kind. intros v e.
    apply per_cell_raise_kind. apply cell_sub1_TypeError. }
  split.
  - intros w' e Hrun. apply Hkind. apply Hraise. eauto.
  - rewrite Hraise. split.
    + intros Hmap.
      destruct (proj1 (map_fields_raise_iff _ _ _) (ex_intro _ _ Hmap))
        as [name [series [Hin [Hidx Hser]]]].
      apply per_cell_raise_iff in Hser. destruct Hser as [c [Hc He]].
      apply cell_sub1_raises in He. exists name, series, c. auto.
    + intros [name [series [c [Hin [Hidx [Hc Hnum]]]]]].
      destruct (proj2 (map_fields_raise_iff is_idx_field (per_cell cell_sub1)
                         (columns d))) as [e He].
      { exists name, series. repeat split; try assumption.
        apply per_cell_raise_iff. exists c. split; [exact Hc |].
        now apply cell_sub1_raises. }
      now rewrite (Hkind e He) in He.
Qed.

Lemma backshift_idx_fields_raises_TypeError_witness :
  heap Cases.world_sequences !! Sample.caller = Some Cases.sequences /\
  well_formed Cases.sequences = true /\
  (forall w' e,
      backshift_idx_fields Sample.caller Cases.world_sequences = (w', Raise e) ->
      e = TypeError) /\
  ((exists w',
       backshift_idx_fields Sample.caller Cases.world_sequences = (w', Raise TypeError)) <->
   exists name series c,
     In (name, series) (columns Cases.sequences) /\ is_idx_field name = true /\
     In c series /\ numeric c = false).
Proof.
  split; [reflexivity |]. split; [reflexivity |].
  apply (backshift_idx_fields_raises_TypeError Cases.world_sequences Sample.caller
           Cases.sequences); reflexivity.
Defined.

(** X6 (error of ensure 2-D).  On a table, the only exception
    [clean_0d_array_fields] raises is [AttributeError], and it raises it
    exactly when some cell of some [_spikes] column has no [ndim]: it is a
    Python number, a string or a Python list, and neither a numpy array nor
    a numpy scalar. *)
Theorem clean_0d_array_fields_raises_AttributeError w r d :
  heap w !! r = Some d ->
  well_formed d = true ->
  (forall w' e, clean_0d_array_fields r w = (w', Raise e) -> e = AttributeError) /\
  ((exists w', clean_0d_array_fields r w = (w', Raise AttributeError)) <->
   exists name series c,
     In (name, series) (columns d) /\ is_spike_field name = true /\
     In c series /\ has_ndim c = false).
Proof.
  intros Hr Hwf.
  destruct (columnwise_outcome clean_0d_array_fields is_spike_field
              (per_cell ensure_2d) w r d (run_clean_0d_array_fields w r d Hr Hwf))
    as [_ Hraise].
  assert (Hkind : forall e,
             map_fields is_spike_field (per_cell ensure_2d) (columns d) = Raise e ->
             e = AttributeError).
  { apply map_fields_raise_kind. intros v e.
    apply per_cell_raise_kind. apply ensure_2d_AttributeError. }
  split.
  - intros w' e Hrun. apply Hkind. apply Hraise. eauto.
  - rewrite Hraise. split.
    + intros Hmap.
      destruct (proj1 (map_fields_raise_iff _ _ _) (ex_intro _ _ Hmap))
        as [name [series [Hin [Hspike Hser]]]].
      apply per_cell_raise_iff in Hser. destruct Hser as [c [Hc He]].
      apply ensure_2d_raises in He. exists name, series, c. auto.
    + intros [name [series [c [Hin [Hspike [Hc Harr]]]]]].
      destruct (proj2 (map_fields_raise_iff is_spike_field (per_cell ensure_2d)
                         (columns d))) as [e He].
      { exists name, series. repeat split; try assumption.
        apply per_cell_raise_iff. exists c. split; [exact Hc |].
        now apply ensure_2d_raises. }
      now rewrite (Hkind e He) in He.
Qed.

Lemma clean_0d_array_fields_raises_AttributeError_witness :
  heap Sample.world0 !! Sample.caller = Some Sample.trial_data /\
  well_formed Sample.trial_data = true /\
  (forall w' e,
      clean_0d_array_fields Sample.caller Sample.world0 = (w', Raise e) ->
      e = AttributeError) /\
  ((exists w',
       clean_0d_array_fields Sample.caller Sample.world0 = (w', Raise AttributeError)) <->
   exists name series c,
     In (name, series) (columns Sample.trial_data) /\ is_spike_field name = true /\
     In c series /\ has_ndim c = false).
Proof.
  split; [reflexivity |]. split; [reflexivity |].
  apply (clean_0d_array_fields_raises_AttributeError Sample.world0 Sample.caller
           Sample.trial_data); reflexivity.
Defined.

(** *** Tables without a matching field *)

Lemma map_fields_untouched P G cols :
  (forall name, In name (map fst cols) -> P name = false) ->
  map_fields P G cols = Ok cols.
Proof.
  unfold map_fields. induction cols as [|[n v] cols IH]; simpl; intros H;
    [reflexivity |].
  rewrite (H n (or_introl eq_refl)), IH; [reflexivity |].
  intros name Hin. apply H. now right.
Qed.

Lemma columnwise_identity (transform : ref -> M ref) P G w r d :
  heap w !! r = Some d ->
  (exists d_last,
      transform r w =
      match map_fields P G (columns d) with
      | Ok cols' =>
          (set_frame (fresh (dom (heap w))) (Frame (index d) cols') w,
           Ok (fresh (dom (heap w))))
      | Raise e => (set_frame (fresh (dom (heap w))) d_last w, Raise e)
      end) ->
  (forall name, In name (map fst (columns d)) -> P name = false) ->
  exists w' r', transform r w = (w', Ok r') /\ heap w' !! r' = Some d.
Proof.
  intros Hr [d_last Hrun] Hnone.
  rewrite (map_fields_untouched P G _ Hnone) in Hrun.
  do 2 eexists. split; [exact Hrun |].
  rewrite heap_set_frame. now destruct d.
Qed.

(** X11 (nothing to do).  On a table none of whose column names starts with
    [idx], [backshift_idx_fields] returns a table with exactly the values of
    the input, whatever the cells hold; likewise [clean_0d_array_fields] on a
    table none of whose column names ends with [_spikes]. *)
Theorem no_matching_field_is_identity w r d :
  heap w !! r = Some d ->
  well_formed d = true ->
  ((forall name, In name (map fst (columns d)) -> is_idx_field name = false) ->
   exists w' r',
     backshift_idx_fields r w = (w', Ok r') /\ heap w' !! r' = Some d) /\
  ((forall name, In name (map fst (columns d)) -> is_spike_field name = false) ->
   exists w' r',
     clean_0d_array_fields r w = (w', Ok r') /\ heap w' !! r' = Some d).
Proof.
  intros Hr Hwf. split; intros Hnone.
  - exact (columnwise_identity backshift_idx_fields is_idx_field _ w r d Hr
             (run_backshift_idx_fields w r d Hr Hwf) Hnone).
  - exact (columnwise_identity clean_0d_array_fields is_spike_field _ w r d Hr
             (run_clean_0d_array_fields w r d Hr Hwf) Hnone).
Qed.

Lemma no_matching_field_is_identity_witness :
  heap Sample.world2 !! Sample.caller = Some Sample.no_trials2 /\
  well_formed Sample.no_trials2 = true /\
  ((forall name,
       In name (map fst (columns Sample.no_trials2)) -> is_idx_field name = false) ->
   exists w' r',
     backshift_idx_fields Sample.caller Sample.world2 = (w', Ok r') /\
     heap w' !! r' = Some Sample.no_trials2) /\
  ((forall name,
       In name (map fst (columns Sample.no_trials2)) -> is_spike_field name = false) ->
   exists w' r',
     clean_0d_array_fields Sample.caller Sample.world2 = (w', Ok r') /\
     heap w' !! r' = Some Sample.no_trials2).
Proof.
  split; [reflexivity |]. split; [reflexivity |].
  apply (no_matching_field_is_identity Sample.world2 Sample.caller
           Sample.no_trials2); reflexivity.
Defined.

(** *** Running a repair twice *)

Lemma comprehension_fixed {A} (f : A -> result A) ys :
  Forall (fun y => f y = Ok y) ys -> comprehension f ys = Ok ys.
Proof.
  intros H. induction H as [|y ys Hy _ IH]; simpl; [reflexivity |].
  now rewrite Hy, IH.
Qed.

Lemma map_fields_fixed P G cols cols' :
  (forall v v', G v = Ok v' -> G v' = Ok v') ->
  map_fields P G cols = Ok cols' ->
  map_fields P G cols' = Ok cols'.
Proof.
  intros HG H. unfold map_fields in *. apply comprehension_Forall2 in H.
  apply comprehension_fixed.
  induction H as [|[n v] [n' v'] cols cols' Hp _ IH]; constructor; [| exact IH].
  simpl in *. destruct (P n) eqn:HP.
  - destruct (G v) as [v1|] eqn:Hv; [| discriminate].
    injection Hp as <- <-. rewrite HP, (HG v v1 Hv). reflexivity.
  - injection Hp as <- <-. now rewrite HP.
Qed.

Lemma columnwise_idempotent (transform : ref -> M ref) P G :
  (forall w r d,
      heap w !! r = Some d -> well_formed d = true ->
      exists d_last,
        transform r w =
        match map_fields P G (columns d) with
        | Ok cols' =>
            (set_frame (fresh (dom (heap w))) (Frame (index d) cols') w,
             Ok (fresh (dom (heap w))))
        | Raise e => (set_frame (fresh (dom (heap w))) d_last w, Raise e)
        end) ->
  keeps_length G ->
  (forall v v', G v = Ok v' -> G v' = Ok v') ->
  forall w r d,
    heap w !! r = Some d ->
    well_formed d = true ->
    match transform r w with
    | (w1, Ok r1) =>
        exists d1 w2 r2,
          heap w1 !! r1 = Some d1 /\
          transform r1 w1 = (w2, Ok r2) /\
          heap w2 !! r2 = Some d1
    | (_, Raise _) => True
    end.
Proof.
  intros Hrun Hlen HG w r d Hr Hwf.
  destruct (columnwise_outcome transform P G w r d (Hrun w r d Hr Hwf)) as [Hok _].
  destruct (transform r w) as [w1 [r1|e]]; [| exact I].
  destruct (proj1 (Hok w1 r1) eq_refl) as [cols' [Hmap [-> ->]]].
  set (d1 := Frame (index d) cols').
  set (w1 := set_frame (fresh (dom (heap w))) d1 w).
  set (r1 := fresh (dom (heap w))).
  assert (Hr1 : heap w1 !! r1 = Some d1) by apply heap_set_frame.
  assert (Hwf1 : well_formed d1 = true)
    by exact (map_fields_well_formed P G d cols' Hlen Hwf Hmap).
  destruct (columnwise_outcome transform P G w1 r1 d1 (Hrun w1 r1 d1 Hr1 Hwf1))
    as [Hok1 _].
  exists d1, (set_frame (fresh (dom (heap w1))) (Frame (index d1) cols') w1),
    (fresh (dom (heap w1))).
  split; [exact Hr1 |]. split.
  - apply Hok1. exists cols'. split; [| split; reflexivity].
    exact (map_fields_fixed P G _ _ HG Hmap).
  - rewrite heap_set_frame. reflexivity.
Qed.

Lemma ensure_2d_fixed c c' : ensure_2d c = Ok c' -> ensure_2d c' = Ok c'.
Proof.
  intros H%ensure_2d_repaired. apply repaired_is_2d in H.
  destruct c' as [x|a|xs]; simpl in *; try discriminate. now rewrite H.
Qed.

Lemma per_cell_fixed g v v' :
  (forall c c', g c = Ok c' -> is_number_cell c' = false) ->
  (forall c c', g c = Ok c' -> g c' = Ok c') ->
  per_cell g v = Ok v' -> per_cell g v' = Ok v'.
Proof.
  intros Hobj Hg. rewrite !(per_cell_objects g _ Hobj). intros H.
  apply comprehension_Forall2 in H.
  apply comprehension_fixed.
  induction H as [|c c' v v' Hc _ IH]; constructor; eauto.
Qed.

(** X1 (ensure 2-D is idempotent).  When [clean_0d_array_fields] returns a
    table, running it again on that table returns a table with the same
    values: every spike cell is 2-D after the first run and is kept. *)
Theorem clean_0d_array_fields_idempotent w r d :
  heap w !! r = Some d ->
  well_formed d = true ->
  match clean_0d_array_fields r w with
  | (w1, Ok r1) =>
      exists d1 w2 r2,
        heap w1 !! r1 = Some d1 /\
        clean_0d_array_fields r1 w1 = (w2, Ok r2) /\
        heap w2 !! r2 = Some d1
  | (_, Raise _) => True
  end.
Proof.
  apply (columnwise_idempotent clean_0d_array_fields is_spike_field
           (per_cell ensure_2d)).
  - exact run_clean_0d_array_fields.
  - apply per_cell_keeps_length.
  - intros v v'. apply per_cell_fixed; [exact ensure_2d_object | exact ensure_2d_fixed].
Qed.

Lemma clean_0d_array_fields_idempotent_witness :
  heap Sample.world0 !! Sample.caller = Some Sample.trial_data /\
  well_formed Sample.trial_data = true /\
  match clean_0d_array_fields Sample.caller Sample.world0 with
  | (w1, Ok r1) =>
      exists d1 w2 r2,
        heap w1 !! r1 = Some d1 /\
        clean_0d_array_fields r1 w1 = (w2, Ok r2) /\
        heap w2 !! r2 = Some d1
  | (_, Raise _) => True
  end.
Proof.
  split; [reflexivity |]. split; [reflexivity |].
  apply (clean_0d_array_fields_idempotent Sample.world0 Sample.caller
           Sample.trial_data); reflexivity.
Defined.

Lemma item_python_scalar c c' : item c = Ok c' -> is_python_scalar c' = true.
Proof.
  destruct c as [x|a|xs]; simpl; [| | discriminate].
  - destruct (is_np_scalar x); [| discriminate].
    intros [= <-]. apply to_python_scalar.
  - destruct (data a) as [|x [|y xs]]; try discriminate.
    intros [= <-]. apply to_python_scalar.
Qed.

Lemma collapse_0d_fixed v v' : collapse_0d v = Ok v' -> collapse_0d v' = Ok v'.
Proof.
  unfold collapse_0d at 1.
  destruct (forallb isinstance_ndarray v) eqn:Harr.
  - destruct (comprehension ndim_is_0 v) as [zero_d|] eqn:Hz; [| discriminate].
    destruct (forallb id zero_d) eqn:Hall.
    + intros Hitems. apply per_cell_spec in Hitems.
      destruct Hitems as [values [Hi ->]].
      assert (Hpy : forallb is_python_scalar (maybe_convert_objects values) = true).
      { apply python_scalars_stored.
        eapply Forall2_forallb_r; [| exact Hi]. exact item_python_scalar. }
      destruct (maybe_convert_objects values) as [|c' cs]; [reflexivity |].
      simpl in Hpy. apply andb_true_iff in Hpy. destruct Hpy as [Hc' _].
      unfold collapse_0d. simpl.
      now rewrite (python_scalar_no_ndarray c' Hc').
    + intros [= <-]. unfold collapse_0d. now rewrite Harr, Hz, Hall.
  - intros [= <-]. unfold collapse_0d. now rewrite Harr.
Qed.

(** X2 (collapse 0-D is idempotent).  When [clean_0d_spike_fields] returns a
    table, running it again on that table returns a table with the same
    values: a collapsed column holds scalars and is skipped, and a column
    that was skipped is skipped again. *)
Theorem clean_0d_spike_fields_idempotent w r d :
  heap w !! r = Some d ->
  well_formed d = true ->
  match clean_0d_spike_fields r w with
  | (w1, Ok r1) =>
      exists d1 w2 r2,
        heap w1 !! r1 = Some d1 /\
        clean_0d_spike_fields r1 w1 = (w2, Ok r2) /\
        heap w2 !! r2 = Some d1
  | (_, Raise _) => True
  end.
Proof.
  apply (columnwise_idempotent clean_0d_spike_fields (fun _ => true) collapse_0d).
  - exact run_clean_0d_spike_fields.
  - exact collapse_0d_keeps_length.
  - exact collapse_0d_fixed.
Qed.

Lemma clean_0d_spike_fields_idempotent_witness :
  heap Sample.world0 !! Sample.caller = Some Sample.trial_data /\
  well_formed Sample.trial_data = true /\
  match clean_0d_spike_fields Sample.caller Sample.world0 with
  | (w1, Ok r1) =>
      exists d1 w2 r2,
        heap w1 !! r1 = Some d1 /\
        clean_0d_spike_fields r1 w1 = (w2, Ok r2) /\
        heap w2 !! r2 = Some d1
  | (_, Raise _) => True
  end.
Proof.
  split; [reflexivity |]. split; [reflexivity |].
  apply (clean_0d_spike_fields_idempotent Sample.world0 Sample.caller
           Sample.trial_data); reflexivity.
Defined.

(** *** What the repairs and the rebasing never print *)

Lemma silent_pure {A} (m : M A) : (forall w, fst (m w) = w) -> silent m.
Proof. intros H w. now rewrite H. Qed.

Lemma silent_bind {A B} (m : M A) (k : A -> M B) :
  silent m -> (forall a, silent (k a)) -> silent (bind m k).
Proof.
  intros Hm Hk w. unfold bind. specialize (Hm w).
  destruct (m w) as [w1 [a|e]]; simpl in *; [| exact Hm].
  now rewrite (Hk a w1).
Qed.

Lemma silent_deref r : silent (deref r).
Proof.
  apply silent_pure. intros w. unfold deref. now destruct (heap w !! r).
Qed.

Lemma silent_for_each {A} (xs : list A) (body : A -> M unit) :
  (forall x, silent (body x)) -> silent (for_each xs body).
Proof.
  intros Hbody. induction xs as [|x xs IH]; simpl.
  - now apply silent_pure.
  - apply silent_bind; auto.
Qed.

Lemma silent_getitem r c : silent (getitem r c).
Proof.
  apply silent_bind; [apply silent_deref |].
  intros d. destruct (assoc c (columns d)); now apply silent_pure.
Qed.

Lemma silent_setitem r c values : silent (setitem r c values).
Proof.
  apply silent_bind; [apply silent_deref |].
  intros d. destruct (length values =? length (index d))%nat.
  - intros w. reflexivity.
  - now apply silent_pure.
Qed.

Lemma silent_df_columns r : silent (df_columns r).
Proof.
  apply silent_bind; [apply silent_deref |]. intros d. now apply silent_pure.
Qed.

Lemma silent_copy_td (body : ref -> M ref) :
  (forall r, silent (body r)) -> forall r, silent (copy_td body r).
Proof.
  intros Hbody r. apply silent_bind; [apply silent_deref |].
  intros d. apply silent_bind; [| intros r'; apply Hbody].
  intros w. reflexivity.
Qed.

Lemma silent_per_cell_loop g r names :
  silent (for_each names (fun c =>
            series <- getitem r c ;;
            values <- lift (comprehension g series) ;;
            setitem r c values)).
Proof.
  apply silent_for_each. intros c.
  apply silent_bind; [apply silent_getitem |]. intros series.
  apply silent_bind; [now apply silent_pure |]. intros values.
  apply silent_setitem.
Qed.

(** X9 (silence).  [backshift_idx_fields], [clean_0d_array_fields] and
    [clean_0d_spike_fields] print nothing, on any store and any reference,
    whether they return or raise. *)
Theorem repairs_print_nothing w r :
  stdout (fst (backshift_idx_fields r w)) = stdout w /\
  stdout (fst (clean_0d_array_fields r w)) = stdout w /\
  stdout (fst (clean_0d_spike_fields r w)) = stdout w.
Proof.
  split; [| split].
  - apply (silent_copy_td backshift_idx_fields_body). intros r'.
    apply silent_bind; [apply silent_df_columns |]. intros names.
    apply silent_bind; [apply silent_per_cell_loop |]. intros _.
    now apply silent_pure.
  - apply (silent_copy_td clean_0d_array_fields_body). intros r'.
    apply silent_bind; [apply silent_df_columns |]. intros names.
    apply silent_bind; [apply silent_per_cell_loop |]. intros _.
    now apply silent_pure.
  - apply (silent_copy_td clean_0d_spike_fields_body). intros r'.
    apply silent_bind; [apply silent_df_columns |]. intros names.
    apply silent_bind; [| intros _; now apply silent_pure].
    apply silent_for_each. intros c.
    apply silent_bind; [apply silent_getitem |]. intros series.
    destruct (forallb isinstance_ndarray series); [| now apply silent_pure].
    apply silent_bind; [apply silent_getitem |]. intros series2.
    apply silent_bind; [now apply silent_pure |]. intros zero_d.
    destruct (forallb id zero_d); [| now apply silent_pure].
    apply silent_bind; [apply silent_getitem |]. intros series3.
    apply silent_bind; [now apply silent_pure |]. intros values.
    apply silent_setitem.
Qed.

(** *** The integer down-casting never raises *)

Lemma writes_only_try_block np r field : writes_only r (try_block np r field).
Proof. unfold try_block. footprint. Qed.

Lemma for_fold_try_returns np r names :
  forall (acc : list string) w,
    is_Some (heap w !! r) ->
    exists w' bad_fields,
      for_fold names acc
        (fun bad_fields field =>
           try_except (try_block np r field ;; ret bad_fields)
                      (fun _ => ret (bad_fields ++ [field]))) w =
      (w', Ok bad_fields) /\
      is_Some (heap w' !! r).
Proof.
  induction names as [|field names IH]; intros acc w Hr; simpl.
  - exists w, acc. split; [reflexivity | exact Hr].
  - unfold bind at 1. unfold try_except, bind at 1.
    destruct (writes_only_try_block np r field w) as [_ Hkept].
    specialize (Hkept Hr).
    destruct (try_block np r field w) as [w1 [[]|e]]; simpl in *; apply IH; exact Hkept.
Qed.

(** X12 (no exception escapes).  [clean_integer_fields] returns a table for
    every table of the store, whatever the table holds (even one whose
    columns differ in length or share a name) and whatever [np.int32] and
    [np.allclose] do. *)
Theorem clean_integer_fields_never_raises np w r d :
  heap w !! r = Some d ->
  exists w' r', clean_integer_fields np r w = (w', Ok r').
Proof.
  intros Hr. unfold clean_integer_fields. rewrite (run_copy_td _ r w d Hr).
  set (r' := fresh (dom (heap w))).
  set (w0 := set_frame r' d w).
  assert (Hr' : heap w0 !! r' = Some d) by apply heap_set_frame.
  unfold clean_integer_fields_body.
  unfold bind at 1. rewrite (run_df_columns r' w0 d Hr').
  unfold bind at 1.
  destruct (for_fold_try_returns np r' (map fst (columns d)) [] w0)
    as [w1 [bad_fields [-> _]]]; [rewrite Hr'; eauto |].
  unfold bind, ret, print.
  destruct (List.filter _ bad_fields); eauto.
Qed.

Lemma clean_integer_fields_never_raises_witness :
  heap Sample.world0 !! Sample.caller = Some Sample.trial_data /\
  exists w' r',
    clean_integer_fields NumpyRef.np Sample.caller Sample.world0 = (w', Ok r').
Proof.
  split; [reflexivity |].
  apply (clean_integer_fields_never_raises NumpyRef.np Sample.world0 Sample.caller
           Sample.trial_data). reflexivity.
Defined.

(** *** The field name plays no part in the cast *)

(** X7 (label fields are cast like any other).  What [clean_integer_fields]
    leaves in a column depends on the values of that column alone: two
    columns with the same values, under any two names and in any two tables,
    hold the same values afterwards.  The [label] test only selects what the
    diagnostic names. *)
Theorem clean_integer_fields_ignores_the_name np w1 r1 d1 w2 r2 d2 name1 name2 series :
  heap w1 !! r1 = Some d1 ->
  well_formed d1 = true ->
  heap w2 !! r2 = Some d2 ->
  well_formed d2 = true ->
  assoc name1 (columns d1) = Some series ->
  assoc name2 (columns d2) = Some series ->
  exists w1' r1' d1' w2' r2' d2' series',
    clean_integer_fields np r1 w1 = (w1', Ok r1') /\
    heap w1' !! r1' = Some d1' /\
    clean_integer_fields np r2 w2 = (w2', Ok r2') /\
    heap w2' !! r2' = Some d2' /\
    assoc name1 (columns d1') = Some series' /\
    assoc name2 (columns d2') = Some series'.
Proof.
  intros Hr1 Hwf1 Hr2 Hwf2 Hs1 Hs2.
  destruct (clean_integer_fields_returns np w1 r1 d1 Hr1 Hwf1)
    as [w1' [r1' [Hrun1 [Hd1 _]]]].
  destruct (clean_integer_fields_returns np w2 r2 d2 Hr2 Hwf2)
    as [w2' [r2' [Hrun2 [Hd2 _]]]].
  exists w1', r1', (Frame (index d1) (settle_all np (columns d1))),
    w2', r2', (Frame (index d2) (settle_all np (columns d2))), (settle np series).
  repeat split; try assumption; simpl.
  - now rewrite assoc_settle_all, Hs1.
  - now rewrite assoc_settle_all, Hs2.
Qed.

Lemma clean_integer_fields_ignores_the_name_witness :
  heap Sample.world0 !! Sample.caller = Some Sample.trial_data /\
  well_formed Sample.trial_data = true /\
  heap Cases.world_labelled !! Sample.caller = Some Cases.labelled /\
  well_formed Cases.labelled = true /\
  assoc "trial_id" (columns Sample.trial_data) = Some (Sample.floats [1; 2; 3]%float) /\
  assoc "target_label" (columns Cases.labelled) = Some (Sample.floats [1; 2; 3]%float) /\
  exists w1' r1' d1' w2' r2' d2' series',
    clean_integer_fields NumpyRef.np Sample.caller Sample.world0 = (w1', Ok r1') /\
    heap w1' !! r1' = Some d1' /\
    clean_integer_fields NumpyRef.np Sample.caller Cases.world_labelled = (w2', Ok r2') /\
    heap w2' !! r2' = Some d2' /\
    assoc "trial_id" (columns d1') = Some series' /\
    assoc "target_label" (columns d2') = Some series'.
Proof.
  do 6 (split; [reflexivity |]).
  apply (clean_integer_fields_ignores_the_name NumpyRef.np
           Sample.world0 Sample.caller Sample.trial_data
           Cases.world_labelled Sample.caller Cases.labelled
           "trial_id" "target_label" (Sample.floats [1; 2; 3]%float));
    reflexivity.
Defined.

(** With the reference numpy a label field of whole-number floats is cast to
    integers, and nothing is printed. *)
Example label_field_is_cast :
  exists w' r' d',
    clean_integer_fields NumpyRef.np Sample.caller Cases.world_labelled = (w', Ok r') /\
    heap w' !! r' = Some d' /\
    assoc "target_label" (columns d') = Some (Sample.ints [1; 2; 3]) /\
    stdout w' = [].
Proof.
  destruct (clean_integer_fields NumpyRef.np Sample.caller Cases.world_labelled)
    as [w' res] eqn:Hrun.
  vm_compute in Hrun. inversion Hrun; subst.
  do 3 eexists. split; [reflexivity |]. split; [vm_compute; reflexivity |].
  split; reflexivity.
Qed.

(** *** The order of the names in the diagnostic *)

Lemma filter_sublist {A} (f : A -> bool) (xs : list A) :
  sublist (List.filter f xs) xs.
Proof.
  induction xs as [|x xs IH]; simpl; [constructor |].
  destruct (f x); now constructor.
Qed.

Lemma map_fst_filter_sublist {A B} (f : A * B -> bool) (xs : list (A * B)) :
  sublist (map fst (List.filter f xs)) (map fst xs).
Proof.
  induction xs as [|x xs IH]; simpl; [constructor |].
  destruct (f x); simpl; now constructor.
Qed.

Lemma reported_sublist np d : sublist (reported np d) (map fst (columns d)).
Proof.
  unfold reported. etransitivity; [apply filter_sublist |].
  apply map_fst_filter_sublist.
Qed.

(** X8 (order of the diagnostic).  What [clean_integer_fields] prints is
    nothing, or one line whose field names are a selection of the table's
    column names in column order, each named once. *)
Theorem clean_integer_fields_names_in_column_order np w r d :
  heap w !! r = Some d ->
  well_formed d = true ->
  let w' := fst (clean_integer_fields np r w) in
  stdout w' = stdout w \/
  exists bad_fields,
    stdout w' = stdout w ++ [CouldNotConvert bad_fields] /\
    bad_fields <> [] /\
    sublist bad_fields (map fst (columns d)) /\
    List.NoDup bad_fields.
Proof.
  intros Hr Hwf w'. subst w'.
  destruct (clean_integer_fields_returns np w r d Hr Hwf) as [w' [r' [Hrun [_ Hout]]]].
  rewrite Hrun. simpl. rewrite Hout.
  pose proof (reported_sublist np d) as Hsub.
  apply well_formed_spec in Hwf. destruct Hwf as [Hnd _].
  unfold diagnostic. destruct (reported np d) as [|field bad] eqn:Hbad.
  - left. apply app_nil_r.
  - right. exists (field :: bad). repeat split; try assumption; [discriminate |].
    apply NoDup_ListNoDup.
    apply (sublist_NoDup _ (map fst (columns d))); [| exact Hsub].
    now apply NoDup_ListNoDup.
Qed.

Lemma clean_integer_fields_names_in_column_order_witness :
  heap Sample.world0 !! Sample.caller = Some Sample.trial_data /\
  well_formed Sample.trial_data = true /\
  let w' := fst (clean_integer_fields NumpyRef.np Sample.caller Sample.world0) in
  stdout w' = stdout Sample.world0 \/
  exists bad_fields,
    stdout w' = stdout Sample.world0 ++ [CouldNotConvert bad_fields] /\
    bad_fields <> [] /\
    sublist bad_fields (map fst (columns Sample.trial_data)) /\
    List.NoDup bad_fields.
Proof.
  split; [reflexivity |]. split; [reflexivity |].
  apply (clean_integer_fields_names_in_column_order NumpyRef.np Sample.world0
           Sample.caller Sample.trial_data); reflexivity.
Defined.

(** *** Pipelines of transforms *)

Lemma transform_keeps_shape np transform w r d w' r' :
  In transform (transforms np) ->
  heap w !! r = Some d ->
  well_formed d = true ->
  transform r w = (w', Ok r') ->
  exists d',
    heap w' !! r' = Some d' /\
    index d' = index d /\
    map fst (columns d') = map fst (columns d) /\
    well_formed d' = true.
Proof.
  unfold transforms. simpl.
  intros [<-|[<-|[<-|[<-|[]]]]] Hr Hwf Hrun.
  - pose proof (columnwise_shape backshift_idx_fields is_idx_field
                  (per_cell cell_sub1) w r d (per_cell_keeps_length _) Hwf
                  (run_backshift_idx_fields w r d Hr Hwf)) as H.
    now rewrite Hrun in H.
  - pose proof (columnwise_shape clean_0d_array_fields is_spike_field
                  (per_cell ensure_2d) w r d (per_cell_keeps_length _) Hwf
                  (run_clean_0d_array_fields w r d Hr Hwf)) as H.
    now rewrite Hrun in H.
  - pose proof (columnwise_shape clean_0d_spike_fields (fun _ => true)
                  collapse_0d w r d collapse_0d_keeps_length Hwf
                  (run_clean_0d_spike_fields w r d Hr Hwf)) as H.
    now rewrite Hrun in H.
  - destruct (clean_integer_fields_returns np w r d Hr Hwf)
      as [w1 [r1 [Hrun1 [Hd1 _]]]].
    rewrite Hrun in Hrun1. injection Hrun1 as <- <-.
    exists (Frame (index d) (settle_all np (columns d))).
    split; [exact Hd1 |]. simpl. split; [reflexivity |].
    split; [apply names_settle_all | now apply well_formed_settle_all].
Qed.

Lemma pipeline_invariant np ts :
  Forall (fun t => In t (transforms np)) ts ->
  forall w r d,
    heap w !! r = Some d ->
    well_formed d = true ->
    let '(w', res) := pipeline ts r w in
    (forall l, is_Some (heap w !! l) -> heap w' !! l = heap w !! l) /\
    (forall r', res = Ok r' ->
       exists d',
         heap w' !! r' = Some d' /\
         index d' = index d /\
         map fst (columns d') = map fst (columns d) /\
         well_formed d' = true).
Proof.
  intros Hts. induction Hts as [|t ts Ht _ IH]; intros w r d Hr Hwf; simpl.
  - split; [reflexivity |]. intros r' [= <-]. exists d. auto.
  - unfold bind. destruct (t r w) as [w1 [r1|e]] eqn:Hrun.
    + destruct (decorated_frame np t Ht w r w1 (Ok r1) Hrun) as [Hold _].
      destruct (transform_keeps_shape np t w r d w1 r1 Ht Hr Hwf Hrun)
        as [d1 [Hr1 [Hidx1 [Hnames1 Hwf1]]]].
      specialize (IH w1 r1 d1 Hr1 Hwf1).
      destruct (pipeline ts r1 w1) as [w' res].
      destruct IH as [Hold' Hres]. split.
      * intros l Hl. rewrite <- (Hold l Hl). apply Hold'.
        rewrite (Hold l Hl). exact Hl.
      * intros r' Hr'. destruct (Hres r' Hr') as [d' [Hd' [Hidx [Hnames Hwf']]]].
        exists d'. repeat split; try assumption; congruence.
    + destruct (decorated_frame np t Ht w r w1 (Raise e) Hrun) as [Hold _].
      split; [exact Hold | discriminate].
Qed.

(** X10 (pipelines).  Run any sequence of the four transforms, each on the
    table the one before returned.  Whether the run returns or stops at an
    exception, the table the caller passed in, and every other table that
    existed, holds the values it held.  When the run returns, the final
    table has the row labels and the column names of the input, in order,
    and one value per row in every column. *)
Theorem pipeline_preserves_shape_and_input np ts w r d :
  Forall (fun t => In t (transforms np)) ts ->
  heap w !! r = Some d ->
  well_formed d = true ->
  let '(w', res) := pipeline ts r w in
  heap w' !! r = Some d /\
  (forall l, is_Some (heap w !! l) -> heap w' !! l = heap w !! l) /\
  (forall r', res = Ok r' ->
     exists d',
       heap w' !! r' = Some d' /\
       index d' = index d /\
       map fst (columns d') = map fst (columns d) /\
       well_formed d' = true).
Proof.
  intros Hts Hr Hwf.
  pose proof (pipeline_invariant np ts Hts w r d Hr Hwf) as H.
  destruct (pipeline ts r w) as [w' res]. destruct H as [Hold Hres].
  split; [| split; assumption].
  rewrite Hold; [exact Hr | eauto].
Qed.

Lemma pipeline_preserves_shape_and_input_witness :
  Forall (fun t => In t (transforms NumpyRef.np))
    [clean_0d_array_fields; backshift_idx_fields; clean_integer_fields NumpyRef.np] /\
  heap Sample.world0 !! Sample.caller = Some Sample.trial_data /\
  well_formed Sample.trial_data = true /\
  let '(w', res) :=
    pipeline [clean_0d_array_fields; backshift_idx_fields;
              clean_integer_fields NumpyRef.np] Sample.caller Sample.world0 in
  heap w' !! Sample.caller = Some Sample.trial_data /\
  (forall l, is_Some (heap Sample.world0 !! l) ->
             heap w' !! l = heap Sample.world0 !! l) /\
  (forall r', res = Ok r' ->
     exists d',
       heap w' !! r' = Some d' /\
       index d' = index Sample.trial_data /\
       map fst (columns d') = map fst (columns Sample.trial_data) /\
       well_formed d' = true).
Proof.
  assert (Hts : Forall (fun t => In t (transforms NumpyRef.np))
                  [clean_0d_array_fields; backshift_idx_fields;
                   clean_integer_fields NumpyRef.np]).
  { repeat (apply List.Forall_cons; [simpl; auto 10 |]). apply List.Forall_nil. }
  split; [exact Hts |]. split; [reflexivity |]. split; [reflexivity |].
  apply (pipeline_preserves_shape_and_input NumpyRef.np _ Sample.world0
           Sample.caller Sample.trial_data Hts); reflexivity.
Defined.

(** *** Two column-wise transforms in a row *)

Lemma pipeline_two (t1 t2 : ref -> M ref) P1 G1 P2 G2 :
  (forall w r d,
      heap w !! r = Some d -> well_formed d = true ->
      exists d_last,
        t1 r w =
        match map_fields P1 G1 (columns d) with
        | Ok cols' =>
            (set_frame (fresh (dom (heap w))) (Frame (index d) cols') w,
             Ok (fresh (dom (heap w))))
        | Raise e => (set_frame (fresh (dom (heap w))) d_last w, Raise e)
        end) ->
  (forall w r d,
      heap w !! r = Some d -> well_formed d = true ->
      exists d_last,
        t2 r w =
        match map_fields P2 G2 (columns d) with
        | Ok cols' =>
            (set_frame (fresh (dom (heap w))) (Frame (index d) cols') w,
             Ok (fresh (dom (heap w))))
        | Raise e => (set_frame (fresh (dom (heap w))) d_last w, Raise e)
        end) ->
  keeps_length G1 ->
  forall w r d,
    heap w !! r = Some d ->
    well_formed d = true ->
    match pipeline [t1; t2] r w,
          match map_fields P1 G1 (columns d) with
          | Ok cols1 => map_fields P2 G2 cols1
          | Raise e => Raise e
          end
    with
    | (w2, Ok r2), Ok cols2 => heap w2 !! r2 = Some (Frame (index d) cols2)
    | (_, Raise e), Raise e' => e = e'
    | _, _ => False
    end.
Proof.
  intros Hrun1 Hrun2 Hlen w r d Hr Hwf. simpl. unfold bind.
  destruct (Hrun1 w r d Hr Hwf) as [d_last1 ->].
  destruct (map_fields P1 G1 (columns d)) as [cols1|e1] eqn:Hmap1; [| reflexivity].
  set (d1 := Frame (index d) cols1).
  set (w1 := set_frame (fresh (dom (heap w))) d1 w).
  assert (Hr1 : heap w1 !! fresh (dom (heap w)) = Some d1) by apply heap_set_frame.
  assert (Hwf1 : well_formed d1 = true)
    by exact (map_fields_well_formed P1 G1 d cols1 Hlen Hwf Hmap1).
  destruct (Hrun2 w1 _ d1 Hr1 Hwf1) as [d_last2 ->]. simpl.
  destruct (map_fields P2 G2 cols1) as [cols2|e2]; [| reflexivity].
  unfold ret. simpl. apply lookup_insert_eq.
Qed.

(** *** Rebasing twice *)

Lemma Forall2_compose {A B C} (R : A -> B -> Prop) (S : B -> C -> Prop) xs zs :
  (exists ys, Forall2 R xs ys /\ Forall2 S ys zs) <->
  Forall2 (fun x z => exists y, R x y /\ S y z) xs zs.
Proof.
  split.
  - intros [ys [HR HS]]. revert zs HS.
    induction HR as [|x y xs ys Hxy _ IH]; intros zs HS.
    + inversion HS. constructor.
    + inversion HS as [|? z ? zs' Hyz Hrest]; subst. constructor; eauto.
  - intros H. induction H as [|x z xs zs [y [Hxy Hyz]] _ [ys [HR HS]]].
    + exists []. split; constructor.
    + exists (y :: ys). split; constructor; assumption.
Qed.

Lemma numeric_python_int c : numeric c = true -> numeric (python_int c) = true.
Proof. now destruct c as [[]| |]. Qed.

Lemma numeric_python_float c : numeric c = true -> numeric (python_float c) = true.
Proof. now destruct c as [[]| |]. Qed.

(** What one pass leaves in a column can be rebased again. *)
Lemma per_cell_sub1_again v v1 :
  per_cell cell_sub1 v = Ok v1 -> exists v2, per_cell cell_sub1 v1 = Ok v2.
Proof.
  intros H%per_cell_spec. destruct H as [values [Hsub ->]].
  apply (per_cell_ok_iff cell_sub1 numeric _ cell_sub1_ok).
  rewrite forallb_forall, <- List.Forall_forall.
  apply maybe_convert_objects_Forall.
  - intros c _. apply numeric_python_int.
  - intros c _. apply numeric_python_float.
  - clear -Hsub. induction Hsub as [|c c' v values Hc _ IH]; constructor.
    + now apply (cell_sub1_numeric c).
    + exact IH.
Qed.

Lemma map_fields_again P G cols cols1 :
  (forall v v1, G v = Ok v1 -> exists v2, G v1 = Ok v2) ->
  map_fields P G cols = Ok cols1 -> exists cols2, map_fields P G cols1 = Ok cols2.
Proof.
  intros HG H. apply map_fields_ok. intros c v1 Hin HP.
  unfold map_fields in H. apply comprehension_Forall2 in H.
  induction H as [|[n v] [n' v'] cols cols' Hp _ IH]; [contradiction |].
  destruct Hin as [[= -> ->]|Hin]; [| eauto].
  simpl in Hp. destruct (P n) eqn:HPn.
  - destruct (G v) as [v0|] eqn:Hv; [| discriminate].
    injection Hp as <- <-. eauto.
  - injection Hp as <- <-. congruence.
Qed.

Lemma shifted_twice c c1 c2 : shifted 1 c c1 -> shifted 1 c1 c2 -> shifted 2 c c2.
Proof.
  unfold shifted. intros H1 H2. rewrite H2, H1, map_map.
  apply map_ext. intros z. lia.
Qed.

(** X13 (rebasing is not idempotent).  Running [backshift_idx_fields] on the
    table it returned returns again, and shifts again.  In the second
    result, in every [idx] column that holds integers only, every numpy
    integer among them at least two above the least value of its dtype,
    every integer is the input's integer minus two, in plain cells and in
    arrays; and every other column holds the cells of the input. *)
Theorem backshift_idx_fields_twice w r d :
  heap w !! r = Some d ->
  well_formed d = true ->
  ((exists w1 r1, backshift_idx_fields r w = (w1, Ok r1)) ->
   exists w2 r2,
     pipeline [backshift_idx_fields; backshift_idx_fields] r w = (w2, Ok r2)) /\
  (forall w2 r2,
      pipeline [backshift_idx_fields; backshift_idx_fields] r w = (w2, Ok r2) ->
      exists d2,
        heap w2 !! r2 = Some d2 /\
        forall name series,
          assoc name (columns d) = Some series ->
          exists series2,
            assoc name (columns d2) = Some series2 /\
            if is_idx_field name
            then forallb integral series = true ->
                 forallb (cell_headroom 2) series = true ->
                 Forall2 (shifted 2) series series2
            else series2 = series).
Proof.
  intros Hr Hwf.
  pose proof (pipeline_two backshift_idx_fields backshift_idx_fields
                is_idx_field (per_cell cell_sub1) is_idx_field (per_cell cell_sub1)
                run_backshift_idx_fields run_backshift_idx_fields
                (per_cell_keeps_length _) w r d Hr Hwf) as Htwo.
  destruct (columnwise_outcome backshift_idx_fields is_idx_field
              (per_cell cell_sub1) w r d (run_backshift_idx_fields w r d Hr Hwf))
    as [Hok _].
  split.
  - intros [w1 [r1 Hrun]]. apply Hok in Hrun. destruct Hrun as [cols1 [Hmap1 _]].
    rewrite Hmap1 in Htwo.
    destruct (map_fields_again is_idx_field (per_cell cell_sub1) _ _
                per_cell_sub1_again Hmap1)
      as [cols2 Hmap2].
    rewrite Hmap2 in Htwo.
    destruct (pipeline _ r w) as [w2 [r2|e]]; [eauto | contradiction].
  - intros w2 r2 Hrun. rewrite Hrun in Htwo.
    destruct (map_fields is_idx_field (per_cell cell_sub1) (columns d))
      as [cols1|] eqn:Hmap1; [| contradiction].
    destruct (map_fields is_idx_field (per_cell cell_sub1) cols1)
      as [cols2|] eqn:Hmap2; [| contradiction].
    exists (Frame (index d) cols2). split; [exact Htwo |]. simpl.
    intros name series Hseries.
    destruct (map_fields_assoc _ _ _ _ name series Hmap1 Hseries) as [s1 [Ha1 Hs1]].
    destruct (map_fields_assoc _ _ _ _ name s1 Hmap2 Ha1) as [s2 [Ha2 Hs2]].
    exists s2. split; [exact Ha2 |].
    destruct (is_idx_field name); [| congruence].
    intros Hint Hroom.
    destruct (per_cell_sub1_shifted 1 series s1 ltac:(lia) Hs1 Hint Hroom)
      as [Hshift1 [Hint1 Hroom1]].
    destruct (per_cell_sub1_shifted 0 s1 s2 ltac:(lia) Hs2 Hint1 Hroom1)
      as [Hshift2 _].
    assert (Hboth : Forall2 (fun c c2 => exists c1, shifted 1 c c1 /\ shifted 1 c1 c2)
                      series s2).
    { apply Forall2_compose. eauto. }
    eapply Forall2_impl; [exact Hboth |].
    intros c c2 [c1 [H1 H2]]. exact (shifted_twice c c1 c2 H1 H2).
Qed.

Lemma backshift_idx_fields_twice_witness :
  heap Sample.world0 !! Sample.caller = Some Sample.trial_data /\
  well_formed Sample.trial_data = true /\
  ((exists w1 r1, backshift_idx_fields Sample.caller Sample.world0 = (w1, Ok r1)) ->
   exists w2 r2,
     pipeline [backshift_idx_fields; backshift_idx_fields]
       Sample.caller Sample.world0 = (w2, Ok r2)) /\
  (forall w2 r2,
      pipeline [backshift_idx_fields; backshift_idx_fields]
        Sample.caller Sample.world0 = (w2, Ok r2) ->
      exists d2,
        heap w2 !! r2 = Some d2 /\
        forall name series,
          assoc name (columns Sample.trial_data) = Some series ->
          exists series2,
            assoc name (columns d2) = Some series2 /\
            if is_idx_field name
            then forallb integral series = true ->
                 forallb (cell_headroom 2) series = true ->
                 Forall2 (shifted 2) series series2
            else series2 = series).
Proof.
  split; [reflexivity |]. split; [reflexivity |].
  apply (backshift_idx_fields_twice Sample.world0 Sample.caller Sample.trial_data);
    reflexivity.
Defined.

(** On the sample, [idx_start] goes from [5, 10, 1] to [3, 8, -1]. *)
Example backshift_twice_idx_start :
  exists w2 r2 d2,
    pipeline [backshift_idx_fields; backshift_idx_fields]
      Sample.caller Sample.world0 = (w2, Ok r2) /\
    heap w2 !! r2 = Some d2 /\
    assoc "idx_start" (columns d2) = Some (Sample.ints [3; 8; -1]).
Proof.
  destruct (pipeline [backshift_idx_fields; backshift_idx_fields]
              Sample.caller Sample.world0) as [w2 res] eqn:Hrun.
  vm_compute in Hrun. inversion Hrun; subst.
  do 3 eexists. split; [reflexivity |]. split; [vm_compute; reflexivity |].
  reflexivity.
Qed.

(** *** Rebasing and ensure 2-D in either order *)

(** A list of numbers whose integers have a common 64-bit dtype is stored
    as Python numbers. *)
Lemma numbers_stored_python values :
  forallb is_number_cell values = true ->
  ints_fit values = true ->
  forallb is_python_scalar (maybe_convert_objects values) = true.
Proof.
  intros Hnum Hfit. unfold maybe_convert_objects. rewrite Hnum, Hfit. simpl.
  destruct (forallb is_integer_cell values) eqn:Hint.
  - rewrite forallb_forall in *. intros c' Hin.
    apply in_map_iff in Hin. destruct Hin as [c [<- Hc]].
    apply python_int_scalar. auto.
  - rewrite forallb_forall in *. intros c' Hin.
    apply in_map_iff in Hin. destruct Hin as [c [<- Hc]].
    apply python_float_scalar. auto.
Qed.

(** The element of a 0-D array of a signed dtype, minus one, is a number
    that fits a 64-bit column. *)
Lemma sub1_0d_signed c :
  cell_wf c = true -> is_0d_signed c = true ->
  exists c',
    cell_sub1 c = Ok c' /\
    is_number_cell c' = true /\
    match as_integer c' with
    | Some z => (INT64_MIN <=? z)%Z && (z <=? INT64_MAX)%Z
    | None => true
    end = true.
Proof.
  destruct c as [x|[sh xs]|ys]; simpl; try discriminate.
  unfold ndim. simpl. intros Hwf H0.
  destruct sh; [| discriminate]. simpl in Hwf, H0.
  destruct xs as [|x [|x' xs]]; try discriminate.
  simpl in H0. rewrite andb_true_r in H0.
  destruct x as [| | |t z|f]; try discriminate; simpl.
  - eexists. split; [reflexivity |]. split; [reflexivity |]. simpl.
    destruct (signed_within_int64 t H0) as [Hlo Hhi].
    pose proof (wrap_range t (z - 1)) as Hw.
    apply andb_true_iff. rewrite !Z.leb_le. lia.
  - eexists. split; [reflexivity |]. split; reflexivity.
Qed.

Lemma sub1_0d_signed_column v :
  forallb cell_wf v = true -> forallb is_0d_signed v = true ->
  exists v1,
    per_cell cell_sub1 v = Ok v1 /\
    length v1 = length v /\
    forallb is_python_scalar v1 = true.
Proof.
  intros Hwf H0.
  assert (Hvalues : exists values,
             comprehension cell_sub1 v = Ok values /\
             forallb is_number_cell values = true /\
             ints_within INT64_MIN INT64_MAX values = true).
  { induction v as [|c v IH]; simpl in *.
    - exists []. auto.
    - apply andb_true_iff in Hwf, H0.
      destruct Hwf as [Hc Hv], H0 as [Hc0 Hv0].
      destruct (sub1_0d_signed c Hc Hc0) as [c' [-> [Hnum Hfit]]].
      destruct (IH Hv Hv0) as [values [-> [Hnums Hfits]]].
      exists (c' :: values). split; [reflexivity |]. split.
      + simpl. now rewrite Hnum, Hnums.
      + unfold ints_within in *. simpl. now rewrite Hfit, Hfits. }
  destruct Hvalues as [values [Hsub [Hnum Hfit]]].
  exists (maybe_convert_objects values). unfold per_cell. rewrite Hsub.
  split; [reflexivity |]. split.
  - rewrite maybe_convert_objects_length. now apply comprehension_length in Hsub.
  - apply numbers_stored_python; [exact Hnum |].
    unfold ints_fit. now rewrite Hfit.
Qed.

(** A column with rows that holds Python numbers or strings has no
    [ndim]. *)
Lemma python_scalars_no_ndim v :
  v <> [] -> forallb is_python_scalar v = true ->
  exists e, per_cell ensure_2d v = Raise e.
Proof.
  intros Hne Hpy. apply per_cell_raise_iff.
  destruct v as [|c v]; [contradiction |].
  exists c. split; [now left |].
  simpl in Hpy. apply andb_true_iff in Hpy. destruct Hpy as [Hc _].
  apply ensure_2d_raises. destruct c as [x| |]; try discriminate.
  simpl in *. now destruct (is_np_scalar x).
Qed.

Lemma repair_then_rebase_0d v v1 v2 :
  forallb cell_wf v = true ->
  forallb is_0d_array v = true ->
  per_cell ensure_2d v = Ok v1 ->
  per_cell cell_sub1 v1 = Ok v2 ->
  Forall2 rebased_row v v2.
Proof.
  intros Hwf H0 H1 H2.
  rewrite (per_cell_objects ensure_2d v ensure_2d_object) in H1.
  apply comprehension_Forall2 in H1.
  apply per_cell_spec in H2. destruct H2 as [values [H2 ->]].
  assert (Hrows : Forall2 rebased_row v values).
  { revert values H2.
    induction H1 as [|c c1 v v1 Hc1 _ IH]; intros values H2.
    - inversion H2. constructor.
    - inversion H2 as [|? c2 ? values' Hc2 Hrest]; subst.
      simpl in Hwf, H0. apply andb_true_iff in Hwf, H0.
      destruct Hwf as [Hc Hv], H0 as [Hc0 Hv0].
      constructor; [| now apply IH].
      clear IH Hrest H2.
      destruct c as [x|[sh xs]|ys]; try discriminate.
      unfold is_0d_array, ndim in Hc0. simpl in Hc0.
      destruct sh; [| discriminate]. simpl in Hc.
      destruct xs as [|x [|x' xs]]; try discriminate.
      simpl in Hc1. injection Hc1 as <-. simpl in Hc2.
      destruct (scalar_sub1 x) as [y|] eqn:Hy; [| discriminate].
      injection Hc2 as <-. constructor. now apply scalar_sub1_decremented. }
  rewrite maybe_convert_objects_no_numbers; [exact Hrows |].
  clear -Hrows. induction Hrows as [|c c' v values Hc _ IH]; constructor.
  - now destruct Hc.
  - exact IH.
Qed.

Lemma is_0d_signed_0d c : is_0d_signed c = true -> is_0d_array c = true.
Proof.
  destruct c as [x|a|xs]; simpl; try discriminate.
  rewrite andb_true_iff. tauto.
Qed.

(** X3 (rebasing and ensure 2-D do not commute).  Take a table with
    well-formed arrays, every [idx] column of which holds numbers only, and a
    column that is both an index field and a spike field, has rows and holds
    0-D arrays of numbers of a signed dtype (or [float64]).  Running
    [backshift_idx_fields] and then [clean_0d_array_fields] raises
    [AttributeError]: the subtraction turns each 0-D array into a scalar,
    the column is stored as a numeric column, and its cells, Python numbers,
    have no [ndim].  In the other order, whenever the run returns, the
    column holds, for each 0-D array, the array of one row and one column
    with its element minus one. *)
Theorem rebasing_then_ensure_2d_raises w r d name series :
  heap w !! r = Some d ->
  well_formed d = true ->
  arrays_wf d = true ->
  (forall n s,
      In (n, s) (columns d) -> is_idx_field n = true -> forallb numeric s = true) ->
  assoc name (columns d) = Some series ->
  is_idx_field name = true ->
  is_spike_field name = true ->
  series <> [] ->
  forallb is_0d_signed series = true ->
  (exists w',
      pipeline [backshift_idx_fields; clean_0d_array_fields] r w =
      (w', Raise AttributeError)) /\
  (forall w2 r2,
      pipeline [clean_0d_array_fields; backshift_idx_fields] r w = (w2, Ok r2) ->
      exists d2 series2,
        heap w2 !! r2 = Some d2 /\
        assoc name (columns d2) = Some series2 /\
        Forall2 rebased_row series series2).
Proof.
  intros Hr Hwf Harr Hnumeric Hseries Hidx Hspike Hne H0.
  pose proof (arrays_wf_column d name series Harr (assoc_In _ _ _ Hseries)) as Hcells.
  split.
  - pose proof (pipeline_two backshift_idx_fields clean_0d_array_fields
                  is_idx_field (per_cell cell_sub1) is_spike_field (per_cell ensure_2d)
                  run_backshift_idx_fields run_clean_0d_array_fields
                  (per_cell_keeps_length _) w r d Hr Hwf) as Htwo.
    destruct (map_fields_ok is_idx_field (per_cell cell_sub1) (columns d))
      as [cols1 Hmap1].
    { intros c v Hin Hc.
      apply (per_cell_ok_iff cell_sub1 numeric v cell_sub1_ok).
      exact (Hnumeric c v Hin Hc). }
    rewrite Hmap1 in Htwo.
    destruct (map_fields_assoc _ _ _ _ name series Hmap1 Hseries) as [v1 [Ha1 Hv1]].
    rewrite Hidx in Hv1.
    destruct (sub1_0d_signed_column series Hcells H0) as [v1' [Hv1' [Hlen Hpy]]].
    rewrite Hv1 in Hv1'. injection Hv1' as <-.
    assert (Hne1 : v1 <> []).
    { intros ->. destruct series; [contradiction | discriminate]. }
    destruct (python_scalars_no_ndim v1 Hne1 Hpy) as [e He].
    destruct (map_fields is_spike_field (per_cell ensure_2d) cols1)
      as [cols2|e2] eqn:Hmap2.
    + destruct (map_fields_assoc _ _ _ _ name v1 Hmap2 Ha1) as [v2 [_ Hv2]].
      rewrite Hspike in Hv2. congruence.
    + assert (He2 : e2 = AttributeError).
      { apply (map_fields_raise_kind is_spike_field (per_cell ensure_2d) cols1);
          [| exact Hmap2].
        intros v e0. apply per_cell_raise_kind. apply ensure_2d_AttributeError. }
      subst e2.
      destruct (pipeline [backshift_idx_fields; clean_0d_array_fields] r w)
        as [w' [r'|e']]; [contradiction |].
      subst e'. eauto.
  - intros w2 r2 Hrun.
    pose proof (pipeline_two clean_0d_array_fields backshift_idx_fields
                  is_spike_field (per_cell ensure_2d) is_idx_field (per_cell cell_sub1)
                  run_clean_0d_array_fields run_backshift_idx_fields
                  (per_cell_keeps_length _) w r d Hr Hwf) as Htwo.
    rewrite Hrun in Htwo.
    destruct (map_fields is_spike_field (per_cell ensure_2d) (columns d))
      as [cols1|] eqn:Hmap1; [| contradiction].
    destruct (map_fields is_idx_field (per_cell cell_sub1) cols1)
      as [cols2|] eqn:Hmap2; [| contradiction].
    destruct (map_fields_assoc _ _ _ _ name series Hmap1 Hseries) as [v1 [Ha1 Hv1]].
    rewrite Hspike in Hv1.
    destruct (map_fields_assoc _ _ _ _ name v1 Hmap2 Ha1) as [v2 [Ha2 Hv2]].
    rewrite Hidx in Hv2.
    exists (Frame (index d) cols2), v2. repeat split; try assumption.
    apply (repair_then_rebase_0d series v1 v2); try assumption.
    rewrite forallb_forall in *. intros c Hc. apply is_0d_signed_0d. auto.
Qed.

Lemma rebasing_then_ensure_2d_raises_witness :
  heap Cases.world_idx_spikes !! Sample.caller = Some Cases.idx_spikes /\
  well_formed Cases.idx_spikes = true /\
  arrays_wf Cases.idx_spikes = true /\
  assoc "idx_spikes" (columns Cases.idx_spikes) =
  Some [Sample.arr [] [Sample.i64 3]; Sample.arr [] [Sample.i64 5]] /\
  is_idx_field "idx_spikes" = true /\
  is_spike_field "idx_spikes" = true /\
  forallb is_0d_signed [Sample.arr [] [Sample.i64 3]; Sample.arr [] [Sample.i64 5]] = true /\
  (exists w',
      pipeline [backshift_idx_fields; clean_0d_array_fields]
        Sample.caller Cases.world_idx_spikes = (w', Raise AttributeError)) /\
  (forall w2 r2,
      pipeline [clean_0d_array_fields; backshift_idx_fields]
        Sample.caller Cases.world_idx_spikes = (w2, Ok r2) ->
      exists d2 series2,
        heap w2 !! r2 = Some d2 /\
        assoc "idx_spikes" (columns d2) = Some series2 /\
        Forall2 rebased_row
          [Sample.arr [] [Sample.i64 3]; Sample.arr [] [Sample.i64 5]] series2).
Proof.
  do 7 (split; [reflexivity |]).
  apply (rebasing_then_ensure_2d_raises Cases.world_idx_spikes Sample.caller
           Cases.idx_spikes "idx_spikes"
           [Sample.arr [] [Sample.i64 3]; Sample.arr [] [Sample.i64 5]]);
    try reflexivity.
  - intros n s [[= <- <-]|[]] _. reflexivity.
  - discriminate.
Defined.

(** On that table the second order does return, with [[2]] and [[4]]. *)
Example ensure_2d_then_rebasing_idx_spikes :
  exists w2 r2 d2,
    pipeline [clean_0d_array_fields; backshift_idx_fields]
      Sample.caller Cases.world_idx_spikes = (w2, Ok r2) /\
    heap w2 !! r2 = Some d2 /\
    assoc "idx_spikes" (columns d2) =
    Some [Sample.arr [1%nat; 1%nat] [Sample.i64 2];
          Sample.arr [1%nat; 1%nat] [Sample.i64 4]].
Proof.
  destruct (pipeline [clean_0d_array_fields; backshift_idx_fields]
              Sample.caller Cases.world_idx_spikes) as [w2 res] eqn:Hrun.
  vm_compute in Hrun. inversion Hrun; subst.
  do 3 eexists. split; [reflexivity |]. split; [vm_compute; reflexivity |].
  reflexivity.
Qed.

(** *** The two repairs in either order *)

Lemma collapse_0d_skips v : forallb is_0d_array v = false -> collapse_0d v = Ok v.
Proof.
  intros H0. unfold collapse_0d.
  destruct (forallb isinstance_ndarray v) eqn:Harr; [| reflexivity].
  now rewrite (ndim_is_0_arrays v Harr), forallb_id_map, H0.
Qed.

Lemma is_2d_not_0d v :
  v <> [] -> forallb is_2d_array v = true -> forallb is_0d_array v = false.
Proof.
  destruct v as [|c v]; [contradiction |]. simpl. intros _.
  rewrite andb_true_iff. intros [Hc _].
  destruct c as [x|a|xs]; simpl in *; try discriminate.
  apply Nat.eqb_eq in Hc. now rewrite Hc.
Qed.

(** X4 (the two repairs do not commute).  Take a table with well-formed
    arrays and a [_spikes] column that has rows and holds 0-D arrays only.
    Running [clean_0d_spike_fields] and then [clean_0d_array_fields] raises
    [AttributeError]: the first turns the column into plain scalars, which
    have no [ndim].  In the other order, whenever the run returns, the column
    holds the arrays reshaped to one row, which the collapse then skips. *)
Theorem collapse_then_ensure_2d_raises w r d name series :
  heap w !! r = Some d ->
  well_formed d = true ->
  arrays_wf d = true ->
  assoc name (columns d) = Some series ->
  is_spike_field name = true ->
  series <> [] ->
  forallb is_0d_array series = true ->
  (exists w',
      pipeline [clean_0d_spike_fields; clean_0d_array_fields] r w =
      (w', Raise AttributeError)) /\
  (forall w2 r2,
      pipeline [clean_0d_array_fields; clean_0d_spike_fields] r w = (w2, Ok r2) ->
      exists d2 series2,
        heap w2 !! r2 = Some d2 /\
        assoc name (columns d2) = Some series2 /\
        Forall2 repaired series series2).
Proof.
  intros Hr Hwf Harr Hseries Hspike Hne H0. split.
  - pose proof (pipeline_two clean_0d_spike_fields clean_0d_array_fields
                  (fun _ => true) collapse_0d is_spike_field (per_cell ensure_2d)
                  run_clean_0d_spike_fields run_clean_0d_array_fields
                  collapse_0d_keeps_length w r d Hr Hwf) as Htwo.
    destruct (map_fields_ok (fun _ => true) collapse_0d (columns d)) as [cols1 Hmap1].
    { intros c v Hin _.
      destruct (collapse_0d_spec v (arrays_wf_column d c v Harr Hin)) as [v' [Hv' _]].
      eauto. }
    rewrite Hmap1 in Htwo.
    destruct (map_fields_assoc _ _ _ _ name series Hmap1 Hseries) as [v1 [Ha1 Hv1]].
    simpl in Hv1.
    destruct (collapse_0d_spec series
                (arrays_wf_column d name series Harr (assoc_In _ _ _ Hseries)))
      as [v1' [Hv1' Hun]].
    rewrite Hv1 in Hv1'. injection Hv1' as <-. rewrite H0 in Hun.
    destruct Hun as [[values [Hun Hstored]] Hpy].
    assert (Hne1 : v1 <> []).
    { intros ->. symmetry in Hstored.
      apply (f_equal (@length cell)) in Hstored.
      rewrite maybe_convert_objects_length in Hstored.
      destruct Hun; [contradiction | discriminate]. }
    destruct (python_scalars_no_ndim v1 Hne1 Hpy) as [e He].
    destruct (map_fields is_spike_field (per_cell ensure_2d) cols1)
      as [cols2|e2] eqn:Hmap2.
    + destruct (map_fields_assoc _ _ _ _ name v1 Hmap2 Ha1) as [v2 [_ Hv2]].
      rewrite Hspike in Hv2. congruence.
    + assert (He2 : e2 = AttributeError).
      { apply (map_fields_raise_kind is_spike_field (per_cell ensure_2d) cols1);
          [| exact Hmap2].
        intros v e0. apply per_cell_raise_kind. apply ensure_2d_AttributeError. }
      subst e2.
      destruct (pipeline [clean_0d_spike_fields; clean_0d_array_fields] r w)
        as [w' [r'|e']]; [contradiction |].
      subst e'. eauto.
  - intros w2 r2 Hrun.
    pose proof (pipeline_two clean_0d_array_fields clean_0d_spike_fields
                  is_spike_field (per_cell ensure_2d) (fun _ => true) collapse_0d
                  run_clean_0d_array_fields run_clean_0d_spike_fields
                  (per_cell_keeps_length _) w r d Hr Hwf) as Htwo.
    rewrite Hrun in Htwo.
    destruct (map_fields is_spike_field (per_cell ensure_2d) (columns d))
      as [cols1|] eqn:Hmap1; [| contradiction].
    destruct (map_fields (fun _ => true) collapse_0d cols1)
      as [cols2|] eqn:Hmap2; [| contradiction].
    destruct (map_fields_assoc _ _ _ _ name series Hmap1 Hseries) as [v1 [Ha1 Hv1]].
    rewrite Hspike in Hv1.
    destruct (map_fields_assoc _ _ _ _ name v1 Hmap2 Ha1) as [v2 [Ha2 Hv2]].
    simpl in Hv2.
    assert (Hrep : Forall2 repaired series v1).
    { eapply per_cell_Forall2; [exact ensure_2d_object | | exact Hv1].
      apply ensure_2d_repaired. }
    assert (H2d : forallb is_2d_array v1 = true).
    { eapply Forall2_forallb_r; [| exact Hrep]. apply repaired_is_2d. }
    assert (Hne1 : v1 <> []).
    { intros ->. inversion Hrep; subst. contradiction. }
    rewrite (collapse_0d_skips v1 (is_2d_not_0d v1 Hne1 H2d)) in Hv2.
    injection Hv2 as <-.
    exists (Frame (index d) cols2), v1. auto.
Qed.

Lemma collapse_then_ensure_2d_raises_witness :
  heap Cases.world_one_bin !! Sample.caller = Some Cases.one_bin /\
  well_formed Cases.one_bin = true /\
  arrays_wf Cases.one_bin = true /\
  assoc "m1_spikes" (columns Cases.one_bin) =
  Some [Sample.arr [] [Sample.f64 3]; Sample.arr [] [Sample.f64 0]] /\
  is_spike_field "m1_spikes" = true /\
  [Sample.arr [] [Sample.f64 3]; Sample.arr [] [Sample.f64 0]] <> [] /\
  forallb is_0d_array [Sample.arr [] [Sample.f64 3]; Sample.arr [] [Sample.f64 0]] = true /\
  (exists w',
      pipeline [clean_0d_spike_fields; clean_0d_array_fields]
        Sample.caller Cases.world_one_bin = (w', Raise AttributeError)) /\
  (forall w2 r2,
      pipeline [clean_0d_array_fields; clean_0d_spike_fields]
        Sample.caller Cases.world_one_bin = (w2, Ok r2) ->
      exists d2 series2,
        heap w2 !! r2 = Some d2 /\
        assoc "m1_spikes" (columns d2) = Some series2 /\
        Forall2 repaired [Sample.arr [] [Sample.f64 3]; Sample.arr [] [Sample.f64 0]] series2).
Proof.
  do 5 (split; [reflexivity |]). split; [discriminate |]. split; [reflexivity |].
  apply (collapse_then_ensure_2d_raises Cases.world_one_bin Sample.caller
           Cases.one_bin "m1_spikes"
           [Sample.arr [] [Sample.f64 3]; Sample.arr [] [Sample.f64 0]]);
    try reflexivity. discriminate.
Defined.

(** On the one-bin sample the second order does return, with [[3]], [[0]]. *)
Example ensure_2d_then_collapse_one_bin :
  exists w2 r2 d2,
    pipeline [clean_0d_array_fields; clean_0d_spike_fields]
      Sample.caller Cases.world_one_bin = (w2, Ok r2) /\
    heap w2 !! r2 = Some d2 /\
    assoc "m1_spikes" (columns d2) =
    Some [Sample.arr [1%nat; 1%nat] [Sample.f64 3];
          Sample.arr [1%nat; 1%nat] [Sample.f64 0]].
Proof.
  destruct (pipeline [clean_0d_array_fields; clean_0d_spike_fields]
              Sample.caller Cases.world_one_bin) as [w2 res] eqn:Hrun.
  vm_compute in Hrun. inversion Hrun; subst.
  do 3 eexists. split; [reflexivity |]. split; [vm_compute; reflexivity |].
  reflexivity.
Qed.

(** *** Tables without rows, for the column-wise transforms *)

Lemma map_fields_empty P G cols :
  G [] = Ok [] ->
  Forall (fun p => snd p = []) cols ->
  map_fields P G cols = Ok cols.
Proof.
  intros HG H. unfold map_fields.
  induction H as [|[n v] cols Hv _ IH]; simpl; [reflexivity |].
  simpl in Hv. subst v. rewrite HG, IH. now destruct (P n).
Qed.

Lemma columnwise_zero_rows (transform : ref -> M ref) P G w r d :
  heap w !! r = Some d ->
  well_formed d = true ->
  index d = [] ->
  G [] = Ok [] ->
  (exists d_last,
      transform r w =
      match map_fields P G (columns d) with
      | Ok cols' =>
          (set_frame (fresh (dom (heap w))) (Frame (index d) cols') w,
           Ok (fresh (dom (heap w))))
      | Raise e => (set_frame (fresh (dom (heap w))) d_last w, Raise e)
      end) ->
  exists w' r', transform r w = (w', Ok r') /\ heap w' !! r' = Some d.
Proof.
  intros Hr Hwf Hidx HG [d_last Hrun].
  apply well_formed_spec in Hwf. destruct Hwf as [_ Hok].
  rewrite (map_fields_empty P G _ HG (zero_rows_columns d Hok Hidx)) in Hrun.
  do 2 eexists. split; [exact Hrun |].
  rewrite heap_set_frame. now destruct d.
Qed.

(** X14 (no rows).  On a table with zero rows, [backshift_idx_fields],
    [clean_0d_array_fields] and [clean_0d_spike_fields] each return a table
    with exactly the values of the input, whatever its columns are called. *)
Theorem repairs_on_zero_rows w r d :
  heap w !! r = Some d ->
  well_formed d = true ->
  index d = [] ->
  (exists w' r', backshift_idx_fields r w = (w', Ok r') /\ heap w' !! r' = Some d) /\
  (exists w' r', clean_0d_array_fields r w = (w', Ok r') /\ heap w' !! r' = Some d) /\
  (exists w' r', clean_0d_spike_fields r w = (w', Ok r') /\ heap w' !! r' = Some d).
Proof.
  intros Hr Hwf Hidx. split; [| split].
  - exact (columnwise_zero_rows backshift_idx_fields is_idx_field
             (per_cell cell_sub1) w r d Hr Hwf Hidx eq_refl
             (run_backshift_idx_fields w r d Hr Hwf)).
  - exact (columnwise_zero_rows clean_0d_array_fields is_spike_field
             (per_cell ensure_2d) w r d Hr Hwf Hidx eq_refl
             (run_clean_0d_array_fields w r d Hr Hwf)).
  - exact (columnwise_zero_rows clean_0d_spike_fields (fun _ => true)
             collapse_0d w r d Hr Hwf Hidx eq_refl
             (run_clean_0d_spike_fields w r d Hr Hwf)).
Qed.

Lemma repairs_on_zero_rows_witness :
  heap Sample.world2 !! Sample.caller = Some Sample.no_trials2 /\
  well_formed Sample.no_trials2 = true /\
  index Sample.no_trials2 = [] /\
  (exists w' r',
      backshift_idx_fields Sample.caller Sample.world2 = (w', Ok r') /\
      heap w' !! r' = Some Sample.no_trials2) /\
  (exists w' r',
      clean_0d_array_fields Sample.caller Sample.world2 = (w', Ok r') /\
      heap w' !! r' = Some Sample.no_trials2) /\
  (exists w' r',
      clean_0d_spike_fields Sample.caller Sample.world2 = (w', Ok r') /\
      heap w' !! r' = Some Sample.no_trials2).
Proof.
  do 3 (split; [reflexivity |]).
  apply (repairs_on_zero_rows Sample.world2 Sample.caller Sample.no_trials2);
    reflexivity.
Defined.
